(** * vers-tf: the provisioning and snapshot engine of the Vers Terraform provider

    A shallow embedding of the Go sources of the provider's SSH transport
    (package [client]: [SSHClient] and its methods) and of the two resources
    built on it (package [resources]: [ProvisionResource] and
    [VMCommitResource]), followed by the properties of the specification
    that were checked against them.

    Go strings are byte sequences and are embedded as [string] (a list of
    [ascii], one per byte).  Integers of the Go code that index strings or
    lists are [nat]; durations and instants are [Z] nanoseconds, as
    [time.Duration] is.  Everything the code does to the outside (the Vers
    HTTP API, the local file system, the [ssh] processes it spawns, the
    clock, the log) goes through a [World] that answers each call, and is
    recorded in a trace of events. *)

From Stdlib Require Import ZArith List String Ascii Lia Permutation.
From stdpp Require Import base decidable option list strings pretty sorting gmap.

Open Scope string_scope.
Open Scope Z_scope.
Open Scope list_scope.

(** ** The parts of the Go standard library the code relies on *)

(** [strings] *)
Module strings.

(** [strings.ReplaceAll s old new] for a non-empty [old]: the occurrences
    are replaced from left to right and do not overlap.  [skip] counts the
    bytes of a match still to be dropped. *)
Fixpoint replace_from (skip : nat) (s old new : string) : string :=
  match s with
  | EmptyString => EmptyString
  | String c s' =>
      match skip with
      | S k => replace_from k s' old new
      | O =>
          if String.prefix old s
          then new +:+ replace_from (String.length old - 1) s' old new
          else String c (replace_from O s' old new)
      end
  end.

Definition ReplaceAll (s old new : string) : string :=
  replace_from O s old new.

(** [unicode.IsSpace], as UTF-8 byte sequences: the six ASCII characters
    tab, line feed, vertical tab, form feed, carriage return and space,
    then U+0085, U+00A0, U+1680, U+2000 to U+200A, U+2028, U+2029, U+202F,
    U+205F and U+3000. *)
Definition utf8 (bs : list nat) : string :=
  string_of_list_ascii (map ascii_of_nat bs).

Definition spaces : list string :=
  map utf8
    ([[9]; [10]; [11]; [12]; [13]; [32];
      [194; 133]; [194; 160]; [225; 154; 128]]
     ++ map (fun b => [226; 128; b]) (seq 128 11)
     ++ [[226; 128; 168]; [226; 128; 169]; [226; 128; 175];
         [226; 129; 159]; [227; 128; 128]])%nat.

(** Drops the leading elements of [runes] from [s]; [skip] counts the
    bytes of the current one that are still to be dropped. *)
Fixpoint trimLeft (runes : list string) (skip : nat) (s : string) : string :=
  match s with
  | EmptyString => EmptyString
  | String _ s' =>
      match skip with
      | S k => trimLeft runes k s'
      | O =>
          match find (fun r => String.prefix r s) runes with
          | Some r => trimLeft runes (Nat.pred (String.length r)) s'
          | None => s
          end
      end
  end.

(** [strings.TrimSpace]: leading white space is removed first, trailing
    white space (decoded backwards from the end) after it. *)
Definition TrimSpace (s : string) : string :=
  String.rev
    (trimLeft (map String.rev spaces) 0 (String.rev (trimLeft spaces 0 s))).

(** [strings.Join] *)
Definition Join (elems : list string) (sep : string) : string :=
  String.concat sep elems.

(** [strings.Split s sep] for the one-byte separator [sep]. *)
Fixpoint split_go (sep : ascii) (cur : string) (s : string) : list string :=
  match s with
  | EmptyString => [String.rev cur]
  | String c s' =>
      if Ascii.eqb c sep then String.rev cur :: split_go sep EmptyString s'
      else split_go sep (String c cur) s'
  end.

Definition Split (s : string) (sep : ascii) : list string :=
  split_go sep EmptyString s.

End strings.

(** A Go slice expression [s[:n]] on a string, for [n <= len(s)]. *)
Definition slice_to (s : string) (n : nat) : string := String.substring 0 n s.

(** Bytes of a string as numbers, and back. *)
Definition byte_of (c : ascii) : Z := Z.of_N (N_of_ascii c).
Definition char_of (b : Z) : ascii := ascii_of_N (Z.to_N b).

Fixpoint bytes_of (s : string) : list Z :=
  match s with
  | EmptyString => []
  | String c s' => byte_of c :: bytes_of s'
  end.

Fixpoint string_of (bs : list Z) : string :=
  match bs with
  | [] => EmptyString
  | b :: bs' => String (char_of b) (string_of bs')
  end.

(** [encoding/hex] *)
Module hex.

Definition hextable : string := "0123456789abcdef".

Definition digit (n : Z) : ascii :=
  match String.get (Z.to_nat n) hextable with
  | Some c => c
  | None => "0"%char
  end.

(** [hex.EncodeToString]: two lower-case digits per byte, high nibble
    first. *)
Fixpoint EncodeToString (src : list Z) : string :=
  match src with
  | [] => EmptyString
  | b :: src' =>
      String (digit (Z.shiftr b 4))
        (String (digit (Z.land b 15)) (EncodeToString src'))
  end.

End hex.

(** [crypto/sha256] (FIPS 180-4), on 32-bit words kept in [Z]. *)
Module sha256.

Definition w32 (x : Z) : Z := x mod 4294967296.
Definition add32 (a b : Z) : Z := w32 (a + b).
Definition rotr (n x : Z) : Z :=
  Z.lor (Z.shiftr x n) (w32 (Z.shiftl x (32 - n))).

Definition Ch (x y z : Z) : Z :=
  Z.lxor (Z.land x y) (Z.land (Z.lnot x) z).
Definition Maj (x y z : Z) : Z :=
  Z.lxor (Z.land x y) (Z.lxor (Z.land x z) (Z.land y z)).
Definition bsig0 (x : Z) : Z :=
  Z.lxor (rotr 2 x) (Z.lxor (rotr 13 x) (rotr 22 x)).
Definition bsig1 (x : Z) : Z :=
  Z.lxor (rotr 6 x) (Z.lxor (rotr 11 x) (rotr 25 x)).
Definition ssig0 (x : Z) : Z :=
  Z.lxor (rotr 7 x) (Z.lxor (rotr 18 x) (Z.shiftr x 3)).
Definition ssig1 (x : Z) : Z :=
  Z.lxor (rotr 17 x) (Z.lxor (rotr 19 x) (Z.shiftr x 10)).

(** The first 64 primes. *)
Definition primes : list Z :=
  [ 2; 3; 5; 7; 11; 13; 17; 19; 23; 29; 31; 37; 41; 43; 47; 53;
    59; 61; 67; 71; 73; 79; 83; 89; 97; 101; 103; 107; 109; 113; 127; 131;
    137; 139; 149; 151; 157; 163; 167; 173; 179; 181; 191; 193; 197; 199;
    211; 223; 227; 229; 233; 239; 241; 251; 257; 263; 269; 271; 277; 281;
    283; 293; 307; 311 ].

(** The integer cube root of [n], one bit at a time from bit [bits - 1]
    down. *)
Fixpoint cube_root (bits : nat) (n r : Z) : Z :=
  match bits with
  | O => r
  | S bits' =>
      let r' := r + 2 ^ Z.of_nat bits' in
      cube_root bits' n (if r' * r' * r' <=? n then r' else r)
  end.

(** The round constants: the first 32 bits of the fractional parts of the
    cube roots of the first 64 primes. *)
Definition K : list Z :=
  map (fun p => w32 (cube_root 36 (p * 2 ^ 96) 0)) primes.

(** The initial hash value: the first 32 bits of the fractional parts of
    the square roots of the first 8 primes. *)
Definition H0 : list Z :=
  map (fun p => w32 (Z.sqrt (p * 2 ^ 64))) (firstn 8 primes).

(** Big-endian words of a block of bytes. *)
Fixpoint words (bs : list Z) : list Z :=
  match bs with
  | b0 :: b1 :: b2 :: b3 :: bs' =>
      Z.lor (Z.shiftl b0 24)
        (Z.lor (Z.shiftl b1 16) (Z.lor (Z.shiftl b2 8) b3)) :: words bs'
  | _ => []
  end.

Definition word_bytes (w : Z) : list Z :=
  [ Z.land (Z.shiftr w 24) 255; Z.land (Z.shiftr w 16) 255;
    Z.land (Z.shiftr w 8) 255; Z.land w 255 ].

(** The message schedule, most recent word first. *)
Fixpoint schedule (n : nat) (rw : list Z) : list Z :=
  match n with
  | O => rw
  | S n' =>
      let w := add32 (add32 (ssig1 (nth 1 rw 0)) (nth 6 rw 0))
                     (add32 (ssig0 (nth 14 rw 0)) (nth 15 rw 0)) in
      schedule n' (w :: rw)
  end.

Definition round (st : list Z) (kw : Z * Z) : list Z :=
  match st with
  | [a; b; c; d; e; f; g; h] =>
      let t1 := add32 (add32 (add32 h (bsig1 e)) (add32 (Ch e f g) (fst kw)))
                      (snd kw) in
      let t2 := add32 (bsig0 a) (Maj a b c) in
      [add32 t1 t2; a; b; c; add32 d t1; e; f; g]
  | _ => st
  end.

Definition block (hs : list Z) (bs : list Z) : list Z :=
  let w := rev (schedule 48 (rev (words bs))) in
  let st := fold_left round (combine K w) hs in
  map (fun p => add32 (fst p) (snd p)) (combine hs st).

(** Padding: a one bit, zeros up to 56 modulo 64, and the bit length as a
    64-bit big-endian number. *)
Definition padding (len : nat) : list Z :=
  let r := (len mod 64)%nat in
  let zeros := if (r <? 56)%nat then (55 - r)%nat else (119 - r)%nat in
  let bits := 8 * Z.of_nat len in
  128 :: repeat 0 zeros
    ++ map (fun i => Z.land (Z.shiftr bits (8 * i)) 255) [7; 6; 5; 4; 3; 2; 1; 0].

Fixpoint blocks (n : nat) (hs : list Z) (bs : list Z) : list Z :=
  match n with
  | O => hs
  | S n' => blocks n' (block hs (firstn 64 bs)) (skipn 64 bs)
  end.

(** [sha256.Sum256], also what [h.Sum(nil)] returns after the bytes have
    been written to [h := sha256.New()] in any number of [h.Write]s. *)
Definition Sum256 (msg : list Z) : list Z :=
  let padded := msg ++ padding (length msg) in
  concat (map word_bytes (blocks (length padded / 64) H0 padded)).

End sha256.


(** The line feed, which Rocq string literals cannot escape. *)
Definition nl : string := String "010"%char EmptyString.

(** [path/filepath], for Unix paths. *)
Module filepath.

(** One element of the path meets the elements kept so far (the last one
    first): empty and [.] elements are dropped, [..] removes the element
    before it, or is dropped at the root, or is kept in front of a
    relative path. *)
Definition clean_step (rooted : bool) (kept : list string) (e : string)
  : list string :=
  if String.eqb e "" || String.eqb e "." then kept
  else if String.eqb e ".." then
    match kept with
    | top :: rest => if String.eqb top ".." then e :: kept else rest
    | [] => if rooted then [] else [e]
    end
  else e :: kept.

(** [filepath.Clean] *)
Definition Clean (path : string) : string :=
  let rooted := String.prefix "/" path in
  let kept := fold_left (clean_step rooted) (strings.Split path "/"%char) [] in
  let out := (if rooted then "/" else "") +:+ strings.Join (rev kept) "/" in
  if String.eqb out "" then "." else out.

(** The path up to and including its last separator. *)
Fixpoint upto_last_sep (s : string) : string :=
  match s with
  | EmptyString => EmptyString
  | String c s' =>
      let r := upto_last_sep s' in
      if Ascii.eqb c "/"%char then String c r
      else if String.eqb r "" then EmptyString else String c r
  end.

(** [filepath.Dir] *)
Definition Dir (path : string) : string := Clean (upto_last_sep path).

(** [filepath.Join]: the elements from the first non-empty one on, joined
    by separators and cleaned. *)
Fixpoint Join (elem : list string) : string :=
  match elem with
  | [] => EmptyString
  | e :: rest =>
      if String.eqb e "" then Join rest else Clean (strings.Join elem "/")
  end.

End filepath.

(** [encoding/base64], the standard encoding with padding. *)
Module base64.

Definition encodeStd : string :=
  "ABCDEFGHIJKLMNOPQRSTUVWXYZabcdefghijklmnopqrstuvwxyz0123456789+/".

Definition enc (n : Z) : ascii :=
  match String.get (Z.to_nat n) encodeStd with
  | Some c => c
  | None => "A"%char
  end.

Definition sextet (val shift : Z) : ascii :=
  enc (Z.land (Z.shiftr val shift) 63).

(** [StdEncoding.EncodeToString], on the bytes of the source: three bytes
    make four digits, and a last group of one or two bytes is padded with
    [=]. *)
Fixpoint Encode (src : list Z) : string :=
  match src with
  | b0 :: b1 :: b2 :: src' =>
      let val := Z.lor (Z.shiftl b0 16) (Z.lor (Z.shiftl b1 8) b2) in
      String (sextet val 18) (String (sextet val 12)
        (String (sextet val 6) (String (sextet val 0) (Encode src'))))
  | [b0; b1] =>
      let val := Z.lor (Z.shiftl b0 16) (Z.shiftl b1 8) in
      String (sextet val 18) (String (sextet val 12)
        (String (sextet val 6) "="))
  | [b0] =>
      let val := Z.shiftl b0 16 in
      String (sextet val 18) (String (sextet val 12) "==")
  | [] => EmptyString
  end.

Definition EncodeToString (src : string) : string := Encode (bytes_of src).

End base64.

(** [time]: durations are nanoseconds. *)
Module time.

Definition Nanosecond : Z := 1.
Definition Microsecond : Z := 1000.
Definition Millisecond : Z := 1000000.
Definition Second : Z := 1000000000.
Definition Minute : Z := 60 * Second.

(** [fmtFrac]: the digits of the fraction [v / 10^prec] without trailing
    zeros, in front of [tail], and the integer part. *)
Fixpoint fmtFrac (prec : nat) (print : bool) (v : Z) (tail : string)
  : string * Z :=
  match prec with
  | O => (if print then "." +:+ tail else tail, v)
  | S prec' =>
      let digit := v mod 10 in
      let print' := print || negb (digit =? 0) in
      fmtFrac prec' print' (v / 10)
        (if print' then pretty digit +:+ tail else tail)
  end.

(** [Duration.String()] *)
Definition Duration_String (d : Z) : string :=
  let u := Z.abs d in
  let body :=
    if u =? 0 then "0s"
    else if u <? Second then
      let '(prec, unit) :=
        if u <? Microsecond then (0%nat, "ns")
        else if u <? Millisecond
             then (3%nat, String "194"%char (String "181"%char "s"))
             else (6%nat, "ms") in
      let '(frac, v) := fmtFrac prec false u unit in
      pretty v +:+ frac
    else
      let '(frac, v) := fmtFrac 9 false u "s" in
      let secs := pretty (v mod 60) +:+ frac in
      let mins := v / 60 in
      if 0 <? mins then
        let hours := mins / 60 in
        (if 0 <? hours then pretty hours +:+ "h" else "")
          +:+ pretty (mins mod 60) +:+ "m" +:+ secs
      else secs in
  if d <? 0 then "-" +:+ body else body.

End time.

(** ** Values of the Terraform plugin framework *)

Module types.

(** An attribute value is null, unknown, or known. *)
Inductive Value (A : Type) : Type :=
| Null
| Unknown
| Known (a : A).
Arguments Null {A}.
Arguments Unknown {A}.
Arguments Known {A} a.

Definition IsNull {A} (v : Value A) : bool :=
  match v with Null => true | _ => false end.
Definition IsUnknown {A} (v : Value A) : bool :=
  match v with Unknown => true | _ => false end.

Definition String : Type := Value string.
Definition Bool : Type := Value bool.
Definition List (A : Type) : Type := Value (list A).
(** A map value: its elements in the order a Go [range] happens to visit
    them; the keys are distinct. *)
Definition Map : Type := Value (list (string * String)).

(** [ValueString] is the empty string for a null or unknown value. *)
Definition ValueString (v : String) : string :=
  match v with Known s => s | _ => "" end.
Definition ValueBool (v : Bool) : bool :=
  match v with Known b => b | _ => false end.

(** The elements of a list or map that is neither null nor unknown, as the
    guard [!v.IsNull() && !v.IsUnknown()] followed by [ElementsAs] or
    [Elements] yields them. *)
Definition elements {A} (v : Value (list A)) : list A :=
  match v with Known l => l | _ => [] end.

(** [m[k]] on the elements of a map. *)
Fixpoint lookup (k : string) (m : list (string * String)) : option String :=
  match m with
  | [] => None
  | (k', v) :: m' => if String.eqb k k' then Some v else lookup k m'
  end.

End types.

(** Diagnostics of a response. *)
Inductive Severity := SeverityError | SeverityWarning.
Record Diagnostic := mkDiag {
  diag_severity : Severity;
  diag_summary : string;
  diag_detail : string
}.
Definition AddError (summary detail : string) : Diagnostic :=
  mkDiag SeverityError summary detail.
Definition is_error (d : Diagnostic) : bool :=
  match diag_severity d with SeverityError => true | SeverityWarning => false end.
Definition HasError (ds : list Diagnostic) : bool := existsb is_error ds.

(** ** Errors, processes, and the world *)

(** A Go error: its message and, when it was built with [%w], the error it
    wraps. *)
Inductive error :=
| Errorf (msg : string)
| Wrapped (msg : string) (err : error).
Definition Error (e : error) : string :=
  match e with Errorf m => m | Wrapped m _ => m end.
Definition Unwrap (e : error) : option error :=
  match e with Errorf _ => None | Wrapped _ err => Some err end.
(** [fmt.Errorf(prefix + "%w", err)] *)
Definition wrapf (prefix : string) (err : error) : error :=
  Wrapped (prefix +:+ Error err) err.

Inductive result (A : Type) := Ok (a : A) | Err (e : error).
Arguments Ok {A} a.
Arguments Err {A} e.

(** What an [ssh] process started by [exec.Command] does, seen from the
    provider: whether it starts, after how long it exits (if it ever does),
    what it has written to stdout after a given time, and how it exits. *)
Record Proc := mkProc {
  proc_start : option error;   (* the error of [cmd.Start], if any *)
  proc_exit : option N;        (* nanoseconds until it exits by itself *)
  proc_stdout : Z -> string;   (* stdout captured after that many ns *)
  proc_stderr : string;        (* stderr captured at exit *)
  proc_wait : option error;    (* the error of [cmd.Wait]: none for status 0 *)
  proc_code : Z                (* [ProcessState.ExitCode()] *)
}.

Inductive Level := Debug | Info | Warn.

(** The calls that leave the provider, in the order they are made. *)
Inductive Event :=
| EvGetSSHKey (vmID : string)                (* GET the VM's SSH key *)
| EvCommitVM (vmID : string) (keepPaused : bool)
| EvMkdirAll (path : string)
| EvWriteFile (path content : string)
| EvRemove (path : string)
| EvSSH (args : list string)                 (* [ssh args...] is started *)
| EvKill (args : list string)                (* that process is killed *)
| EvSleep (d : Z)
| EvLog (level : Level) (msg : string).

(** The [ssh] command lines started in a run, in order. *)
Definition started (evs : list Event) : list (list string) :=
  flat_map (fun e => match e with EvSSH args => [args] | _ => [] end) evs.

(** The commit calls of a run, and whether a warning was logged. *)
Definition commits (evs : list Event) : list (string * bool) :=
  flat_map (fun e => match e with
                     | EvCommitVM vmID keepPaused => [(vmID, keepPaused)]
                     | _ => []
                     end) evs.
Definition warned (evs : list Event) : bool :=
  existsb (fun e => match e with EvLog Warn _ => true | _ => false end) evs.

(** Calls that reach the Vers API or the VM. *)
Definition is_remote (e : Event) : bool :=
  match e with
  | EvGetSSHKey _ | EvCommitVM _ _ | EvSSH _ => true
  | _ => false
  end.

(** The outside of the provider.  [ssh_spawn] tells what the process started
    in the current world does; [ssh_done] is the world once the process is
    gone, after its exit ([None]) or after it was killed [t] ns in. *)
Class World (W : Type) := {
  os_TempDir : W -> string;
  os_MkdirAll : string -> W -> option error * W;
  os_WriteFile : string -> string -> W -> option error * W;
  os_ReadFile : string -> W -> result string;
  os_Remove : string -> W -> W;
  api_GetSSHKey : string -> W -> result string * W;
  api_CommitVM : string -> bool -> W -> result string * W;
  ssh_spawn : list string -> W -> Proc;
  ssh_done : list string -> option Z -> W -> W
}.

(** ** The monad of the embedding: state passing over the world, the clock
    and the trace, with an outcome for calls that never return. *)

Record St (W : Type) := mkSt {
  st_world : W;
  st_now : Z;
  st_trace : list Event
}.
Arguments mkSt {W} _ _ _.
Arguments st_world {W} _.
Arguments st_now {W} _.
Arguments st_trace {W} _.

Inductive Outcome (W A : Type) :=
| Done (a : A) (s : St W)      (* the call returns [a] *)
| Hang (s : St W).             (* the call blocks forever *)
Arguments Done {W A} a s.
Arguments Hang {W A} s.

Definition M (W A : Type) : Type := St W -> Outcome W A.

Definition ret {W A} (a : A) : M W A := fun s => Done a s.
Definition bind {W A B} (m : M W A) (k : A -> M W B) : M W B :=
  fun s => match m s with
           | Done a s' => k a s'
           | Hang s' => Hang s'
           end.

Notation "x <- m ;; k" := (bind m (fun x => k))
  (at level 100, m at next level, right associativity).
Notation "m ;;; k" := (bind m (fun _ => k))
  (at level 100, right associativity).

Section Primitives.
Context {W : Type} {world : World W}.

Definition emit (e : Event) : M W unit :=
  fun s => Done tt (mkSt (st_world s) (st_now s) (st_trace s ++ [e])).

Definition tflog (l : Level) (msg : string) : M W unit := emit (EvLog l msg).

(** A call that the world answers and that may change it. *)
Definition call {A} (e : Event) (f : W -> A * W) : M W A :=
  fun s => let '(a, w) := f (st_world s) in
           Done a (mkSt w (st_now s) (st_trace s ++ [e])).

Definition ask {A} (f : W -> A) : M W A := fun s => Done (f (st_world s)) s.

Definition time_Now : M W Z := fun s => Done (st_now s) s.

(** [time.Sleep d] returns at once for [d <= 0]. *)
Definition time_Sleep (d : Z) : M W unit :=
  fun s => Done tt (mkSt (st_world s) (st_now s + Z.max 0 d)
                      (st_trace s ++ [EvSleep d])).

Definition GetSSHKey (vmID : string) : M W (result string) :=
  call (EvGetSSHKey vmID) (api_GetSSHKey vmID).
Definition CommitVM (vmID : string) (keepPaused : bool) : M W (result string) :=
  call (EvCommitVM vmID keepPaused) (api_CommitVM vmID keepPaused).

End Primitives.

(** ** Package [client]: the SSH-over-TLS transport (ssh.go) *)

Module client.

Record SSHClient := mkSSHClient {
  KeyPath : string;
  VMID : string;
  Host : string
}.

Definition min (a b : nat) : nat := if (a <? b)%nat then a else b.

Definition shellEscape (s : string) : string :=
  strings.ReplaceAll s "'" "'\''".

(** The name of the key file of a VM: [fmt.Sprintf("vers-%s.pem",
    vmID[:min(12, len(vmID))])]. *)
Definition keyFileName (vmID : string) : string :=
  "vers-" +:+ slice_to vmID (min 12 (String.length vmID)) +:+ ".pem".

Definition keyDirOf (tmp : string) : string :=
  filepath.Join [tmp; "vers-tf-ssh-keys"].

Definition keyPathOf (tmp vmID : string) : string :=
  filepath.Join [keyDirOf tmp; keyFileName vmID].

(** [sshBaseArgs] *)
Definition sshBaseArgs (s : SSHClient) : list string :=
  [ "-i"; KeyPath s;
    "-o"; "StrictHostKeyChecking=no";
    "-o"; "UserKnownHostsFile=/dev/null";
    "-o"; "LogLevel=ERROR";
    "-o"; "ConnectTimeout=30";
    "-o"; "ServerAliveInterval=15";
    "-o"; "ServerAliveCountMax=4";
    "-o"; "ProxyCommand=openssl s_client -connect " +:+ Host s
            +:+ ":443 -servername " +:+ Host s +:+ " -quiet 2>/dev/null";
    "root@" +:+ Host s ].

Section WithWorld.
Context {W : Type} {world : World W}.

(** [NewSSHClient]: the private key goes to a file under the temporary
    directory, named after the first 12 bytes of the VM id. *)
Definition NewSSHClient (vmID privateKey : string) : M W (result SSHClient) :=
  tmp <- ask os_TempDir ;;
  let keyDir := keyDirOf tmp in
  e <- call (EvMkdirAll keyDir) (os_MkdirAll keyDir) ;;
  match e with
  | Some err => ret (Err (wrapf "create key directory: " err))
  | None =>
      let keyPath := filepath.Join [keyDir; keyFileName vmID] in
      e <- call (EvWriteFile keyPath privateKey)
             (os_WriteFile keyPath privateKey) ;;
      match e with
      | Some err => ret (Err (wrapf "write SSH key: " err))
      | None =>
          ret (Ok (mkSSHClient keyPath vmID (vmID +:+ ".vm.vers.sh")))
      end
  end.

(** [Exec]: [cmd.Run()] waits for the process however long it takes. *)
Definition Exec (s : SSHClient) (command : string)
  : M W (string * option error) :=
  let args := sshBaseArgs s ++ [command] in
  fun st =>
    let p := ssh_spawn args (st_world st) in
    let tr := st_trace st ++ [EvSSH args] in
    match proc_start p with
    | Some err =>
        Done ("", Some (Errorf ("SSH exec failed (exit " +:+ pretty (-1)
                 +:+ "): " +:+ Error err +:+ nl +:+ "stderr: ")))
          (mkSt (st_world st) (st_now st) tr)
    | None =>
        match proc_exit p with
        | None => Hang (mkSt (st_world st) (st_now st) tr)
        | Some d =>
            let st' := mkSt (ssh_done args None (st_world st))
                         (st_now st + Z.of_N d) tr in
            match proc_wait p with
            | Some err =>
                Done ("", Some (Errorf ("SSH exec failed (exit "
                         +:+ pretty (proc_code p) +:+ "): " +:+ Error err
                         +:+ nl +:+ "stderr: " +:+ proc_stderr p))) st'
            | None => Done (proc_stdout p (Z.of_N d), None) st'
            end
        end
    end.

(** [ExecWithTimeout]: the [select] takes the exit of the process if it
    comes before the timer fires; otherwise the process is killed.  An
    exit exactly when the timer fires counts as a timeout. *)
Definition ExecWithTimeout (s : SSHClient) (command : string) (timeout : Z)
  : M W (string * option error) :=
  let args := sshBaseArgs s ++ [command] in
  fun st =>
    let p := ssh_spawn args (st_world st) in
    let tr := st_trace st ++ [EvSSH args] in
    match proc_start p with
    | Some err =>
        Done ("", Some (wrapf "SSH start failed: " err))
          (mkSt (st_world st) (st_now st) tr)
    | None =>
        let timed_out :=
          let t := Z.max 0 timeout in
          Done (proc_stdout p t,
                Some (Errorf ("SSH command timed out after "
                        +:+ time.Duration_String timeout)))
            (mkSt (ssh_done args (Some t) (st_world st))
               (st_now st + t) (tr ++ [EvKill args])) in
        match proc_exit p with
        | Some d =>
            if Z.of_N d <? timeout then
              let st' := mkSt (ssh_done args None (st_world st))
                           (st_now st + Z.of_N d) tr in
              match proc_wait p with
              | Some err =>
                  Done (proc_stdout p (Z.of_N d),
                        Some (Errorf ("SSH exec failed: " +:+ Error err
                                +:+ nl +:+ "stderr: " +:+ proc_stderr p)))
                    st'
              | None => Done (proc_stdout p (Z.of_N d), None) st'
              end
            else timed_out
        | None => timed_out
        end
    end.

(** [WriteFile] *)
Definition WriteFile (s : SSHClient) (remotePath content : string)
  : M W (option error) :=
  let dir := filepath.Dir remotePath in
  e <- (if negb (String.eqb dir ".") && negb (String.eqb dir "/") then
          r <- Exec s ("mkdir -p '" +:+ shellEscape dir +:+ "'") ;;
          ret (snd r)
        else ret None) ;;
  match e with
  | Some err => ret (Some (wrapf "mkdir on VM: " err))
  | None =>
      let encoded := base64.EncodeToString content in
      let cmd := "echo '" +:+ encoded +:+ "' | base64 -d > '"
                   +:+ shellEscape remotePath +:+ "'" in
      r <- Exec s cmd ;;
      match snd r with
      | Some err =>
          ret (Some (wrapf ("write file " +:+ remotePath +:+ " on VM: ") err))
      | None => ret None
      end
  end.

(** [UploadFile] *)
Definition UploadFile (s : SSHClient) (localPath remotePath : string)
  : M W (option error) :=
  r <- ask (os_ReadFile localPath) ;;
  match r with
  | Err err =>
      ret (Some (wrapf ("read local file " +:+ localPath +:+ ": ") err))
  | Ok content => WriteFile s remotePath content
  end.


(** How the loop of [WaitReachable] ends: by the [return nil] in its
    body, or because the deadline has passed, with [lastErr]. *)
Inductive Probing :=
| Reached
| GaveUp (lastErr : option error).

(** The loop of [WaitReachable].  Every turn takes at least the three
    seconds of its sleep, so [n] turns are enough when the deadline is
    less than [3 * n] seconds away; [Hang] stands for more turns than
    [n]. *)
Fixpoint WaitReachable_loop (n : nat) (s : SSHClient) (deadline : Z)
  (lastErr : option error) : M W Probing :=
  now <- time_Now ;;
  if now <? deadline then
    match n with
    | O => fun st => Hang st
    | S n' =>
        r <- ExecWithTimeout s "echo ready" (15 * time.Second) ;;
        let '(out, err) := r in
        if match err with None => true | Some _ => false end
           && String.eqb (strings.TrimSpace out) "ready"
        then ret Reached
        else
          time_Sleep (3 * time.Second) ;;;
          WaitReachable_loop n' s deadline err
    end
  else ret (GaveUp lastErr).

Definition WaitReachable_turns (timeout : Z) : nat :=
  (Z.to_nat (timeout / (3 * time.Second)) + 1)%nat.

(** [WaitReachable] *)
Definition WaitReachable (s : SSHClient) (timeout : Z) : M W (option error) :=
  now <- time_Now ;;
  let deadline := now + timeout in
  r <- WaitReachable_loop (WaitReachable_turns timeout) s deadline None ;;
  let msg := "VM " +:+ VMID s +:+ " not reachable via SSH after "
               +:+ time.Duration_String timeout in
  match r with
  | Reached => ret None
  | GaveUp (Some lastErr) => ret (Some (wrapf (msg +:+ ": ") lastErr))
  | GaveUp None => ret (Some (Errorf msg))
  end.

(** [Cleanup] *)
Definition Cleanup (s : SSHClient) : M W unit :=
  call (EvRemove (KeyPath s)) (fun w => (tt, os_Remove (KeyPath s) w)).

End WithWorld.

End client.

(** ** Package [resources]: [vers_provision] (provision.go) *)

Module ProvisionResource.

Import types.

(** [FileBlock]: a file to upload to the VM. *)
Record FileBlock := mkFileBlock {
  Source : types.String;
  Content : types.String;
  Destination : types.String
}.

Record ProvisionResourceModel := mkModel {
  ID : types.String;
  VMID : types.String;
  Files : types.List FileBlock;
  Commands : types.List string;
  Triggers : types.Map
}.

(** What a create or update leaves in the response: its diagnostics and,
    when [resp.State.Set] was reached, the new state. *)
Record Response := mkResponse {
  Diagnostics : list Diagnostic;
  State : option ProvisionResourceModel
}.

Definition failed (summary detail : string) : Response :=
  mkResponse [AddError summary detail] None.

(** [truncate] *)
Definition truncate (s : string) (n : nat) : string :=
  if (String.length s <=? n)%nat then s else slice_to s n +:+ "...".

(** The two tests of the upload loops:
    [!f.Source.IsNull() && f.Source.ValueString() != ""], and the same for
    [Content]. *)
Definition source_given (f : FileBlock) : bool :=
  negb (IsNull (Source f)) && negb (String.eqb (ValueString (Source f)) "").
Definition content_given (f : FileBlock) : bool :=
  negb (IsNull (Content f)) && negb (String.eqb (ValueString (Content f)) "").

(** [sort.Strings] on the keys of the triggers. *)
Definition sortedKeys (m : list (string * types.String)) : list string :=
  merge_sort String.le (map fst m).

(** The keys in sorted order, each with the value the map has for it. *)
Definition sortedPairs (m : list (string * types.String))
  : list (string * string) :=
  map (fun k => (k, match lookup k m with
                    | Some v => ValueString v
                    | None => ""
                    end)) (sortedKeys m).

Section WithWorld.
Context {W : Type} {world : World W}.

(** The file loop of [Create]; [i] is the index of the first block of
    [files]. *)
Fixpoint uploadFiles_Create (ssh : client.SSHClient) (i : nat)
  (files : list FileBlock) : M W (option Diagnostic) :=
  match files with
  | [] => ret None
  | f :: rest =>
      let dest := ValueString (Destination f) in
      if source_given f then
        let src := ValueString (Source f) in
        tflog Debug ("Uploading file " +:+ pretty (i + 1)%nat +:+ ": " +:+ src
                       +:+ " -> " +:+ dest) ;;;
        e <- client.UploadFile ssh src dest ;;
        match e with
        | Some err =>
            ret (Some (AddError ("Failed to upload file " +:+ src +:+ " -> "
                                   +:+ dest) (Error err)))
        | None => uploadFiles_Create ssh (S i) rest
        end
      else if content_given f then
        let content := ValueString (Content f) in
        tflog Debug ("Writing inline content to " +:+ dest +:+ " ("
                       +:+ pretty (String.length content) +:+ " bytes)") ;;;
        e <- client.WriteFile ssh dest content ;;
        match e with
        | Some err =>
            ret (Some (AddError ("Failed to write content to " +:+ dest)
                         (Error err)))
        | None => uploadFiles_Create ssh (S i) rest
        end
      else
        ret (Some (AddError
          ("File block " +:+ pretty (i + 1)%nat
             +:+ ": either 'source' or 'content' must be specified")
          "Each file block requires either a 'source' (local file path) or 'content' (inline string)."))
  end.

(** The command loop of [Create]; [n] is [len(commands)] and [i] the index
    of the first command of [commands]. *)
Fixpoint runCommands_Create (ssh : client.SSHClient) (n i : nat)
  (commands : list string) : M W (option Diagnostic) :=
  match commands with
  | [] => ret None
  | cmd :: rest =>
      tflog Info ("Running command " +:+ pretty (i + 1)%nat +:+ "/"
                    +:+ pretty n +:+ ": " +:+ truncate cmd 100) ;;;
      r <- client.ExecWithTimeout ssh cmd (10 * time.Minute) ;;
      let '(output, err) := r in
      match err with
      | Some e =>
          ret (Some (AddError
            ("Command " +:+ pretty (i + 1)%nat +:+ " failed: "
               +:+ truncate cmd 80)
            ("Error: " +:+ Error e +:+ nl +:+ "Output: "
               +:+ truncate output 2000)))
      | None =>
          tflog Debug ("Command " +:+ pretty (i + 1)%nat +:+ " output: "
                         +:+ truncate output 500) ;;;
          runCommands_Create ssh n (S i) rest
      end
  end.

(** What [computeID] hashes for the content of a file block: the bytes of
    the source file (the source path itself when the file cannot be read),
    then the inline content. *)
Definition fileContent (w : W) (f : FileBlock) : string :=
  (if negb (IsNull (Source f)) then
     match os_ReadFile (ValueString (Source f)) w with
     | Ok content => content
     | Err _ => ValueString (Source f)
     end
   else "")
  +:+ (if negb (IsNull (Content f)) then ValueString (Content f) else "").

(** What one file block adds to the hash. *)
Definition fileBytes (w : W) (f : FileBlock) : string :=
  ValueString (Destination f) +:+ fileContent w f.

(** Everything [computeID] writes to the hash, in the order of its
    [h.Write] calls. *)
Definition hashInput (plan : ProvisionResourceModel) (w : W) : string :=
  ValueString (VMID plan)
  +:+ String.concat "" (map (fileBytes w) (elements (Files plan)))
  +:+ String.concat "" (elements (Commands plan))
  +:+ String.concat ""
        (map (fun kv => fst kv +:+ snd kv) (sortedPairs (elements (Triggers plan)))).

(** [computeID]: the first 16 hex digits of the SHA-256 of the input. *)
Definition computeID (plan : ProvisionResourceModel) (w : W) : string :=
  slice_to (hex.EncodeToString (sha256.Sum256 (bytes_of (hashInput plan w)))) 16.

Definition with_ID (plan : ProvisionResourceModel) (id : string)
  : ProvisionResourceModel :=
  mkModel (Known id) (VMID plan) (Files plan) (Commands plan) (Triggers plan).

(** [Create] from the point where the SSH client exists (what runs before
    the deferred [ssh.Cleanup()]). *)
Definition Create_provision (ssh : client.SSHClient)
  (plan : ProvisionResourceModel) : M W Response :=
  tflog Debug "Waiting for VM to be reachable via SSH" ;;;
  e <- client.WaitReachable ssh (3 * time.Minute) ;;
  match e with
  | Some err => ret (failed "VM not reachable via SSH" (Error err))
  | None =>
      d <- uploadFiles_Create ssh 0 (elements (Files plan)) ;;
      match d with
      | Some diag => ret (mkResponse [diag] None)
      | None =>
          let commands := elements (Commands plan) in
          d <- runCommands_Create ssh (length commands) 0 commands ;;
          match d with
          | Some diag => ret (mkResponse [diag] None)
          | None =>
              id <- ask (computeID plan) ;;
              tflog Info "VM provisioning complete" ;;;
              ret (mkResponse [] (Some (with_ID plan id)))
          end
      end
  end.

(** [Create] *)
Definition Create (plan : ProvisionResourceModel) : M W Response :=
  let vmID := ValueString (VMID plan) in
  tflog Info "Provisioning Vers VM" ;;;
  r <- GetSSHKey vmID ;;
  match r with
  | Err err => ret (failed "Failed to get SSH key for VM" (Error err))
  | Ok sshKey =>
      r <- client.NewSSHClient vmID sshKey ;;
      match r with
      | Err err => ret (failed "Failed to create SSH client" (Error err))
      | Ok ssh =>
          resp <- Create_provision ssh plan ;;
          client.Cleanup ssh ;;;
          ret resp
      end
  end.

(** The file loop of [Update]: a block with neither a source nor a content
    falls through both tests. *)
Fixpoint uploadFiles_Update (ssh : client.SSHClient)
  (files : list FileBlock) : M W (option Diagnostic) :=
  match files with
  | [] => ret None
  | f :: rest =>
      let dest := ValueString (Destination f) in
      if source_given f then
        e <- client.UploadFile ssh (ValueString (Source f)) dest ;;
        match e with
        | Some err =>
            ret (Some (AddError ("Failed to upload file to " +:+ dest)
                         (Error err)))
        | None => uploadFiles_Update ssh rest
        end
      else if content_given f then
        e <- client.WriteFile ssh dest (ValueString (Content f)) ;;
        match e with
        | Some err =>
            ret (Some (AddError ("Failed to write content to " +:+ dest)
                         (Error err)))
        | None => uploadFiles_Update ssh rest
        end
      else uploadFiles_Update ssh rest
  end.

(** The command loop of [Update]. *)
Fixpoint runCommands_Update (ssh : client.SSHClient) (n idx : nat)
  (commands : list string) : M W (option Diagnostic) :=
  match commands with
  | [] => ret None
  | cmd :: rest =>
      tflog Info ("Re-provisioning command " +:+ pretty (idx + 1)%nat +:+ "/"
                    +:+ pretty n +:+ ": " +:+ truncate cmd 100) ;;;
      r <- client.ExecWithTimeout ssh cmd (10 * time.Minute) ;;
      let '(output, err) := r in
      match err with
      | Some e =>
          ret (Some (AddError
            ("Command " +:+ pretty (idx + 1)%nat +:+ " failed: "
               +:+ truncate cmd 80)
            ("Error: " +:+ Error e +:+ nl +:+ "Output: "
               +:+ truncate output 2000)))
      | None => runCommands_Update ssh n (S idx) rest
      end
  end.

Definition Update_provision (ssh : client.SSHClient)
  (plan : ProvisionResourceModel) : M W Response :=
  e <- client.WaitReachable ssh (3 * time.Minute) ;;
  match e with
  | Some err => ret (failed "VM not reachable via SSH" (Error err))
  | None =>
      d <- uploadFiles_Update ssh (elements (Files plan)) ;;
      match d with
      | Some diag => ret (mkResponse [diag] None)
      | None =>
          let commands := elements (Commands plan) in
          d <- runCommands_Update ssh (length commands) 0 commands ;;
          match d with
          | Some diag => ret (mkResponse [diag] None)
          | None =>
              id <- ask (computeID plan) ;;
              ret (mkResponse [] (Some (with_ID plan id)))
          end
      end
  end.

(** [Update] *)
Definition Update (plan : ProvisionResourceModel) : M W Response :=
  let vmID := ValueString (VMID plan) in
  tflog Info "Re-provisioning Vers VM (triggers changed)" ;;;
  r <- GetSSHKey vmID ;;
  match r with
  | Err err => ret (failed "Failed to get SSH key for VM" (Error err))
  | Ok sshKey =>
      r <- client.NewSSHClient vmID sshKey ;;
      match r with
      | Err err => ret (failed "Failed to create SSH client" (Error err))
      | Ok ssh =>
          resp <- Update_provision ssh plan ;;
          client.Cleanup ssh ;;;
          ret resp
      end
  end.

End WithWorld.

End ProvisionResource.

(** ** Package [resources]: [vers_vm_commit] (vm_commit.go) *)

Module VMCommitResource.

Import types.

Record VMCommitResourceModel := mkModel {
  ID : types.String;
  VMID : types.String;
  CommitID : types.String;
  KeepPaused : types.Bool;
  Triggers : types.Map
}.

Record Response := mkResponse {
  Diagnostics : list Diagnostic;
  State : option VMCommitResourceModel
}.

Section WithWorld.
Context {W : Type} {world : World W}.

(** [syncBeforeCommit]: every failure ends in a warning in the log and a
    plain return. *)
Definition syncBeforeCommit (vmID : string) : M W unit :=
  r <- GetSSHKey vmID ;;
  match r with
  | Err err => tflog Warn "Could not get SSH key for pre-commit sync (skipping)"
  | Ok sshKey =>
      r <- client.NewSSHClient vmID sshKey ;;
      match r with
      | Err err =>
          tflog Warn "Could not create SSH client for pre-commit sync (skipping)"
      | Ok ssh =>
          tflog Debug "Running 'sync' on VM before commit to flush dirty pages" ;;;
          r <- client.ExecWithTimeout ssh "sync" (2 * time.Minute) ;;
          (match snd r with
           | Some err =>
               tflog Warn "Pre-commit sync failed (VM may not be SSH-reachable)"
           | None => tflog Debug "Pre-commit sync complete"
           end) ;;;
          client.Cleanup ssh
      end
  end.

(** [Create] *)
Definition Create (plan : VMCommitResourceModel) : M W Response :=
  let vmID := ValueString (VMID plan) in
  let keepPaused := ValueBool (KeepPaused plan) in
  tflog Debug "Committing Vers VM" ;;;
  syncBeforeCommit vmID ;;;
  r <- CommitVM vmID keepPaused ;;
  match r with
  | Err err => ret (mkResponse [AddError "Failed to commit VM" (Error err)] None)
  | Ok commitID =>
      ret (mkResponse []
             (Some (mkModel (Known commitID) (VMID plan) (Known commitID)
                      (KeepPaused plan) (Triggers plan))))
  end.

(** [Update] *)
Definition Update (plan : VMCommitResourceModel) : M W Response :=
  let vmID := ValueString (VMID plan) in
  let keepPaused := ValueBool (KeepPaused plan) in
  tflog Debug "Re-committing Vers VM (triggers changed)" ;;;
  syncBeforeCommit vmID ;;;
  r <- CommitVM vmID keepPaused ;;
  match r with
  | Err err => ret (mkResponse [AddError "Failed to re-commit VM" (Error err)] None)
  | Ok commitID =>
      ret (mkResponse []
             (Some (mkModel (Known commitID) (VMID plan) (Known commitID)
                      (KeepPaused plan) (Triggers plan))))
  end.

(** [Delete]: nothing but a line in the log; the framework drops the
    resource from the state when [Delete] returns without an error. *)
Definition Delete (state : VMCommitResourceModel) : M W Response :=
  tflog Debug "Removing commit from Terraform state (commits are retained in Vers)" ;;;
  ret (mkResponse [] None).

End WithWorld.

End VMCommitResource.

(** ** A simulated world: a local file system, the Vers API, and one VM
    whose shell runs the commands the transport sends

    The VM side is not code of the provider: it is the kernel, the shell and
    the [mkdir], [base64] and [cat] of a Linux guest.  The model covers the
    part of them that the transport uses: the limits of [execve] on the
    arguments of a process, single quotes, a tree of folders and regular
    files (no links, no devices, no quota) with the limits on the length of
    names and paths, and the commands below with operands that are not
    options.  Everything else is answered as an unknown command. *)

Module sim.

(** Words and operators of a shell command line. *)
Inductive token :=
| TWord (w : string)
| TPipe
| TGreat.

Definition push (c : ascii) (cur : option string) : option string :=
  match cur with
  | Some w => Some (w +:+ String c EmptyString)
  | None => Some (String c EmptyString)
  end.

Definition flush (cur : option string) (rest : option (list token))
  : option (list token) :=
  match cur, rest with
  | Some w, Some ts => Some (TWord w :: ts)
  | None, Some ts => Some ts
  | _, None => None
  end.

Definition operator (t : token) (rest : option (list token))
  : option (list token) :=
  match rest with Some ts => Some (t :: ts) | None => None end.

(** The characters that mean something to [sh] outside quotes and that the
    model does not interpret (the last two are the double quote and the line
    feed). *)
Definition unsupported (c : ascii) : bool :=
  existsb (Ascii.eqb c) (list_ascii_of_string "$`;&()<*?[]#~={}!")
  || Ascii.eqb c "034" || Ascii.eqb c "010".

(** Token recognition of [sh]: inside single quotes ([q]) every character
    up to the next quote stands for itself; outside, a backslash makes the
    next character stand for itself, blanks end a word, and [|] and [>] are
    operators.  [cur] is the word being read, if any. *)
Fixpoint lex (q : bool) (cur : option string) (s : string)
  : option (list token) :=
  match s with
  | EmptyString => if q then None else flush cur (Some [])
  | String c s' =>
      if q then
        if Ascii.eqb c "'" then lex false cur s' else lex true (push c cur) s'
      else if Ascii.eqb c "'" then
        lex true (Some (default "" cur)) s'
      else if Ascii.eqb c "\" then
        match s' with
        | String c' s'' => lex false (push c' cur) s''
        | EmptyString => None
        end
      else if Ascii.eqb c " " || Ascii.eqb c "009" then
        flush cur (lex false None s')
      else if Ascii.eqb c "|" then flush cur (operator TPipe (lex false None s'))
      else if Ascii.eqb c ">" then flush cur (operator TGreat (lex false None s'))
      else if unsupported c then None
      else lex false (push c cur) s'
  end.

(** The value of a base64 digit. *)
Fixpoint index_of (c : ascii) (s : string) (i : Z) : option Z :=
  match s with
  | EmptyString => None
  | String c' s' => if Ascii.eqb c c' then Some i else index_of c s' (i + 1)
  end.
Definition dec (c : ascii) : option Z := index_of c base64.encodeStd 0.

Definition quantum (v0 v1 v2 v3 : Z) : Z :=
  Z.lor (Z.shiftl v0 18) (Z.lor (Z.shiftl v1 12) (Z.lor (Z.shiftl v2 6) v3)).
Definition octet (val shift : Z) : Z := Z.land (Z.shiftr val shift) 255.

(** Decoding of groups of four digits; padding ends the input. *)
Fixpoint decode_groups (s : string) : option (list Z) :=
  match s with
  | EmptyString => Some []
  | String c0 (String c1 (String c2 (String c3 s'))) =>
      match dec c0, dec c1 with
      | Some v0, Some v1 =>
          if Ascii.eqb c2 "=" then
            if Ascii.eqb c3 "=" && String.eqb s' ""
            then Some [octet (quantum v0 v1 0 0) 16]
            else None
          else
            match dec c2 with
            | Some v2 =>
                if Ascii.eqb c3 "=" then
                  if String.eqb s' ""
                  then Some [octet (quantum v0 v1 v2 0) 16;
                             octet (quantum v0 v1 v2 0) 8]
                  else None
                else
                  match dec c3, decode_groups s' with
                  | Some v3, Some rest =>
                      Some (octet (quantum v0 v1 v2 v3) 16
                            :: octet (quantum v0 v1 v2 v3) 8
                            :: octet (quantum v0 v1 v2 v3) 0 :: rest)
                  | _, _ => None
                  end
            | None => None
            end
      | _, _ => None
      end
  | _ => None
  end.

Fixpoint drop_newlines (s : string) : string :=
  match s with
  | EmptyString => EmptyString
  | String c s' =>
      if Ascii.eqb c "010" then drop_newlines s' else String c (drop_newlines s')
  end.

(** [base64 -d]: line feeds in the input are skipped. *)
Definition base64_d (input : string) : option string :=
  match decode_groups (drop_newlines input) with
  | Some bs => Some (string_of bs)
  | None => None
  end.

Definition words_of (ts : list token) : option (list string) :=
  mapM (fun t => match t with TWord w => Some w | _ => None end) ts.

Fixpoint has_byte (b : ascii) (s : string) : bool :=
  match s with
  | EmptyString => false
  | String c s' => Ascii.eqb c b || has_byte b s'
  end.

(** The files of the VM: folders and regular files, each at the place given
    by the names that lead to it from the root.  The root is a folder. *)
Inductive Node :=
| Folder
| File (content : string).

Abbreviation Tree := (gmap (list string) Node).

(** The longest name, and the length that a path must stay under. *)
Definition NAME_MAX : Z := 255.
Definition PATH_MAX : Z := 4096.

Definition is_folder (files : Tree) (place : list string) : bool :=
  match place with
  | [] => true
  | _ :: _ => match files !! place with Some Folder => true | _ => false end
  end.

(** A relative path starts at the home of [root], or at the root when there
    is no such folder. *)
Definition home (files : Tree) : list string :=
  if is_folder files ["root"] then ["root"] else [].

Definition start_of (files : Tree) (path : string) : list string :=
  if String.prefix "/" path then [] else home files.

(** An empty element of a path and [.] stay where they are. *)
Definition stays (name : string) : bool :=
  String.eqb name "" || String.eqb name ".".

(** Path resolution: from [place] through the folders [names], each of which
    has to exist; [..] leads to the folder above, and stays at the root. *)
Fixpoint walk (files : Tree) (place names : list string)
  : option (list string) :=
  match names with
  | [] => Some place
  | name :: rest =>
      if stays name then walk files place rest
      else if String.eqb name ".." then walk files (removelast place) rest
      else if NAME_MAX <? Z.of_nat (String.length name) then None
      else if is_folder files (place ++ [name]) then
        walk files (place ++ [name]) rest
      else None
  end.

(** [mkdir -p]: the same way, making the folders that are missing; a regular
    file on the way stops it, with the folders made so far left behind. *)
Fixpoint make (files : Tree) (place names : list string) : Tree * bool :=
  match names with
  | [] => (files, true)
  | name :: rest =>
      if stays name then make files place rest
      else if String.eqb name ".." then make files (removelast place) rest
      else if NAME_MAX <? Z.of_nat (String.length name) then (files, false)
      else
        match files !! (place ++ [name]) with
        | Some (File _) => (files, false)
        | Some Folder => make files (place ++ [name]) rest
        | None =>
            make (<[place ++ [name] := Folder]> files) (place ++ [name]) rest
        end
  end.

Definition mkdir_p (files : Tree) (dir : string) : Tree * bool :=
  if String.eqb dir "" then (files, false)
  else make files (start_of files dir) (strings.Split dir "/").

(** The place that a path names as a file: the folders before its last
    element have to exist, and the last element has to be a name (a path
    that ends in a separator, in [.] or in [..] names a folder). *)
Definition place_of (files : Tree) (path : string) : option (list string) :=
  if String.eqb path "" then None
  else if PATH_MAX <=? Z.of_nat (String.length path) then None
  else
    let names := strings.Split path "/" in
    let name := List.last names "" in
    if stays name || String.eqb name ".." then None
    else if NAME_MAX <? Z.of_nat (String.length name) then None
    else
      match walk files (start_of files path) (removelast names) with
      | Some dir => Some (dir ++ [name])
      | None => None
      end.

(** Opening a path for writing, as the redirection [> path] does: the file
    is made, or emptied, and gets the content. *)
Definition store (files : Tree) (path content : string) : option Tree :=
  match place_of files path with
  | Some place =>
      match files !! place with
      | Some Folder => None
      | _ => Some (<[place := File content]> files)
      end
  | None => None
  end.

(** Reading the regular file at a path. *)
Definition fetch (files : Tree) (path : string) : option string :=
  match place_of files path with
  | Some place =>
      match files !! place with
      | Some (File content) => Some content
      | _ => None
      end
  | None => None
  end.

(** How a command ends on the VM. *)
Inductive Ran :=
| Exited (code : Z) (out : string) (files : Tree)
| Never.

(** A word that a command takes as an option, and a word that [echo] may
    not print as it is. *)
Definition option_like (w : string) : bool := String.prefix "-" w.
Definition echoed (w : string) : bool :=
  negb (option_like w) && negb (has_byte "\"%char w).

(** The commands of the guest that the model knows, with the operands that
    it knows; what [echo] prints goes to stdout, with a line feed.  [cat -]
    reads the standard input, which is empty. *)
Definition builtin (c : string) (args : list string) (files : Tree) : Ran :=
  let unknown := Exited 127 "" files in
  if String.eqb c "mkdir" then
    match args with
    | [o; d] =>
        if String.eqb o "-p" && negb (option_like d) then
          let '(files', made) := mkdir_p files d in
          Exited (if made then 0 else 1) "" files'
        else unknown
    | _ => unknown
    end
  else if String.eqb c "cat" then
    match args with
    | [p] =>
        if String.eqb p "-" then Exited 0 "" files
        else if option_like p then unknown
        else
          match fetch files p with
          | Some content => Exited 0 content files
          | None => Exited 1 "" files
          end
    | _ => unknown
    end
  else if String.eqb c "echo" then
    if forallb echoed args then Exited 0 (strings.Join args " " +:+ nl) files
    else unknown
  else if String.eqb c "true" then Exited 0 "" files
  else if String.eqb c "false" then Exited 1 "" files
  else if String.eqb c "sync" then
    match args with
    | [] => Exited 0 "" files
    | _ => unknown
    end
  else if String.eqb c "sleep" then
    match args with
    | [t] => if String.eqb t "infinity" then Never else unknown
    | _ => unknown
    end
  else unknown.

(** One command line.  In [echo w | base64 -d > p] the redirection comes
    first: when [p] cannot be opened nothing is run and the status is 1;
    otherwise the file gets what [base64 -d] makes of the word.  A line of
    plain words is a command with its arguments. *)
Definition run (files : Tree) (command : string) : Ran :=
  match lex false None command with
  | None => Exited 2 "" files
  | Some [TWord e; TWord w; TPipe; TWord b; TWord d; TGreat; TWord p] =>
      if String.eqb e "echo" && echoed w
         && String.eqb b "base64" && String.eqb d "-d"
      then match base64_d (w +:+ nl) with
           | Some content =>
               match store files p content with
               | Some files' => Exited 0 "" files'
               | None => Exited 1 "" files
               end
           | None =>
               match store files p "" with
               | Some files' => Exited 1 "" files'
               | None => Exited 1 "" files
               end
           end
      else Exited 2 "" files
  | Some ts =>
      match words_of ts with
      | Some (c :: args) => builtin c args files
      | _ => Exited 2 "" files
      end
  end.

(** The VM answers on SSH and runs commands, or refuses the connection, or
    accepts commands that then never finish.  (The model does not look at
    the key file or at the host that the arguments of [ssh] name.) *)
Inductive VMState := Up | Down | Stalled.

(** The state of the simulated world. *)
Record Sim := mkSim {
  sim_tmp : string;                  (* what [os.TempDir()] returns *)
  sim_local : gmap string string;    (* the files of the local machine *)
  sim_keys : gmap string string;     (* the private key the API has per VM *)
  sim_vm : VMState;                  (* how the VM behaves on SSH *)
  sim_remote : Tree;                 (* the files of the VM *)
  sim_commits : list (string * bool) (* the commits made so far *)
}.

Definition set_local (f : gmap string string -> gmap string string) (w : Sim)
  : Sim :=
  mkSim (sim_tmp w) (f (sim_local w)) (sim_keys w) (sim_vm w) (sim_remote w)
    (sim_commits w).
Definition set_remote (files : Tree) (w : Sim) : Sim :=
  mkSim (sim_tmp w) (sim_local w) (sim_keys w) (sim_vm w) files (sim_commits w).

(** [execve] takes no argument with a NUL byte in it (Go finds that before
    the call) and, with pages of 4 KiB, none of 128 KiB or more. *)
Definition MAX_ARG_STRLEN : Z := 131072.

Definition start_error (args : list string) : option error :=
  if existsb (has_byte "000"%char) args then
    Some (Errorf "fork/exec /usr/bin/ssh: invalid argument")
  else if existsb (fun a => MAX_ARG_STRLEN <=? Z.of_nat (String.length a)) args
  then Some (Errorf "fork/exec /usr/bin/ssh: argument list too long")
  else None.

(** Every command takes a millisecond on a VM that is up; the connection to
    a VM that is down fails after a second; on a stalled VM nothing ever
    exits. *)
Definition stalled : Proc := mkProc None None (fun _ => "") "" None 0.

Definition spawn (args : list string) (w : Sim) : Proc :=
  match start_error args with
  | Some err => mkProc (Some err) None (fun _ => "") "" None (-1)
  | None =>
      match sim_vm w with
      | Up =>
          match run (sim_remote w) (List.last args "") with
          | Exited code out _ =>
              mkProc None (Some 1000000%N)
                (fun t => if t <? 1000000 then "" else out) ""
                (if code =? 0 then None
                 else Some (Errorf ("exit status " +:+ pretty code))) code
          | Never => stalled
          end
      | Down =>
          mkProc None (Some 1000000000%N) (fun _ => "") "ssh: connection refused"
            (Some (Errorf "exit status 255")) 255
      | Stalled => stalled
      end
  end.

Definition finish (args : list string) (killed : option Z) (w : Sim) : Sim :=
  match killed, sim_vm w, run (sim_remote w) (List.last args "") with
  | None, Up, Exited _ _ files => set_remote files w
  | _, _, _ => w
  end.

#[global] Instance world : World Sim := {|
  os_TempDir := sim_tmp;
  os_MkdirAll := fun _ w => (None, w);
  os_WriteFile := fun path content w =>
    (None, set_local (fun fs => <[path := content]> fs) w);
  os_ReadFile := fun path w =>
    match sim_local w !! path with
    | Some content => Ok content
    | None => Err (Errorf ("open " +:+ path +:+ ": no such file or directory"))
    end;
  os_Remove := fun path w => set_local (fun fs => delete path fs) w;
  api_GetSSHKey := fun vmID w =>
    (match sim_keys w !! vmID with
     | Some key => Ok key
     | None =>
         Err (Errorf ("Vers API GET /vm/" +:+ vmID +:+ "/ssh_key returned 404: "))
     end, w);
  api_CommitVM := fun vmID keepPaused w =>
    (Ok ("commit-" +:+ pretty (length (sim_commits w))),
     mkSim (sim_tmp w) (sim_local w) (sim_keys w) (sim_vm w) (sim_remote w)
       (sim_commits w ++ [(vmID, keepPaused)]));
  ssh_spawn := spawn;
  ssh_done := finish
|}.

(** A world with one VM [vm] in the given state, whose only folder besides
    the root is the home of [root], and nothing else. *)
Definition fresh (vm : string) (state : VMState) : St Sim :=
  mkSt (mkSim "/tmp" ∅ {[vm := "PRIVATE KEY of " +:+ vm]} state
          {[ ["root"] := Folder ]} []) 0 [].

End sim.

(** ** Vocabulary of the statements *)

(** The configuration error of [Create] for the file block at [position]
    (counted from one). *)
Definition config_error (position : nat) : Diagnostic :=
  AddError ("File block " +:+ pretty position
              +:+ ": either 'source' or 'content' must be specified")
    "Each file block requires either a 'source' (local file path) or 'content' (inline string).".

Section Probes.
Context {W : Type} {world : World W}.

(** [failed_probes s deadline st k lastErr st']: the loop of
    [WaitReachable], entered in state [st], has made [k] probes, each
    started before the deadline, each failed (an error, or an output other
    than "ready") and followed by its sleep; it is now in state [st'] with
    [lastErr]. *)
Inductive failed_probes (s : client.SSHClient) (deadline : Z) (st : St W)
  : nat -> option error -> St W -> Prop :=
| no_probe_yet : failed_probes s deadline st 0 None st
| one_more_failed k lastErr stk out err st1 :
    failed_probes s deadline st k lastErr stk ->
    st_now stk < deadline ->
    client.ExecWithTimeout s "echo ready" (15 * time.Second) stk
    = Done (out, err) st1 ->
    err <> None \/ strings.TrimSpace out <> "ready" ->
    failed_probes s deadline st (S k) err
      (mkSt (st_world st1) (st_now st1 + 3 * time.Second)
         (st_trace st1 ++ [EvSleep (3 * time.Second)])).

(** The error [WaitReachable] returns when it gives up. *)
Definition unreachable (s : client.SSHClient) (timeout : Z)
  (lastErr : option error) : error :=
  let msg := "VM " +:+ client.VMID s +:+ " not reachable via SSH after "
               +:+ time.Duration_String timeout in
  match lastErr with
  | Some err => wrapf (msg +:+ ": ") err
  | None => Errorf msg
  end.

End Probes.

(** Whether a string holds a path separator. *)
Fixpoint has_separator (s : string) : bool :=
  match s with
  | EmptyString => false
  | String c s' => Ascii.eqb c "/" || has_separator s'
  end.

(** The strings of at most [n] lower-case hexadecimal digits. *)
Fixpoint hex_strings (n : nat) : list string :=
  match n with
  | O => [EmptyString]
  | S n' =>
      EmptyString
      :: flat_map (fun c => map (String c) (hex_strings n'))
           (list_ascii_of_string hex.hextable)
  end.

(** A name that [filepath.Clean] keeps as it is: not empty, not [.] or [..],
    and without a separator. *)
Definition plain_name (name : string) : Prop :=
  has_separator name = false
  /\ String.eqb name "" = false
  /\ String.eqb name "." = false
  /\ String.eqb name ".." = false.

(** A name of a file or a folder of the VM that stands for itself in a
    path: a plain name without a NUL byte and of at most [NAME_MAX] bytes. *)
Definition guest_name (name : string) : Prop :=
  plain_name name
  /\ sim.has_byte "000"%char name = false
  /\ Z.of_nat (String.length name) <= sim.NAME_MAX.

(** The absolute path of the place [names]. *)
Definition path_of (names : list string) : string :=
  "/" +:+ strings.Join names "/".

(** Nothing is in the way of a file at the place [names] under [place]: no
    regular file at a place on the way there, and no folder at the place
    itself. *)
Fixpoint clear (files : sim.Tree) (place names : list string) : bool :=
  match names with
  | [] => false
  | [name] =>
      match files !! (place ++ [name]) with
      | Some sim.Folder => false
      | _ => true
      end
  | name :: rest =>
      match files !! (place ++ [name]) with
      | Some (sim.File _) => false
      | _ => clear files (place ++ [name]) rest
      end
  end.

(** The folders on the way from [place] through [names] are all there. *)
Fixpoint folders (files : sim.Tree) (place names : list string) : Prop :=
  match names with
  | [] => True
  | name :: rest =>
      files !! (place ++ [name]) = Some sim.Folder
      /\ folders files (place ++ [name]) rest
  end.

(** The arguments of the client [s], with or without a command, are such
    that [ssh] can be started with them. *)
Definition fits (s : client.SSHClient) (command : string) : Prop :=
  sim.start_error (client.sshBaseArgs s ++ [command]) = None.

(** The first 64 bits of the SHA-256 of what is hashed, as 8 bytes. *)
Definition first64 (input : string) : list Z :=
  firstn 8 (sha256.Sum256 (bytes_of input)).

(** ** Inputs of the examples *)

(** A declaration with the one command [c]. *)
Definition plan_command (c : string) : ProvisionResource.ProvisionResourceModel :=
  ProvisionResource.mkModel types.Unknown (types.Known "vm-1") types.Null
    (types.Known [c]) types.Null.

(** A declaration with the triggers [m]. *)
Definition plan_triggers (m : list (string * types.String))
  : ProvisionResource.ProvisionResourceModel :=
  ProvisionResource.mkModel types.Unknown (types.Known "vm-1") types.Null
    (types.Known ["true"]) (types.Known m).


(** A declaration with one file block that has neither a source nor a
    content, and one with a block that has both. *)
Definition plan_neither : ProvisionResource.ProvisionResourceModel :=
  ProvisionResource.mkModel types.Unknown (types.Known "vm-1")
    (types.Known [ProvisionResource.mkFileBlock types.Null types.Null
                    (types.Known "/tmp/a.sh")])
    (types.Known ["true"]) types.Null.

Definition plan_both : ProvisionResource.ProvisionResourceModel :=
  ProvisionResource.mkModel types.Unknown (types.Known "vm-1")
    (types.Known [ProvisionResource.mkFileBlock (types.Known "/src/a.sh")
                    (types.Known "echo hi") (types.Known "/tmp/a.sh")])
    (types.Known ["true"]) types.Null.


Definition vm1 : client.SSHClient :=
  client.mkSSHClient "/tmp/vers-tf-ssh-keys/vers-vm-1.pem" "vm-1" "vm-1.vm.vers.sh".

(** The world of [sim.fresh] with a local file. *)
Definition with_local (path content : string) (st : St sim.Sim) : St sim.Sim :=
  mkSt (sim.set_local (fun fs => <[path := content]> fs) (st_world st))
    (st_now st) (st_trace st).

(** ** Settings for the proofs *)

Arguments client.sshBaseArgs : simpl never.
Arguments time.Duration_String : simpl never.
Arguments pretty : simpl never.

(** The powers of two of the base64 groups, as numbers. *)
Ltac pow2 :=
  change (2 ^ 18) with 262144 in *; change (2 ^ 12) with 4096 in *;
  change (2 ^ 6) with 64 in *; change (2 ^ 0) with 1 in *;
  change (2 ^ 16) with 65536 in *; change (2 ^ 8) with 256 in *.

(** * The rest of the transport and of the resources

    What follows extends the development beyond the properties of the
    specification: the shape of whole runs of the provisioning resource, the
    plan modifier of [vers_provision], and the VM life cycle (part of the API
    client, and the resource that restores a VM from a commit). *)

(** ** Vocabulary for whole runs *)

(** The state in which a call ends, whether it returns or blocks. *)
Definition state_of {W A : Type} (o : Outcome W A) : St W :=
  match o with
  | Done _ s => s
  | Hang s => s
  end.

(** The events of the transport of one SSH client: its [ssh] processes, each
    with the base arguments of the client and one command, the sleeps
    between probes, and lines in the log. *)
Definition of_client (ssh : client.SSHClient) (e : Event) : Prop :=
  match e with
  | EvSSH args | EvKill args =>
      exists command, args = client.sshBaseArgs ssh ++ [command]
  | EvSleep _ | EvLog _ _ => True
  | _ => False
  end.

(** The events that touch the local file system. *)
Definition is_local (e : Event) : bool :=
  match e with
  | EvMkdirAll _ | EvWriteFile _ _ | EvRemove _ => true
  | _ => false
  end.

Section Runs.
Context {W : Type} {world : World W}.

(** [adds P m]: wherever [m] is run, and whether it returns or not, it
    extends the trace, and only by events that satisfy [P]. *)
Definition adds {A : Type} (P : Event -> Prop) (m : M W A) : Prop :=
  forall st, exists evs,
    st_trace (state_of (m st)) = st_trace st ++ evs /\ Forall P evs.

End Runs.

(** What [Create] and [Update] of [vers_provision] have in common: the line
    in the log, the request for the SSH key, the creation of the client, and
    the deferred [ssh.Cleanup()] around what they do with the client. *)
Definition with_client {W : Type} {world : World W} (line vmID : string)
  (body : client.SSHClient -> M W ProvisionResource.Response)
  : M W ProvisionResource.Response :=
  tflog Info line ;;;
  r <- GetSSHKey vmID ;;
  match r with
  | Err err =>
      ret (ProvisionResource.failed "Failed to get SSH key for VM" (Error err))
  | Ok sshKey =>
      r <- client.NewSSHClient vmID sshKey ;;
      match r with
      | Err err =>
          ret (ProvisionResource.failed "Failed to create SSH client" (Error err))
      | Ok ssh =>
          resp <- body ssh ;;
          client.Cleanup ssh ;;;
          ret resp
      end
  end.

Section Responses.
Context {W : Type} {world : World W}.
Import ProvisionResource.

(** A response is all or nothing: one error and no state, or no diagnostic
    and the declaration with its fingerprint as the new state, after every
    command was run. *)
Definition all_or_nothing (ssh : client.SSHClient) (plan : ProvisionResourceModel)
  (resp : Response) (w : W) (evs : list Event) : Prop :=
  (State resp = None
   /\ exists d, Diagnostics resp = [d] /\ is_error d = true)
  \/ (Diagnostics resp = []
      /\ State resp = Some (with_ID plan (computeID plan w))
      /\ exists before,
           started evs
           = before ++ map (fun c => client.sshBaseArgs ssh ++ [c])
                         (types.elements (Commands plan))).

End Responses.

(** ** The plan modifier of [vers_provision] (provision.go) *)

(** The loop of [triggersEqual] over the elements of [a]: every key must be
    in [b] with the same value string. *)
Fixpoint triggersEqual_loop (aElems bElems : list (string * types.String))
  : bool :=
  match aElems with
  | [] => true
  | (k, av) :: rest =>
      match types.lookup k bElems with
      | None => false
      | Some bv =>
          if negb (String.eqb (types.ValueString av) (types.ValueString bv))
          then false
          else triggersEqual_loop rest bElems
      end
  end.

(** [triggersEqual] *)
Definition triggersEqual (a b : types.Map) : bool :=
  if types.IsNull a && types.IsNull b then true
  else if types.IsNull a || types.IsNull b then false
  else
    let aElems := types.elements a in
    let bElems := types.elements b in
    if negb (length aElems =? length bElems)%nat then false
    else triggersEqual_loop aElems bElems.

(** What [ModifyPlan] can change in its response: the planned values and
    the attributes that require the resource to be replaced. *)
Record ModifyPlanResponse := mkModifyPlanResponse {
  Plan : option ProvisionResource.ProvisionResourceModel;
  RequiresReplace : list string
}.

(** [resp.Plan.SetAttribute(ctx, path.Root("id"), types.StringUnknown())] *)
Definition set_id_unknown (plan : ProvisionResource.ProvisionResourceModel)
  : ProvisionResource.ProvisionResourceModel :=
  ProvisionResource.mkModel types.Unknown (ProvisionResource.VMID plan)
    (ProvisionResource.Files plan) (ProvisionResource.Commands plan)
    (ProvisionResource.Triggers plan).

(** [ModifyPlan]: [state] and [plan] are the state and the plan of the
    request, absent when their raw value is null (on creation there is no
    state, on destruction no plan); [resp] is the response as the framework
    hands it over. *)
Definition ModifyPlan (state plan : option ProvisionResource.ProvisionResourceModel)
  (resp : ModifyPlanResponse) : ModifyPlanResponse :=
  match state, plan with
  | Some stateModel, Some planModel =>
      if negb (triggersEqual (ProvisionResource.Triggers planModel)
                 (ProvisionResource.Triggers stateModel))
      then mkModifyPlanResponse (option_map set_id_unknown (Plan resp))
             (RequiresReplace resp ++ ["id"])
      else resp
  | _, _ => resp
  end.

(** The value string a map has for a key, if it has the key. *)
Definition value_at (k : string) (m : types.Map) : option string :=
  option_map types.ValueString (types.lookup k (types.elements m)).

(** The keys of a map are distinct. *)
Definition distinct_keys (m : types.Map) : Prop :=
  List.NoDup (map fst (types.elements m)).

(** ** The VM life cycle: the API client (client.go)

    The requests of the client go to the Vers API over HTTP.  As for the
    SSH key and the commit above, what the API answers is left to the world;
    the functions of the client that do more than one request and decode its
    answer are embedded in full.  The calls of this part take time on the
    clock; they are not recorded in the trace. *)

Module api.

(** [VM]: a Vers virtual machine, as the API lists it. *)
Record VM := mkVM {
  VMID : string;
  OwnerID : string;
  State : string;
  CreatedAt : string
}.

End api.

(** What the world answers to the requests of the life cycle, and how long
    each request took, in nanoseconds. *)
Class Lifecycle (W : Type) := {
  api_ListVMs : W -> result (list api.VM) * N * W;
  api_RestoreVM : string -> W -> result string * N * W;
  api_DeleteVM : string -> W -> option error * N * W
}.

Section Requests.
Context {W : Type} {world : World W} {lifecycle : Lifecycle W}.

(** One request and its answer: the world answers, changes, and time
    passes. *)
Definition round_trip {A : Type} (f : W -> A * N * W) : M W A :=
  fun s => let '(a, d, w) := f (st_world s) in
           Done a (mkSt w (st_now s + Z.of_N d) (st_trace s)).

Definition ListVMs : M W (result (list api.VM)) := round_trip api_ListVMs.
Definition RestoreVM (commitID : string) : M W (result string) :=
  round_trip (api_RestoreVM commitID).
Definition DeleteVM (vmID : string) : M W (option error) :=
  round_trip (api_DeleteVM vmID).

(** [GetVM]: the first VM of the list with this identifier, or nil. *)
Definition GetVM (vmID : string) : M W (result (option api.VM)) :=
  r <- ListVMs ;;
  match r with
  | Err err => ret (Err err)
  | Ok vms => ret (Ok (List.find (fun vm => String.eqb (api.VMID vm) vmID) vms))
  end.

(** The loop of [WaitForBoot].  A turn that does not return takes at least
    the two seconds of its sleep, so [n] turns are enough when the deadline
    is less than [2 * n] seconds away; [Hang] stands for more turns than
    [n]. *)
Fixpoint WaitForBoot_loop (n : nat) (vmID : string) (timeout deadline : Z)
  : M W (option error) :=
  now <- time_Now ;;
  if now <? deadline then
    match n with
    | O => fun st => Hang st
    | S n' =>
        r <- GetVM vmID ;;
        match r with
        | Err err => ret (Some err)
        | Ok vm =>
            if match vm with
               | Some vm => String.eqb (api.State vm) "running"
               | None => false
               end
            then ret None
            else
              time_Sleep (2 * time.Second) ;;;
              WaitForBoot_loop n' vmID timeout deadline
        end
    end
  else
    ret (Some (Errorf ("VM " +:+ vmID +:+ " did not reach running state within "
                         +:+ time.Duration_String timeout))).

Definition WaitForBoot_turns (timeout : Z) : nat :=
  (Z.to_nat (timeout / (2 * time.Second)) + 1)%nat.

(** [WaitForBoot] *)
Definition WaitForBoot (vmID : string) (timeout : Z) : M W (option error) :=
  now <- time_Now ;;
  WaitForBoot_loop (WaitForBoot_turns timeout) vmID timeout (now + timeout).

End Requests.

(** ** Package [resources]: [vers_vm_restore] (vm_restore.go), and [Read]
    and [Delete] of [vers_provision] *)

Definition AddWarning (summary detail : string) : Diagnostic :=
  mkDiag SeverityWarning summary detail.

(** What a call does to the state of the response: nothing, [State.Set], or
    [State.RemoveResource]. *)
Inductive StateChange (A : Type) :=
| Untouched
| Set_ (a : A)
| Removed.
Arguments Untouched {A}.
Arguments Set_ {A} a.
Arguments Removed {A}.

Module VMRestoreResource.

Import types.

Record VMRestoreResourceModel := mkModel {
  ID : types.String;
  CommitID : types.String;
  State : types.String;
  SSHHost : types.String;
  SSHPrivateKey : types.String;
  CreatedAt : types.String
}.

Record Response := mkResponse {
  Diagnostics : list Diagnostic;
  NewState : StateChange VMRestoreResourceModel
}.

Section WithWorld.
Context {W : Type} {world : World W} {lifecycle : Lifecycle W}.

(** [Create] *)
Definition Create (plan : VMRestoreResourceModel) : M W Response :=
  let commitID := ValueString (CommitID plan) in
  tflog Debug "Restoring VM from commit" ;;;
  r <- RestoreVM commitID ;;
  match r with
  | Err err =>
      ret (mkResponse [AddError "Failed to restore VM from commit" (Error err)]
             Untouched)
  | Ok vmID =>
      let id := Known vmID in
      let host := Known (vmID +:+ ".vm.vers.sh") in
      e <- WaitForBoot vmID (3 * time.Minute) ;;
      let booted :=
        match e with
        | Some err =>
            [AddWarning "VM restored but may not be fully booted" (Error err)]
        | None => []
        end in
      r <- GetVM vmID ;;
      let '(read, state, createdAt) :=
        match r with
        | Err err =>
            ([AddWarning "Failed to read restored VM state" (Error err)],
             Known "unknown", CreatedAt plan)
        | Ok (Some vm) => ([], Known (api.State vm), Known (api.CreatedAt vm))
        | Ok None => ([], State plan, CreatedAt plan)
        end in
      r <- GetSSHKey vmID ;;
      let '(fetched, key) :=
        match r with
        | Err err =>
            ([AddWarning "Failed to fetch SSH key for restored VM" (Error err)],
             Known "")
        | Ok sshKey => ([], Known sshKey)
        end in
      ret (mkResponse (booted ++ read ++ fetched)
             (Set_ (mkModel id (CommitID plan) state host key createdAt)))
  end.

(** [Read] *)
Definition Read (state : VMRestoreResourceModel) : M W Response :=
  r <- GetVM (ValueString (ID state)) ;;
  match r with
  | Err err =>
      ret (mkResponse [AddError "Failed to read restored VM" (Error err)] Untouched)
  | Ok None => ret (mkResponse [] Removed)
  | Ok (Some vm) =>
      ret (mkResponse []
             (Set_ (mkModel (ID state) (CommitID state) (Known (api.State vm))
                      (Known (api.VMID vm +:+ ".vm.vers.sh"))
                      (SSHPrivateKey state) (Known (api.CreatedAt vm)))))
  end.

(** [Update]: the state is written back as it is. *)
Definition Update (state : VMRestoreResourceModel) : M W Response :=
  ret (mkResponse [] (Set_ state)).

(** [Delete] *)
Definition Delete (state : VMRestoreResourceModel) : M W Response :=
  tflog Debug "Deleting restored Vers VM" ;;;
  e <- DeleteVM (ValueString (ID state)) ;;
  match e with
  | Some err =>
      ret (mkResponse [AddError "Failed to delete restored VM" (Error err)] Untouched)
  | None => ret (mkResponse [] Untouched)
  end.

End WithWorld.

End VMRestoreResource.

Module ProvisionRead.

Import types.

Record Response := mkResponse {
  Diagnostics : list Diagnostic;
  NewState : StateChange ProvisionResource.ProvisionResourceModel
}.

Section WithWorld.
Context {W : Type} {world : World W} {lifecycle : Lifecycle W}.

(** [ProvisionResource.Read]: nothing is refreshed; the resource is dropped
    when its VM is gone. *)
Definition Read (state : ProvisionResource.ProvisionResourceModel) : M W Response :=
  r <- GetVM (ValueString (ProvisionResource.VMID state)) ;;
  match r with
  | Err err =>
      ret (mkResponse [AddError "Failed to verify VM exists" (Error err)] Untouched)
  | Ok None => ret (mkResponse [] Removed)
  | Ok (Some _) => ret (mkResponse [] (Set_ state))
  end.

(** [ProvisionResource.Delete]: a line in the log. *)
Definition Delete (state : ProvisionResource.ProvisionResourceModel) : M W Response :=
  tflog Debug "Removing provision resource from state" ;;;
  ret (mkResponse [] Untouched).

End WithWorld.

End ProvisionRead.

(** ** The life cycle in the simulated world

    Every VM that has a key is listed, in the state that the world gives to
    all VMs; a commit that was made can be restored to a new VM; every
    request takes 50 milliseconds. *)

Module sim_api.

Definition state_name (s : sim.VMState) : string :=
  match s with
  | sim.Up => "running"
  | sim.Down => "paused"
  | sim.Stalled => "booting"
  end.

Definition list_vms (w : sim.Sim) : list api.VM :=
  map (fun kv : string * string =>
         api.mkVM (fst kv) "owner" (state_name (sim.sim_vm w)) "2026-01-01T00:00:00Z")
    (map_to_list (sim.sim_keys w)).

Definition is_commit (commitID : string) (w : sim.Sim) : bool :=
  existsb (fun i => String.eqb commitID ("commit-" +:+ pretty i))
    (seq 0 (length (sim.sim_commits w))).

Definition set_keys (f : gmap string string -> gmap string string) (w : sim.Sim)
  : sim.Sim :=
  sim.mkSim (sim.sim_tmp w) (sim.sim_local w) (f (sim.sim_keys w)) (sim.sim_vm w)
    (sim.sim_remote w) (sim.sim_commits w).

Definition took : N := 50000000.

#[global] Instance lifecycle : Lifecycle sim.Sim := {|
  api_ListVMs := fun w => (Ok (list_vms w), took, w);
  api_RestoreVM := fun commitID w =>
    if is_commit commitID w then
      let vmID := "vm-of-" +:+ commitID in
      (Ok vmID, took, set_keys (fun ks => <[vmID := "PRIVATE KEY of " +:+ vmID]> ks) w)
    else (Err (Errorf "Vers API POST /vm/from_commit returned 404: "), took, w);
  api_DeleteVM := fun vmID w =>
    match sim.sim_keys w !! vmID with
    | Some _ => (None, took, set_keys (fun ks => delete vmID ks) w)
    | None =>
        (Some (Errorf ("Vers API DELETE /vm/" +:+ vmID +:+ " returned 404: ")),
         took, w)
    end
|}.

End sim_api.

(** The turns of [WaitForBoot] that end in its sleep.
    [still_booting vmID deadline st k stk]: the loop, entered in state [st],
    has made [k] requests, each started before the deadline and each
    answered with a list in which the VM is missing or not running, and has
    slept after each; it is now in state [stk]. *)
Section Booting.
Context {W : Type} {world : World W} {lifecycle : Lifecycle W}.

Definition running (vm : option api.VM) : bool :=
  match vm with
  | Some vm => String.eqb (api.State vm) "running"
  | None => false
  end.

Inductive still_booting (vmID : string) (deadline : Z) (st : St W)
  : nat -> St W -> Prop :=
| no_request_yet : still_booting vmID deadline st 0 st
| one_more_request k stk vm st1 :
    still_booting vmID deadline st k stk ->
    st_now stk < deadline ->
    GetVM vmID stk = Done (Ok vm) st1 ->
    running vm = false ->
    still_booting vmID deadline st (S k)
      (mkSt (st_world st1) (st_now st1 + 2 * time.Second)
         (st_trace st1 ++ [EvSleep (2 * time.Second)])).

(** The error of [WaitForBoot] when the deadline has passed. *)
Definition not_running (vmID : string) (timeout : Z) : error :=
  Errorf ("VM " +:+ vmID +:+ " did not reach running state within "
            +:+ time.Duration_String timeout).

End Booting.

(** ** Vocabulary for the comparison of [Create] and [Update] *)

Definition is_log (e : Event) : bool :=
  match e with
  | EvLog _ _ => true
  | _ => false
  end.

(** A trace without its log lines. *)
Definition unlogged (evs : list Event) : list Event :=
  List.filter (fun e => negb (is_log e)) evs.

Section Alike.
Context {W : Type} {world : World W}.

(** Two states with the same world and the same clock, whose traces differ
    in the log at most. *)
Definition same_but_log (s1 s2 : St W) : Prop :=
  st_world s1 = st_world s2
  /\ st_now s1 = st_now s2
  /\ unlogged (st_trace s1) = unlogged (st_trace s2).

(** Two outcomes: both calls return, with results related by [Q], or both
    block; in states that are the same but for the log. *)
Definition alike_outcomes {A B : Type} (Q : A -> B -> Prop)
  (o1 : Outcome W A) (o2 : Outcome W B) : Prop :=
  match o1, o2 with
  | Done a s1, Done b s2 => Q a b /\ same_but_log s1 s2
  | Hang s1, Hang s2 => same_but_log s1 s2
  | _, _ => False
  end.

(** Two pieces of code that do the same but for the log, from states that
    are the same but for the log. *)
Definition alike {A B : Type} (Q : A -> B -> Prop) (m1 : M W A) (m2 : M W B)
  : Prop :=
  forall s1 s2, same_but_log s1 s2 -> alike_outcomes Q (m1 s1) (m2 s2).

End Alike.

(** Two diagnostics of the same severity with the same detail, and two
    responses with such diagnostics and the same state. *)
Definition same_finding (d1 d2 : Diagnostic) : Prop :=
  diag_severity d1 = diag_severity d2 /\ diag_detail d1 = diag_detail d2.

Definition same_result (r1 r2 : ProvisionResource.Response) : Prop :=
  Forall2 same_finding (ProvisionResource.Diagnostics r1)
    (ProvisionResource.Diagnostics r2)
  /\ ProvisionResource.State r1 = ProvisionResource.State r2.

(** ** Vocabulary for the time a run takes *)

Section Durations.
Context {W : Type} {world : World W}.

(** [within d m]: wherever [m] is run it returns, not before it was called
    and at most [d] later. *)
Definition within {A : Type} (d : Z) (m : M W A) : Prop :=
  forall st, exists a st',
    m st = Done a st' /\ st_now st <= st_now st' <= st_now st + d.

End Durations.

(** ** Checks of the library models against known values *)

Example sha256_constants :
  (nth 0 sha256.K 0, nth 63 sha256.K 0, nth 0 sha256.H0 0, nth 7 sha256.H0 0)
  = (0x428a2f98, 0xc67178f2, 0x6a09e667, 0x5be0cd19).
Proof. vm_compute. reflexivity. Qed.

Example sha256_abc :
  hex.EncodeToString (sha256.Sum256 (bytes_of "abc"))
  = "ba7816bf8f01cfea414140de5dae2223b00361a396177a9cb410ff61f20015ad".
Proof. vm_compute. reflexivity. Qed.

Example sha256_empty :
  hex.EncodeToString (sha256.Sum256 (bytes_of ""))
  = "e3b0c44298fc1c149afbf4c8996fb92427ae41e4649b934ca495991b7852b855".
Proof. vm_compute. reflexivity. Qed.

Example sha256_two_blocks :
  hex.EncodeToString (sha256.Sum256 (bytes_of
    "abcdbcdecdefdefgefghfghighijhijkijkljklmklmnlmnomnopnopq"))
  = "248d6a61d20638b8e5c026930c3e6039a33ce45964ff2167f6ecedd419db06c1".
Proof. vm_compute. reflexivity. Qed.

Example Clean_examples :
  map filepath.Clean ["a/b/../c"; "/../a"; ""; "a//b/"; "../../a"; "/"; "/tmp/x/./y"]
  = ["a/c"; "/a"; "."; "a/b"; "../../a"; "/"; "/tmp/x/y"].
Proof. vm_compute. reflexivity. Qed.

Example Dir_examples :
  map filepath.Dir ["/tmp/a.sh"; "a.sh"; "/a.sh"; "/opt/app/bin/run"; "x/"; ""]
  = ["/tmp"; "."; "/"; "/opt/app/bin"; "x"; "."].
Proof. vm_compute. reflexivity. Qed.

Example Join_examples :
  map filepath.Join [["/tmp"; "vers-tf-ssh-keys"]; [""; "a"; "b"]; ["/tmp/k"; "vers-a/../b.pem"]]
  = ["/tmp/vers-tf-ssh-keys"; "a/b"; "/tmp/k/b.pem"].
Proof. vm_compute. reflexivity. Qed.

Example base64_examples :
  map base64.EncodeToString [""; "f"; "fo"; "foo"; "foob"; "fooba"; "foobar"]
  = [""; "Zg=="; "Zm8="; "Zm9v"; "Zm9vYg=="; "Zm9vYmE="; "Zm9vYmFy"].
Proof. vm_compute. reflexivity. Qed.

Example Duration_examples :
  map time.Duration_String [15 * time.Second; 3 * time.Minute; 10 * time.Minute;
                   2 * time.Minute; 1500 * time.Millisecond; 0; 3600 * time.Second; 250 * time.Millisecond]
  = ["15s"; "3m0s"; "10m0s"; "2m0s"; "1.5s"; "0s"; "1h0m0s"; "250ms"].
Proof. vm_compute. reflexivity. Qed.

Example TrimSpace_examples :
  strings.TrimSpace ("ready" +:+ nl) = "ready"
  /\ strings.TrimSpace
       (" " +:+ strings.utf8 [226; 128; 130]%nat +:+ "ready"
        +:+ strings.utf8 [194; 160; 10; 227; 128; 128]%nat) = "ready"
  /\ strings.TrimSpace (strings.utf8 [128; 32; 114; 32; 226; 128]%nat)
     = strings.utf8 [128; 32; 114; 32; 226; 128]%nat
  /\ length strings.spaces = 25%nat.
Proof. vm_compute. repeat split. Qed.

(** ** Strings *)

Lemma str_app_cons (c : ascii) (a b : string) :
  String c a +:+ b = String c (a +:+ b).
Proof. reflexivity. Qed.

Lemma str_app_nil_l (b : string) : "" +:+ b = b.
Proof. reflexivity. Qed.

Lemma str_length_app (a b : string) :
  String.length (a +:+ b) = (String.length a + String.length b)%nat.
Proof.
  induction a; [reflexivity|]. rewrite str_app_cons. simpl. now rewrite IHa.
Qed.

Lemma str_app_nil_r (a : string) : a +:+ "" = a.
Proof. induction a; [reflexivity|]. rewrite str_app_cons. now rewrite IHa. Qed.

Lemma str_app_assoc (a b c : string) : (a +:+ b) +:+ c = a +:+ (b +:+ c).
Proof. induction a; [reflexivity|]. rewrite !str_app_cons. now rewrite IHa. Qed.

Lemma list_of_app (a b : string) :
  list_ascii_of_string (a +:+ b)
  = list_ascii_of_string a ++ list_ascii_of_string b.
Proof. induction a; [reflexivity|]. rewrite str_app_cons. simpl. now rewrite IHa. Qed.

Lemma list_of_inj (a b : string) :
  list_ascii_of_string a = list_ascii_of_string b -> a = b.
Proof.
  intros H. rewrite <- (string_of_list_ascii_of_string a),
    <- (string_of_list_ascii_of_string b). now rewrite H.
Qed.

(** Appending is cancellative on both sides. *)
Lemma str_app_inv_head (s a b : string) : s +:+ a = s +:+ b -> a = b.
Proof. apply String.app_inj. Qed.

Lemma str_app_inv_tail (s a b : string) : a +:+ s = b +:+ s -> a = b.
Proof.
  intros H. apply list_of_inj. apply (f_equal list_ascii_of_string) in H.
  rewrite !list_of_app in H. now apply app_inv_tail in H.
Qed.

Lemma str_app_not_nil (a b : string) : b <> "" -> a +:+ b <> "".
Proof. destruct a; [auto | discriminate]. Qed.

Lemma length_slice_to (s : string) (n : nat) :
  (String.length (slice_to s n) <= n)%nat.
Proof.
  unfold slice_to. revert s. induction n; intros [|c s]; simpl; try lia.
  specialize (IHn s). lia.
Qed.

(** ** The transport: what [Exec] and [ExecWithTimeout] guarantee *)

Section Transport.
Context {W : Type} {world : World W}.

(** [ExecWithTimeout] always returns, having started one [ssh] process, at
    most [timeout] later. *)
Lemma ExecWithTimeout_returns (s : client.SSHClient) (command : string)
  (timeout : Z) (st : St W) :
  exists out err st' kill,
    client.ExecWithTimeout s command timeout st = Done (out, err) st'
    /\ st_trace st' = st_trace st ++ EvSSH (client.sshBaseArgs s ++ [command]) :: kill
    /\ (kill = [] \/ kill = [EvKill (client.sshBaseArgs s ++ [command])])
    /\ st_now st <= st_now st' <= st_now st + Z.max 0 timeout.
Proof.
  pose proof N2Z.is_nonneg as Hnn.
  unfold client.ExecWithTimeout.
  destruct (proc_start _) as [e|]; [|destruct (proc_exit _) as [d|];
    [specialize (Hnn d); destruct (Z.ltb_spec (Z.of_N d) timeout);
       [destruct (proc_wait _)|]|]].
  1-3: eexists _, _, _, [].
  4-5: eexists _, _, _, [_].
  all: (split; [reflexivity|]); cbn [st_trace st_now]; rewrite <- ?app_assoc;
    (split; [reflexivity|]); (split; [auto|]); lia.
Qed.

(** C6, as amended: [ExecWithTimeout] returns at most [timeout] after it
    was called, whatever the process does; when the process has not exited by
    then, it is killed and the call returns the stdout captured so far with
    the error "SSH command timed out after ...".  [Exec], which [WriteFile]
    and [ReadFile] use for their [mkdir], write and [cat] commands, has no
    timeout: it returns when the process exits, however late, kills nothing,
    and never returns when the process never exits. *)
Theorem C6_timeout_only_in_ExecWithTimeout (s : client.SSHClient)
  (command : string) (timeout : Z) (st : St W) :
  let args := client.sshBaseArgs s ++ [command] in
  let p := ssh_spawn args (st_world st) in
  (exists out err st',
      client.ExecWithTimeout s command timeout st = Done (out, err) st'
      /\ st_now st <= st_now st' <= st_now st + Z.max 0 timeout)
  /\ (proc_start p = None ->
      match proc_exit p with Some d => timeout <= Z.of_N d | None => True end ->
      client.ExecWithTimeout s command timeout st
      = Done (proc_stdout p (Z.max 0 timeout),
              Some (Errorf ("SSH command timed out after "
                              +:+ time.Duration_String timeout)))
          (mkSt (ssh_done args (Some (Z.max 0 timeout)) (st_world st))
             (st_now st + Z.max 0 timeout)
             (st_trace st ++ [EvSSH args; EvKill args]))
      /\ match proc_exit p with
         | Some d =>
             exists r,
               client.Exec s command st
               = Done r (mkSt (ssh_done args None (st_world st))
                           (st_now st + Z.of_N d) (st_trace st ++ [EvSSH args]))
         | None =>
             client.Exec s command st
             = Hang (mkSt (st_world st) (st_now st) (st_trace st ++ [EvSSH args]))
         end).
Proof.
  intros args p. split.
  { destruct (ExecWithTimeout_returns s command timeout st)
      as (out & err & st' & kill & E & _ & _ & Ht).
    eauto. }
  intros Hstart Hexit. unfold client.ExecWithTimeout, client.Exec.
  fold args. fold p. rewrite Hstart.
  destruct (proc_exit p) as [d|].
  - destruct (Z.ltb_spec (Z.of_N d) timeout); [lia|].
    rewrite <- app_assoc. split; [reflexivity|].
    destruct (proc_wait p); eauto.
  - rewrite <- app_assoc. split; reflexivity.
Qed.

End Transport.

Lemma C6_witness :
  let c := client.mkSSHClient "/tmp/vers-tf-ssh-keys/vers-vm-1.pem" "vm-1"
             "vm-1.vm.vers.sh" in
  let st := sim.fresh "vm-1" sim.Stalled in
  exists tr,
    client.ExecWithTimeout c "sync" (2 * time.Minute) st
    = Done ("", Some (Errorf "SSH command timed out after 2m0s"))
        (mkSt (st_world st) 120000000000 tr)
    /\ client.Exec c "sync" st = Hang (mkSt (st_world st) 0 (removelast tr)).
Proof.
  intros c st.
  destruct (C6_timeout_only_in_ExecWithTimeout c "sync" (2 * time.Minute) st)
    as [_ H].
  destruct (H eq_refl I) as [H1 H2].
  eexists. split; [exact H1 | exact H2].
Defined.

(** C6, as stated, fails: the [mkdir] that [WriteFile] sends with [Exec] to
    a VM on which commands never finish is never timed out and never
    killed; [WriteFile] does not return. *)
Lemma C6_counterexample :
  let c := client.mkSSHClient "/tmp/vers-tf-ssh-keys/vers-vm-1.pem" "vm-1"
             "vm-1.vm.vers.sh" in
  let st := sim.fresh "vm-1" sim.Stalled in
  client.WriteFile c "/tmp/a.sh" "echo hi" st
  = Hang (mkSt (st_world st) 0
            [EvSSH (client.sshBaseArgs c ++ ["mkdir -p '/tmp'"])]).
Proof. vm_compute. reflexivity. Qed.

(** ** Provisioning: the command loop *)

Lemma started_app (a b : list Event) : started (a ++ b) = started a ++ started b.
Proof. unfold started. now rewrite flat_map_app. Qed.


Section Commands.
Context {W : Type} {world : World W}.
Import ProvisionResource.




End Commands.


(** ** Commits: the flush before the snapshot *)

Lemma commits_app (a b : list Event) : commits (a ++ b) = commits a ++ commits b.
Proof. unfold commits. now rewrite flat_map_app. Qed.

Lemma warned_app (a b : list Event) : warned (a ++ b) = warned a || warned b.
Proof. unfold warned. now rewrite existsb_app. Qed.

Lemma last_pair {A : Type} (l : list A) (a b d : A) :
  List.last (l ++ [a; b]) d = b.
Proof.
  change [a; b] with ([a] ++ [b]). rewrite app_assoc. apply last_last.
Qed.

Section Commit.
Context {W : Type} {world : World W}.
Import VMCommitResource.

(** [syncBeforeCommit] always returns.  It starts with the request for the
    SSH key and makes no commit call.  Without the key, or without a client,
    it logs a warning and starts no process; with both it runs [sync] on the
    VM through that client under a timeout of two minutes, logs a warning
    exactly when [sync] fails, and removes the key file at the end. *)
Lemma syncBeforeCommit_spec (vmID : string) (st : St W) :
  exists st' evs,
    syncBeforeCommit vmID st = Done tt st'
    /\ st_trace st' = st_trace st ++ EvGetSSHKey vmID :: evs
    /\ commits evs = []
    /\ ((exists err stk,
            GetSSHKey vmID st = Done (Err err) stk
            /\ started evs = [] /\ warned evs = true)
        \/ (exists key stk err stc,
              GetSSHKey vmID st = Done (Ok key) stk
              /\ client.NewSSHClient vmID key stk = Done (Err err) stc
              /\ started evs = [] /\ warned evs = true)
        \/ (exists key stk ssh stc line out err sts,
              GetSSHKey vmID st = Done (Ok key) stk
              /\ client.NewSSHClient vmID key stk = Done (Ok ssh) stc
              /\ client.ExecWithTimeout ssh "sync" (2 * time.Minute)
                   (mkSt (st_world stc) (st_now stc)
                      (st_trace stc ++ [EvLog Debug line]))
                 = Done (out, err) sts
              /\ started evs = [client.sshBaseArgs ssh ++ ["sync"]]
              /\ (warned evs = true <-> err <> None)
              /\ List.last evs (EvSleep 0) = EvRemove (client.KeyPath ssh)
              /\ st_world st' = os_Remove (client.KeyPath ssh) (st_world sts))).
Proof.
  unfold syncBeforeCommit. unfold bind at 1.
  assert (exists r w1,
            GetSSHKey vmID st
            = Done r (mkSt w1 (st_now st) (st_trace st ++ [EvGetSSHKey vmID])))
    as (r0 & w1 & Ek).
  { unfold GetSSHKey, call. destruct (api_GetSSHKey _ _) as [r0 w1]. eauto. }
  rewrite Ek. set (stk := mkSt w1 (st_now st) (st_trace st ++ [EvGetSSHKey vmID])) in *.
  destruct r0 as [key|e].
  2:{ subst stk. do 2 eexists. unfold tflog, emit. split; [reflexivity|]. cbn [st_trace].
      rewrite <- app_assoc. split; [reflexivity|]. split; [reflexivity|].
      left. do 2 eexists. repeat split; reflexivity. }
  unfold bind at 1.
  assert (exists r stc newer,
            client.NewSSHClient vmID key stk = Done r stc
            /\ st_trace stc = st_trace stk ++ newer
            /\ started newer = [] /\ commits newer = [] /\ warned newer = false)
    as (r & stc & newer & Ec & Htc & Hsc & Hcc & Hwc).
  { unfold client.NewSSHClient.
    unfold bind at 1, ask at 1. unfold bind at 1, call at 1.
    destruct (os_MkdirAll _ (st_world stk)) as [[e|] w2].
    { do 3 eexists. split; [reflexivity|]. cbn [st_trace].
      split; [reflexivity|]. repeat split; reflexivity. }
    unfold bind at 1, call at 1. cbn [st_world st_now st_trace].
    destruct (os_WriteFile _ key w2) as [[e|] w3].
    all: do 3 eexists; (split; [reflexivity|]); cbn [st_trace];
      rewrite <- !app_assoc; (split; [reflexivity|]); repeat split; reflexivity. }
  rewrite Ec. destruct r as [ssh|e].
  2:{ do 2 eexists. unfold tflog, emit. split; [reflexivity|]. cbn [st_trace].
      rewrite Htc. unfold stk at 1. cbn [st_trace]. rewrite <- !app_assoc.
      split; [reflexivity|]. cbn [app].
      split; [rewrite commits_app, Hcc; reflexivity|].
      right. left. exists key, stk, e, stc. split; [reflexivity|].
      split; [exact Ec|].
      rewrite started_app, warned_app, Hsc, Hwc. split; reflexivity. }
  unfold bind at 1, tflog at 1, emit at 1. unfold bind at 1.
  match goal with |- context [client.ExecWithTimeout ssh "sync" ?t ?s] =>
    destruct (ExecWithTimeout_returns ssh "sync" t s)
      as (out & err & sts & kill & E & Htr & Hkill & _) end.
  rewrite E. cbn [st_trace snd] in *.
  unfold bind at 1, client.Cleanup, call.
  assert (started kill = [] /\ commits kill = [] /\ warned kill = false)
    as (Hsk & Hck & Hwk) by (destruct Hkill as [-> | ->]; repeat split; reflexivity).
  destruct err as [e|]; unfold tflog, emit; do 2 eexists;
    (split; [reflexivity|]); cbn [st_trace st_world]; rewrite Htr, Htc;
    unfold stk at 1; cbn [st_trace]; rewrite <- !app_assoc; cbn [app];
    (split; [reflexivity|]).
  all: split;
    [rewrite !commits_app, Hcc; cbn [commits flat_map app];
     rewrite commits_app, Hck; reflexivity|].
  all: right; right; exists key, stk, ssh, stc; do 4 eexists;
    split; [reflexivity|]; split; [exact Ec|]; split; [exact E|].
  all: rewrite !started_app, !warned_app, Hsc, Hwc; cbn [started flat_map app warned existsb orb];
    rewrite ?started_app, ?warned_app, ?existsb_app, Hsk; fold (warned kill);
    rewrite ?Hwk; cbn [started flat_map app existsb orb].
  all: split; [reflexivity|].
  all: unfold warned; cbn [existsb orb].
  all: split; [split; intros; congruence|].
  all: split; [|reflexivity].
  all: rewrite !app_comm_cons, app_assoc; apply last_pair.
Qed.

(** C3: [Create] and [Update] of a commit always return.  Each first
    attempts the flush, beginning with the request for the VM's SSH key, and
    only then makes the one commit call, which is the last event of the run.
    When the key is given and the key file can be written, the flush runs
    [sync] on the VM, through the client of that VM and under a timeout of
    two minutes, before the commit call.  Whatever fails in the flush (the
    key request, the creation of the SSH client, the [sync] itself) only
    shows as a warning in the log: without the key or the client no process
    is started and a warning is logged, and when [sync] has run a warning is
    logged exactly when it failed.  The diagnostics of the response come
    from the commit call alone. *)
Theorem C3_flush_attempt_then_commit (plan : VMCommitResourceModel) (st : St W) :
  let vmID := types.ValueString (VMID plan) in
  let keepPaused := types.ValueBool (KeepPaused plan) in
  forall op, op = Create \/ op = Update ->
  exists resp st' line evs st0 st1,
    op plan st = Done resp st'
    /\ st0 = mkSt (st_world st) (st_now st) (st_trace st ++ [EvLog Debug line])
    /\ syncBeforeCommit vmID st0 = Done tt st1
    /\ st_trace st'
       = st_trace st ++ [EvLog Debug line; EvGetSSHKey vmID] ++ evs
           ++ [EvCommitVM vmID keepPaused]
    /\ commits evs = []
    /\ ((exists err stk,
            GetSSHKey vmID st0 = Done (Err err) stk
            /\ started evs = [] /\ warned evs = true)
        \/ (exists key stk err stc,
              GetSSHKey vmID st0 = Done (Ok key) stk
              /\ client.NewSSHClient vmID key stk = Done (Err err) stc
              /\ started evs = [] /\ warned evs = true)
        \/ (exists key stk ssh stc line' out err sts,
              GetSSHKey vmID st0 = Done (Ok key) stk
              /\ client.NewSSHClient vmID key stk = Done (Ok ssh) stc
              /\ client.ExecWithTimeout ssh "sync" (2 * time.Minute)
                   (mkSt (st_world stc) (st_now stc)
                      (st_trace stc ++ [EvLog Debug line']))
                 = Done (out, err) sts
              /\ started evs = [client.sshBaseArgs ssh ++ ["sync"]]
              /\ (warned evs = true <-> err <> None)
              /\ List.last evs (EvSleep 0) = EvRemove (client.KeyPath ssh)
              /\ st_world st1 = os_Remove (client.KeyPath ssh) (st_world sts)))
    /\ HasError (Diagnostics resp)
       = match fst (api_CommitVM vmID keepPaused (st_world st1)) with
         | Ok _ => false
         | Err _ => true
         end.
Proof.
  intros vmID keepPaused op Hop.
  assert (exists line summary, op plan = (
    tflog Debug line ;;;
    syncBeforeCommit vmID ;;;
    r <- CommitVM vmID keepPaused ;;
    match r with
    | Err err => ret (mkResponse [AddError summary (Error err)] None)
    | Ok commitID =>
        ret (mkResponse []
               (Some (mkModel (types.Known commitID) (VMID plan)
                        (types.Known commitID) (KeepPaused plan) (Triggers plan))))
    end)) as (line & summary & ->).
  { destruct Hop as [-> | ->]; do 2 eexists; reflexivity. }
  unfold bind at 1, tflog at 1, emit at 1. unfold bind at 1.
  match goal with |- context [syncBeforeCommit vmID ?s] =>
    destruct (syncBeforeCommit_spec vmID s) as (st1 & evs & E & Htr & Hc & Hw) end.
  rewrite E. cbn [st_trace] in Htr.
  unfold bind, CommitVM, call.
  exists (match fst (api_CommitVM vmID keepPaused (st_world st1)) with
          | Err err => mkResponse [AddError summary (Error err)] None
          | Ok commitID =>
              mkResponse []
                (Some (mkModel (types.Known commitID) (VMID plan)
                         (types.Known commitID) (KeepPaused plan) (Triggers plan)))
          end).
  destruct (api_CommitVM vmID keepPaused (st_world st1)) as [[id|e] w2] eqn:Ew;
    eexists _, line, evs, _, st1; rewrite Ew;
    (split; [reflexivity|]); (split; [reflexivity|]); (split; [exact E|]);
    cbn [st_trace]; rewrite Htr, <- !app_assoc;
    (split; [reflexivity|]); auto.
Qed.

End Commit.

Lemma C3_witness :
  let plan := VMCommitResource.mkModel types.Unknown (types.Known "vm-1")
                types.Unknown (types.Known true) types.Null in
  (exists resp st',
      VMCommitResource.Create plan (sim.fresh "vm-1" sim.Up) = Done resp st'
      /\ filter is_remote (st_trace st')
         = [EvGetSSHKey "vm-1"; EvSSH (client.sshBaseArgs vm1 ++ ["sync"]);
            EvCommitVM "vm-1" true]
      /\ warned (st_trace st') = false
      /\ HasError (VMCommitResource.Diagnostics resp) = false)
  /\ (exists resp st',
        VMCommitResource.Create plan (sim.fresh "vm-1" sim.Down) = Done resp st'
        /\ filter is_remote (st_trace st')
           = [EvGetSSHKey "vm-1"; EvSSH (client.sshBaseArgs vm1 ++ ["sync"]);
              EvCommitVM "vm-1" true]
        /\ warned (st_trace st') = true
        /\ HasError (VMCommitResource.Diagnostics resp) = false).
Proof.
  intros plan. split.
  - destruct (C3_flush_attempt_then_commit plan (sim.fresh "vm-1" sim.Up)
                VMCommitResource.Create (or_introl eq_refl))
      as (resp & st' & line & evs & st0 & st1 & E & _).
    exists resp, st'. split; [exact E|].
    vm_compute in E. injection E as <- <-.
    repeat split; reflexivity.
  - destruct (C3_flush_attempt_then_commit plan (sim.fresh "vm-1" sim.Down)
                VMCommitResource.Create (or_introl eq_refl))
      as (resp & st' & line & evs & st0 & st1 & E & _).
    exists resp, st'. split; [exact E|].
    vm_compute in E. injection E as <- <-.
    repeat split; reflexivity.
Defined.

(** C9: [Delete] of a commit resource returns without diagnostics after a
    single line in the log: it makes no call to the Vers API or to the VM,
    and it leaves the world, with the commits made so far, as it was.  Only
    the record in the Terraform state goes, which the framework drops when
    [Delete] returns without an error. *)
Theorem C9_delete_commit_keeps_remote_image {W : Type} {world : World W}
  (state : VMCommitResource.VMCommitResourceModel) (st : St W) :
  exists line,
    VMCommitResource.Delete state st
    = Done (VMCommitResource.mkResponse [] None)
        (mkSt (st_world st) (st_now st) (st_trace st ++ [EvLog Debug line]))
    /\ filter is_remote [EvLog Debug line] = []
    /\ commits [EvLog Debug line] = [].
Proof. eexists. repeat split. Qed.

(** ** Provisioning: the file loops *)

Section Files.
Context {W : Type} {world : World W}.
Import ProvisionResource.


(** The file loop of [Create] on a list in two parts. *)
Lemma uploadFiles_Create_app ssh i pre rest (st : St W) :
  uploadFiles_Create ssh i (pre ++ rest) st
  = match uploadFiles_Create ssh i pre st with
    | Done (Some diag) s => Done (Some diag) s
    | Done None s => uploadFiles_Create ssh (i + length pre) rest s
    | Hang s => Hang s
    end.
Proof.
  revert i st. induction pre as [|f pre IH]; intros i st.
  { simpl. unfold ret. now rewrite Nat.add_0_r. }
  cbn [uploadFiles_Create app length].
  destruct (source_given f); [|destruct (content_given f)];
    unfold bind, tflog, emit, ret; try reflexivity.
  - destruct (client.UploadFile ssh _ _ _) as [[e|] s1|s1]; try reflexivity.
    rewrite IH. destruct (uploadFiles_Create ssh (S i) pre s1) as [[d|] s2|s2];
      try reflexivity. f_equal. lia.
  - destruct (client.WriteFile ssh _ _ _) as [[e|] s1|s1]; try reflexivity.
    rewrite IH. destruct (uploadFiles_Create ssh (S i) pre s1) as [[d|] s2|s2];
      try reflexivity. f_equal. lia.
Qed.

(** C2, as amended: when a file block has neither a source nor a content
    (null or empty), [Create] does not succeed, uploads no block after it and
    runs no command.  The check is made when the file loop reaches the
    block: after the SSH key was fetched and the client created (which is
    where [Create_provision] starts), after the wait for the VM, and after
    the blocks before it were uploaded; when all that went well, the error
    is the configuration error that names the block by its position. *)
Theorem C2_config_error_when_block_is_reached ssh
  (plan : ProvisionResourceModel) (pre post : list FileBlock) (f : FileBlock)
  (st : St W) :
  types.elements (Files plan) = pre ++ f :: post ->
  source_given f = false ->
  content_given f = false ->
  Create_provision ssh plan st
  = (tflog Debug "Waiting for VM to be reachable via SSH" ;;;
     e <- client.WaitReachable ssh (3 * time.Minute) ;;
     match e with
     | Some err => ret (failed "VM not reachable via SSH" (Error err))
     | None =>
         d <- uploadFiles_Create ssh 0 pre ;;
         ret (mkResponse [match d with
                          | Some diag => diag
                          | None => config_error (length pre + 1)
                          end] None)
     end) st.
Proof.
  intros Hfiles Hs Hc. unfold Create_provision. rewrite Hfiles.
  unfold bind, tflog, emit, ret.
  destruct (client.WaitReachable ssh _ _) as [[e|] s1|s1]; try reflexivity.
  rewrite uploadFiles_Create_app.
  destruct (uploadFiles_Create ssh 0 pre s1) as [[d|] s2|s2]; try reflexivity.
  cbn [uploadFiles_Create]. rewrite Hs, Hc. reflexivity.
Qed.


End Files.

(** C10: a file block with neither a source nor a content is passed over by
    the file loop of [Update], which goes on with the next block without an
    event or an error, while the file loop of [Create] stops at it with the
    configuration error.  So there is a declaration, with one such block, on
    which [Create] ends in the configuration error and [Update] ends without
    a diagnostic, having written no file on the VM. *)
Theorem C10_update_skips_what_create_rejects :
  (forall (W : Type) (world : World W) ssh (f : ProvisionResource.FileBlock)
      (rest : list ProvisionResource.FileBlock) (i : nat) (st : St W),
      ProvisionResource.source_given f = false ->
      ProvisionResource.content_given f = false ->
      ProvisionResource.uploadFiles_Update ssh (f :: rest) st
      = ProvisionResource.uploadFiles_Update ssh rest st
      /\ ProvisionResource.uploadFiles_Create ssh i (f :: rest) st
         = Done (Some (config_error (i + 1))) st)
  /\ (exists respC stC respU stU,
        ProvisionResource.Create plan_neither (sim.fresh "vm-1" sim.Up)
        = Done respC stC
        /\ ProvisionResource.Diagnostics respC = [config_error 1]
        /\ ProvisionResource.Update plan_neither (sim.fresh "vm-1" sim.Up)
           = Done respU stU
        /\ ProvisionResource.Diagnostics respU = []
        /\ sim.sim_remote (st_world stU) = sim.sim_remote (st_world (sim.fresh "vm-1" sim.Up))).
Proof.
  split.
  - intros W world ssh f rest i st Hs Hc.
    cbn [ProvisionResource.uploadFiles_Update ProvisionResource.uploadFiles_Create].
    rewrite Hs, Hc. split; reflexivity.
  - do 4 eexists. split; [vm_compute; reflexivity|]. split; [reflexivity|].
    split; [vm_compute; reflexivity|]. split; reflexivity.
Qed.


Lemma C2_witness :
  exists st',
    ProvisionResource.Create_provision vm1 plan_neither (sim.fresh "vm-1" sim.Up)
    = Done (ProvisionResource.mkResponse [config_error 1] None) st'
    /\ started (st_trace st') = [client.sshBaseArgs vm1 ++ ["echo ready"]].
Proof.
  rewrite (C2_config_error_when_block_is_reached vm1 plan_neither [] []
             (ProvisionResource.mkFileBlock types.Null types.Null
                (types.Known "/tmp/a.sh"))
             (sim.fresh "vm-1" sim.Up) eq_refl eq_refl eq_refl).
  eexists. split; vm_compute; reflexivity.
Defined.

(** C2, as stated, fails.  With a block that has neither a source nor a
    content, [Create] ends in the configuration error only after it has
    fetched the SSH key from the API and probed the VM over SSH; with a
    block that has both, there is no error at all: the source file is
    uploaded and the command is run. *)
Lemma C2_counterexample :
  (exists st',
      ProvisionResource.Create plan_neither (sim.fresh "vm-1" sim.Up)
      = Done (ProvisionResource.mkResponse [config_error 1] None) st'
      /\ filter is_remote (st_trace st')
         = [EvGetSSHKey "vm-1"; EvSSH (client.sshBaseArgs vm1 ++ ["echo ready"])])
  /\ (exists resp st',
        ProvisionResource.Create plan_both
          (with_local "/src/a.sh" "echo source" (sim.fresh "vm-1" sim.Up))
        = Done resp st'
        /\ ProvisionResource.Diagnostics resp = []
        /\ sim.fetch (sim.sim_remote (st_world st')) "/tmp/a.sh" = Some "echo source"
        /\ length (filter is_remote (st_trace st')) = 5%nat).
Proof.
  split.
  - eexists. split; vm_compute; reflexivity.
  - do 2 eexists. split; [vm_compute; reflexivity|].
    repeat split; vm_compute; reflexivity.
Qed.

Lemma C10_witness :
  ProvisionResource.uploadFiles_Update vm1
    (types.elements (ProvisionResource.Files plan_neither)) (sim.fresh "vm-1" sim.Up)
  = Done None (sim.fresh "vm-1" sim.Up)
  /\ ProvisionResource.uploadFiles_Create vm1 0
       (types.elements (ProvisionResource.Files plan_neither)) (sim.fresh "vm-1" sim.Up)
     = Done (Some (config_error 1)) (sim.fresh "vm-1" sim.Up).
Proof.
  exact (proj1 C10_update_skips_what_create_rejects sim.Sim sim.world vm1
           (ProvisionResource.mkFileBlock types.Null types.Null
              (types.Known "/tmp/a.sh")) [] 0%nat (sim.fresh "vm-1" sim.Up)
           eq_refl eq_refl).
Defined.

(** ** Reachability: [WaitReachable] *)

Section Reachability.
Context {W : Type} {world : World W}.

(** One turn of the loop whose probe fails. *)
Lemma loop_failed_turn s deadline n lastErr (st st1 : St W) out err :
  st_now st < deadline ->
  client.ExecWithTimeout s "echo ready" (15 * time.Second) st
  = Done (out, err) st1 ->
  err <> None \/ strings.TrimSpace out <> "ready" ->
  client.WaitReachable_loop (S n) s deadline lastErr st
  = client.WaitReachable_loop n s deadline err
      (mkSt (st_world st1) (st_now st1 + 3 * time.Second)
         (st_trace st1 ++ [EvSleep (3 * time.Second)])).
Proof.
  intros Hnow E Hfail. cbn [client.WaitReachable_loop].
  unfold bind at 1, time_Now at 1.
  destruct (Z.ltb_spec (st_now st) deadline); [|lia].
  unfold bind at 1. rewrite E.
  assert ((match err with None => true | Some _ => false end
           && String.eqb (strings.TrimSpace out) "ready") = false) as ->.
  { destruct err; [reflexivity|]. simpl. apply String.eqb_neq.
    destruct Hfail; congruence. }
  unfold bind, time_Sleep. reflexivity.
Qed.

(** One turn of the loop whose probe succeeds. *)
Lemma loop_reached s deadline n lastErr (st st1 : St W) out :
  st_now st < deadline ->
  client.ExecWithTimeout s "echo ready" (15 * time.Second) st
  = Done (out, None) st1 ->
  strings.TrimSpace out = "ready" ->
  client.WaitReachable_loop (S n) s deadline lastErr st = Done client.Reached st1.
Proof.
  intros Hnow E Hok. cbn [client.WaitReachable_loop].
  unfold bind at 1, time_Now at 1.
  destruct (Z.ltb_spec (st_now st) deadline); [|lia].
  unfold bind at 1. rewrite E, Hok. reflexivity.
Qed.

(** The loop when the deadline has passed. *)
Lemma loop_gave_up s deadline n lastErr (st : St W) :
  deadline <= st_now st ->
  client.WaitReachable_loop n s deadline lastErr st
  = Done (client.GaveUp lastErr) st.
Proof.
  intros Hnow. destruct n; cbn [client.WaitReachable_loop];
    unfold bind, time_Now; destruct (Z.ltb_spec (st_now st) deadline);
    try lia; reflexivity.
Qed.

(** After [k] failed probes the loop is where [failed_probes] says. *)
Lemma loop_after_failed s deadline (st : St W) k lastErr stk :
  failed_probes s deadline st k lastErr stk ->
  forall n,
    client.WaitReachable_loop (k + n) s deadline None st
    = client.WaitReachable_loop n s deadline lastErr stk.
Proof.
  induction 1 as [|k lastErr stk out err st1 Hfp IH Hnow E Hfail]; intros n.
  { reflexivity. }
  replace (S k + n)%nat with (k + S n)%nat by lia.
  rewrite IH. now apply (loop_failed_turn _ _ _ _ _ _ out).
Qed.

(** Each failed probe took its three seconds of sleep at least, and the last
    one was started before the deadline. *)
Lemma failed_probes_time s deadline (st : St W) k lastErr stk :
  failed_probes s deadline st k lastErr stk ->
  st_now st + 3 * time.Second * Z.of_nat k <= st_now stk
  /\ (k = 0%nat \/ st_now st + 3 * time.Second * (Z.of_nat k - 1) < deadline).
Proof.
  induction 1 as [|k lastErr stk out err st1 Hfp [IH1 IH2] Hnow E Hfail].
  { split; [lia | now left]. }
  destruct (ExecWithTimeout_returns s "echo ready" (15 * time.Second) stk)
    as (out' & err' & st1' & kill & E' & _ & _ & Ht).
  rewrite E in E'. injection E' as _ _ <-.
  cbn [st_now]. unfold time.Second in *. split; [lia | right; lia].
Qed.

(** The turns [WaitReachable] allows are enough. *)
Lemma turns_enough (timeout : Z) (k : nat) :
  3 * time.Second * (Z.of_nat k - 1) < timeout ->
  (k <= client.WaitReachable_turns timeout)%nat.
Proof.
  unfold client.WaitReachable_turns, time.Second. intros H.
  destruct (Z.le_gt_cases 0 timeout) as [Hpos|Hneg].
  - assert (Z.of_nat k - 1 <= timeout / (3 * 1000000000)).
    { apply Z.div_le_lower_bound; lia. }
    lia.
  - lia.
Qed.

(** The loop returns when it has turns for the time left, and it gives up
    only when the deadline has passed. *)
Lemma loop_returns s deadline n lastErr (st : St W) :
  deadline - st_now st <= 3 * time.Second * Z.of_nat n ->
  exists r st',
    client.WaitReachable_loop n s deadline lastErr st = Done r st'
    /\ match r with
       | client.Reached => True
       | client.GaveUp _ => deadline <= st_now st'
       end.
Proof.
  revert lastErr st. induction n as [|n IH]; intros lastErr st Hn.
  { rewrite loop_gave_up by (unfold time.Second in *; lia).
    do 2 eexists. split; [reflexivity|]. cbn. unfold time.Second in *. lia. }
  destruct (Z.lt_ge_cases (st_now st) deadline) as [Hnow|Hnow].
  2:{ rewrite loop_gave_up by lia. do 2 eexists. split; [reflexivity | cbn; lia]. }
  destruct (ExecWithTimeout_returns s "echo ready" (15 * time.Second) st)
    as (out & err & st1 & kill & E & _ & _ & Ht).
  destruct err as [e|].
  - rewrite (loop_failed_turn _ _ _ _ _ _ out (Some e) Hnow E)
      by (left; discriminate).
    apply IH. cbn [st_now]. unfold time.Second in *. lia.
  - destruct (String.eqb_spec (strings.TrimSpace out) "ready") as [Hok|Hno].
    + rewrite (loop_reached _ _ _ _ _ _ out Hnow E Hok).
      do 2 eexists. split; [reflexivity | exact I].
    + rewrite (loop_failed_turn _ _ _ _ _ _ out None Hnow E) by (now right).
      apply IH. cbn [st_now]. unfold time.Second in *. lia.
Qed.

Lemma turns_cover (timeout : Z) :
  timeout <= 3 * time.Second * Z.of_nat (client.WaitReachable_turns timeout).
Proof.
  unfold client.WaitReachable_turns, time.Second.
  destruct (Z.le_gt_cases 0 timeout) as [Hpos|Hneg]; [|lia].
  pose proof (Z.mul_succ_div_gt timeout (3 * 1000000000) ltac:(lia)).
  pose proof (Z.div_pos timeout (3 * 1000000000) Hpos ltac:(lia)). lia.
Qed.

(** C7: [WaitReachable] always returns.  When a probe that it starts before
    the deadline succeeds, all the probes before it having failed, it returns
    success in the very state in which that probe ended: at that time, which
    is before the deadline if the probe succeeded before the deadline.  When
    the probes have failed until the deadline has passed, it returns the
    unreachable error, which wraps the error of the last probe if that probe
    had one; and whenever it returns an error, the full timeout has
    elapsed. *)
Theorem C7_WaitReachable (s : client.SSHClient) (timeout : Z) (st : St W) :
  let deadline := st_now st + timeout in
  (exists r st', client.WaitReachable s timeout st = Done r st')
  /\ (forall k lastErr stk out st',
        failed_probes s deadline st k lastErr stk ->
        st_now stk < deadline ->
        client.ExecWithTimeout s "echo ready" (15 * time.Second) stk
        = Done (out, None) st' ->
        strings.TrimSpace out = "ready" ->
        client.WaitReachable s timeout st = Done None st')
  /\ (forall k lastErr stk,
        failed_probes s deadline st k lastErr stk ->
        deadline <= st_now stk ->
        client.WaitReachable s timeout st
        = Done (Some (unreachable s timeout lastErr)) stk)
  /\ (forall e st',
        client.WaitReachable s timeout st = Done (Some e) st' ->
        st_now st + timeout <= st_now st').
Proof.
  intros deadline. unfold client.WaitReachable.
  unfold bind at 1 3 5 7, time_Now at 1 2 3 4. fold deadline. unfold bind.
  destruct (loop_returns s deadline (client.WaitReachable_turns timeout) None st)
    as (r & st1 & E & Hr).
  { pose proof (turns_cover timeout). unfold deadline. lia. }
  split; [|split; [|split]].
  - rewrite E. destruct r as [|[e|]]; unfold ret; eauto.
  - intros k lastErr stk out st' Hfp Hnow Eprobe Hok.
    destruct (failed_probes_time _ _ _ _ _ _ Hfp) as [H1 _].
    assert (S k <= client.WaitReachable_turns timeout)%nat as Hk.
    { apply turns_enough. unfold deadline in Hnow. lia. }
    replace (client.WaitReachable_turns timeout)
      with (k + S (client.WaitReachable_turns timeout - S k))%nat by lia.
    rewrite (loop_after_failed _ _ _ _ _ _ Hfp).
    rewrite (loop_reached _ _ _ _ _ _ out Hnow Eprobe Hok). reflexivity.
  - intros k lastErr stk Hfp Hnow.
    destruct (failed_probes_time _ _ _ _ _ _ Hfp) as [_ H2].
    assert (k <= client.WaitReachable_turns timeout)%nat as Hk.
    { destruct H2 as [-> | H2]; [lia|]. apply turns_enough.
      unfold deadline in H2. lia. }
    replace (client.WaitReachable_turns timeout)
      with (k + (client.WaitReachable_turns timeout - k))%nat by lia.
    rewrite (loop_after_failed _ _ _ _ _ _ Hfp).
    rewrite loop_gave_up by exact Hnow.
    unfold unreachable. destruct lastErr; reflexivity.
  - intros e st'. rewrite E. destruct r as [|[e'|]]; unfold ret; intros H;
      try discriminate; injection H as _ <-; exact Hr.
Qed.

End Reachability.

Lemma C7_witness :
  (exists st',
      client.WaitReachable vm1 (3 * time.Minute) (sim.fresh "vm-1" sim.Up)
      = Done None st'
      /\ st_now st' = 1000000)
  /\ (exists e st',
        client.WaitReachable vm1 (3 * time.Second) (sim.fresh "vm-1" sim.Down)
        = Done (Some e) st'
        /\ Error e = "VM vm-1 not reachable via SSH after 3s: SSH exec failed: exit status 255"
                       +:+ nl +:+ "stderr: ssh: connection refused"
        /\ 3 * time.Second <= st_now st').
Proof.
  split.
  - destruct (C7_WaitReachable vm1 (3 * time.Minute) (sim.fresh "vm-1" sim.Up))
      as (_ & Hok & _).
    eexists. split.
    + eapply (Hok 0%nat None (sim.fresh "vm-1" sim.Up)).
      * constructor.
      * reflexivity.
      * vm_compute. reflexivity.
      * reflexivity.
    + reflexivity.
  - destruct (C7_WaitReachable vm1 (3 * time.Second) (sim.fresh "vm-1" sim.Down))
      as (_ & _ & Hfail & Hlate).
    assert (failed_probes vm1 (0 + 3 * time.Second) (sim.fresh "vm-1" sim.Down) 1
              (Some (Errorf ("SSH exec failed: exit status 255" +:+ nl
                               +:+ "stderr: ssh: connection refused")))
              (mkSt (st_world (sim.fresh "vm-1" sim.Down)) 4000000000
                 [EvSSH (client.sshBaseArgs vm1 ++ ["echo ready"]);
                  EvSleep (3 * time.Second)])) as Hfp.
    { apply (one_more_failed vm1 _ _ 0%nat None (sim.fresh "vm-1" sim.Down) ""
               (Some (Errorf ("SSH exec failed: exit status 255" +:+ nl
                                +:+ "stderr: ssh: connection refused")))
               (mkSt (st_world (sim.fresh "vm-1" sim.Down)) 1000000000
                  [EvSSH (client.sshBaseArgs vm1 ++ ["echo ready"])])).
      - constructor.
      - reflexivity.
      - vm_compute. reflexivity.
      - left. discriminate. }
    specialize (Hfail _ _ _ Hfp ltac:(vm_compute; discriminate)).
    do 2 eexists. split; [exact Hfail|]. split; [reflexivity|].
    exact (Hlate _ _ Hfail).
Defined.

(** ** Key files: where [NewSSHClient] puts the private key *)

Lemma has_separator_app (a b : string) :
  has_separator (a +:+ b) = has_separator a || has_separator b.
Proof.
  induction a as [|c a IH]; [reflexivity|]. rewrite str_app_cons. simpl.
  rewrite IH. now rewrite orb_assoc.
Qed.

Lemma has_separator_slice (s : string) (n : nat) :
  has_separator s = false -> has_separator (slice_to s n) = false.
Proof.
  unfold slice_to. revert s. induction n as [|n IH]; intros [|c s]; simpl; auto.
  intros [H1 H2]%orb_false_elim. rewrite H1. simpl. auto.
Qed.

(** Splitting at separators, for a string that ends in an element without
    one. *)
Lemma split_go_app (a b cur : string) :
  strings.split_go "/" cur (a +:+ String "/" b)
  = strings.split_go "/" cur a ++ strings.split_go "/" "" b.
Proof.
  revert cur. induction a as [|c a IH]; intros cur.
  { reflexivity. }
  rewrite str_app_cons. simpl. destruct (Ascii.eqb c "/"); rewrite IH; reflexivity.
Qed.

Lemma split_go_element (name cur : string) :
  has_separator name = false ->
  strings.split_go "/" cur name = [String.rev_app cur name].
Proof.
  revert cur. induction name as [|c name IH]; intros cur H.
  { reflexivity. }
  simpl in *. apply orb_false_elim in H as [-> H]. now rewrite IH.
Qed.

Lemma concat_snoc (sep x : string) (l : list string) :
  String.concat sep (l ++ [x])
  = match l with
    | [] => x
    | _ => String.concat sep l +:+ sep +:+ x
    end.
Proof.
  induction l as [|y l IH]; [reflexivity|].
  destruct l as [|z l]; [reflexivity|].
  change (String.concat sep ((y :: z :: l) ++ [x]))
    with (y +:+ sep +:+ String.concat sep ((z :: l) ++ [x])).
  rewrite IH.
  change (String.concat sep (y :: z :: l))
    with (y +:+ sep +:+ String.concat sep (z :: l)).
  now rewrite !str_app_assoc.
Qed.

Lemma prefix_separator (c : ascii) (s : string) :
  String.prefix "/" (String c s) = Ascii.eqb c "/".
Proof.
  assert (String.prefix "" s = true) as Hnil by (destruct s; reflexivity).
  change (String.prefix "/" (String c s))
    with (if ascii_dec "/" c then String.prefix "" s else false).
  rewrite Hnil.
  destruct (ascii_dec "/" c) as [<-|Hc]; [reflexivity|].
  symmetry. apply Ascii.eqb_neq. congruence.
Qed.

Lemma clean_step_plain (rooted : bool) (kept : list string) (name : string) :
  plain_name name -> filepath.clean_step rooted kept name = name :: kept.
Proof.
  intros (_ & Hne & Hdot & Hdots). unfold filepath.clean_step.
  now rewrite Hne, Hdot, Hdots.
Qed.

(** Joining a directory and a plain name puts the name, unchanged, behind a
    prefix that depends on the directory alone. *)
Lemma Join_plain_name (dir : string) :
  exists prefix, forall name,
    plain_name name -> filepath.Join [dir; name] = prefix +:+ name.
Proof.
  destruct dir as [|c dir].
  - exists "". intros name Hname.
    pose proof Hname as (Hsep & Hne & Hdot & Hdots).
    cbn [filepath.Join String.eqb]. rewrite Hne.
    unfold filepath.Clean, strings.Join, strings.Split.
    change (String.concat "/" [name]) with name.
    rewrite (split_go_element name "" Hsep). cbn [fold_left String.rev_app].
    rewrite (clean_step_plain _ _ _ Hname). cbn [rev app].
    change (String.concat "/" [name]) with name.
    assert (String.prefix "/" name = false) as ->.
    { destruct name as [|c name]; [reflexivity|]. simpl in Hsep.
      apply orb_false_elim in Hsep as [Hc _]. now rewrite prefix_separator. }
    rewrite str_app_nil_l, Hne. reflexivity.
  - set (d := String c dir).
    set (rooted := Ascii.eqb c "/").
    set (kept := fold_left (filepath.clean_step rooted) (strings.Split d "/") []).
    exists ((if rooted then "/" else "")
            +:+ match rev kept with
                | [] => ""
                | _ => String.concat "/" (rev kept) +:+ "/"
                end).
    intros name Hname. pose proof Hname as (Hsep & Hne & Hdot & Hdots).
    assert (String.eqb d "" = false) as Hd by reflexivity.
    cbn [filepath.Join]. rewrite Hd.
    unfold filepath.Clean, strings.Join, strings.Split.
    change (String.concat "/" [d; name]) with (d +:+ String "/" name).
    rewrite split_go_app, (split_go_element name "" Hsep), fold_left_app.
    cbn [fold_left String.rev_app].
    assert (String.prefix "/" (d +:+ String "/" name) = rooted) as ->.
    { unfold d, rooted. rewrite str_app_cons. apply prefix_separator. }
    rewrite (clean_step_plain _ _ _ Hname).
    fold (strings.Split d "/"). fold kept. cbn [rev].
    rewrite concat_snoc.
    set (out := (if rooted then "/" else "") +:+ _).
    assert (out = ((if rooted then "/" else "")
                   +:+ match rev kept with
                       | [] => ""
                       | _ => String.concat "/" (rev kept) +:+ "/"
                       end) +:+ name) as ->.
    { unfold out. destruct (rev kept); rewrite !str_app_assoc; reflexivity. }
    match goal with |- (if String.eqb ?o "" then _ else _) = _ =>
      assert (String.eqb o "" = false) as Hout end.
    { apply String.eqb_neq, str_app_not_nil. now apply String.eqb_neq. }
    rewrite Hout. reflexivity.
Qed.

Lemma keyFileName_plain (vmID : string) :
  has_separator vmID = false -> plain_name (client.keyFileName vmID).
Proof.
  intros H. unfold plain_name, client.keyFileName.
  rewrite !has_separator_app, (has_separator_slice _ _ H).
  repeat split; reflexivity.
Qed.

Lemma keyFileName_inj (id1 id2 : string) :
  client.keyFileName id1 = client.keyFileName id2 ->
  slice_to id1 (client.min 12 (String.length id1))
  = slice_to id2 (client.min 12 (String.length id2)).
Proof.
  unfold client.keyFileName. intros H.
  apply str_app_inv_head in H. now apply str_app_inv_tail in H.
Qed.

(** C8, as amended: the key file of a VM is named after the first 12 bytes
    of its identifier.  Two identifiers without a path separator have the
    same key path exactly when their first 12 bytes are the same; so
    identifiers that differ within their first 12 bytes have distinct key
    files, and identifiers that agree on them share one.  The key path is
    the only file [NewSSHClient] writes and the only file [Cleanup]
    removes. *)
Theorem C8_key_path_per_12_byte_prefix {W : Type} {world : World W}
  (id1 id2 key : string) (st : St W) :
  let tmp := os_TempDir (st_world st) in
  has_separator id1 = false ->
  has_separator id2 = false ->
  (client.keyPathOf tmp id1 = client.keyPathOf tmp id2
   <-> slice_to id1 (client.min 12 (String.length id1))
       = slice_to id2 (client.min 12 (String.length id2)))
  /\ (forall c st',
        client.NewSSHClient id2 key st = Done (Ok c) st' ->
        client.KeyPath c = client.keyPathOf tmp id2
        /\ st_trace st'
           = st_trace st ++ [EvMkdirAll (client.keyDirOf tmp);
                             EvWriteFile (client.keyPathOf tmp id2) key]
        /\ forall st2,
             client.Cleanup c st2
             = Done tt (mkSt (os_Remove (client.keyPathOf tmp id2) (st_world st2))
                          (st_now st2)
                          (st_trace st2 ++ [EvRemove (client.keyPathOf tmp id2)]))).
Proof.
  intros tmp H1 H2. split.
  - unfold client.keyPathOf.
    destruct (Join_plain_name (client.keyDirOf tmp)) as (prefix & Hjoin).
    rewrite !Hjoin by now apply keyFileName_plain.
    split.
    + intros H%str_app_inv_head. now apply keyFileName_inj.
    + intros H. unfold client.keyFileName. now rewrite H.
  - intros c st'. unfold client.NewSSHClient, bind, ask, call, ret.
    fold tmp. cbn [st_world st_now st_trace].
    destruct (os_MkdirAll _ _) as [[e|] w1]; [discriminate|].
    destruct (os_WriteFile _ _ _) as [[e|] w2]; [discriminate|].
    intros H. injection H as <- <-. cbn [client.KeyPath st_trace].
    rewrite <- app_assoc. repeat split.
Qed.

Lemma C8_witness :
  client.keyPathOf "/tmp" "vm-1" <> client.keyPathOf "/tmp" "vm-2".
Proof.
  destruct (C8_key_path_per_12_byte_prefix "vm-1" "vm-2" "" (sim.fresh "vm-1" sim.Up)
              eq_refl eq_refl) as [[H _] _].
  intros E. specialize (H E). discriminate H.
Defined.

(** C8, as stated, fails: two VM identifiers that differ only after their
    first 12 bytes have the same key file.  The client of the second VM
    overwrites the key of the first, and its [Cleanup] removes the file
    while the first client still points to it. *)
Lemma C8_counterexample :
  let id1 := "aaaaaaaaaaaa1" in
  let id2 := "aaaaaaaaaaaa2" in
  id1 <> id2
  /\ client.keyPathOf "/tmp" id1 = client.keyPathOf "/tmp" id2
  /\ exists c1 c2 st1 st2 st3,
       client.NewSSHClient id1 "KEY 1" (sim.fresh id1 sim.Up) = Done (Ok c1) st1
       /\ sim.sim_local (st_world st1) !! client.KeyPath c1 = Some "KEY 1"
       /\ client.NewSSHClient id2 "KEY 2" st1 = Done (Ok c2) st2
       /\ sim.sim_local (st_world st2) !! client.KeyPath c1 = Some "KEY 2"
       /\ client.Cleanup c2 st2 = Done tt st3
       /\ sim.sim_local (st_world st3) !! client.KeyPath c1 = None.
Proof.
  intros id1 id2. split; [discriminate|]. split; [reflexivity|].
  do 5 eexists.
  split; [vm_compute; reflexivity|]. split; [vm_compute; reflexivity|].
  split; [vm_compute; reflexivity|]. split; [vm_compute; reflexivity|].
  split; vm_compute; reflexivity.
Qed.

(** ** The fingerprint: [computeID] *)

Lemma concat0_cons (x : string) (l : list string) :
  String.concat "" (x :: l) = x +:+ String.concat "" l.
Proof. destruct l; [now rewrite str_app_nil_r | reflexivity]. Qed.

Lemma concat0_app (a b : list string) :
  String.concat "" (a ++ b) = String.concat "" a +:+ String.concat "" b.
Proof.
  induction a as [|x a IH]; [reflexivity|].
  rewrite <- app_comm_cons, !concat0_cons, IH. now rewrite str_app_assoc.
Qed.

(** Two lists that differ in one element differ in their concatenation. *)
Lemma concat0_one_change (pre post : list string) (x y : string) :
  x <> y ->
  String.concat "" (pre ++ x :: post) <> String.concat "" (pre ++ y :: post).
Proof.
  intros Hxy H. rewrite !concat0_app, !concat0_cons in H.
  apply str_app_inv_head, str_app_inv_tail in H. contradiction.
Qed.

(** [m[k]] for a map whose keys are distinct. *)
Lemma lookup_In (m : list (string * types.String)) k v :
  List.NoDup (map fst m) -> In (k, v) m -> types.lookup k m = Some v.
Proof.
  induction m as [|[k' v'] m IH]; simpl; intros Hnd Hin; [contradiction|].
  apply List.NoDup_cons_iff in Hnd as [Hk Hnd].
  destruct Hin as [E|Hin].
  - injection E as -> ->. now rewrite String.eqb_refl.
  - destruct (String.eqb_spec k k') as [->|_]; [|auto].
    exfalso. apply Hk. apply in_map_iff. now exists (k', v).
Qed.

Lemma lookup_not_In (m : list (string * types.String)) k :
  ~ In k (map fst m) -> types.lookup k m = None.
Proof.
  induction m as [|[k' v'] m IH]; simpl; intros Hk; [reflexivity|].
  destruct (String.eqb_spec k k') as [->|_]; [tauto | auto].
Qed.

(** The order in which the map is visited does not matter. *)
Lemma lookup_Permutation (m1 m2 : list (string * types.String)) k :
  List.NoDup (map fst m1) -> Permutation m1 m2 ->
  types.lookup k m1 = types.lookup k m2.
Proof.
  intros Hnd Hp.
  assert (List.NoDup (map fst m2)) as Hnd2.
  { eapply Permutation_NoDup; [|exact Hnd]. now apply Permutation_map. }
  destruct (in_dec string_dec k (map fst m1)) as [Hin|Hout].
  - apply in_map_iff in Hin as ([k' v] & Hk & Hin). simpl in Hk. subst k'.
    rewrite (lookup_In m1 k v Hnd Hin).
    symmetry. apply (lookup_In m2 k v Hnd2).
    eapply Permutation_in; eauto.
  - rewrite (lookup_not_In m1 k Hout). symmetry. apply lookup_not_In.
    intros Hin. apply Hout. eapply Permutation_in; [|exact Hin].
    apply Permutation_map. now symmetry.
Qed.

Lemma sortedKeys_Permutation (m1 m2 : list (string * types.String)) :
  Permutation m1 m2 ->
  ProvisionResource.sortedKeys m1 = ProvisionResource.sortedKeys m2.
Proof.
  intros Hp. unfold ProvisionResource.sortedKeys.
  apply (Sorted_unique String.le); try apply Sorted_merge_sort; try apply _.
  rewrite !merge_sort_Permutation. now apply Permutation_map.
Qed.

(** Two visits of the same map, in whatever order, give the same sorted
    pairs. *)
Lemma sortedPairs_Permutation (m1 m2 : list (string * types.String)) :
  List.NoDup (map fst m1) -> Permutation m1 m2 ->
  ProvisionResource.sortedPairs m1 = ProvisionResource.sortedPairs m2.
Proof.
  intros Hnd Hp. unfold ProvisionResource.sortedPairs.
  rewrite (sortedKeys_Permutation m1 m2 Hp).
  apply map_ext. intros k. now rewrite (lookup_Permutation m1 m2 k Hnd Hp).
Qed.

Lemma lookup_other_key (pre post : list (string * types.String)) k v v' j :
  j <> k ->
  types.lookup j (pre ++ (k, v) :: post) = types.lookup j (pre ++ (k, v') :: post).
Proof.
  intros Hjk. induction pre as [|[k0 v0] pre IH]; simpl.
  - destruct (String.eqb_spec j k); [contradiction | reflexivity].
  - now rewrite IH.
Qed.

(** What the triggers add to the hash. *)
Lemma trigger_bytes (m : list (string * types.String)) :
  map (fun kv : string * string => fst kv +:+ snd kv) (ProvisionResource.sortedPairs m)
  = map (fun k => k +:+ match types.lookup k m with
                        | Some v => types.ValueString v
                        | None => ""
                        end) (ProvisionResource.sortedKeys m).
Proof. unfold ProvisionResource.sortedPairs. now rewrite map_map. Qed.

(** A change of the value of one trigger changes what the triggers add to
    the hash. *)
Lemma triggers_one_change (pre post : list (string * types.String)) k v v' :
  List.NoDup (map fst (pre ++ (k, v) :: post)) ->
  types.ValueString v <> types.ValueString v' ->
  String.concat "" (map (fun kv : string * string => fst kv +:+ snd kv)
                      (ProvisionResource.sortedPairs (pre ++ (k, v) :: post)))
  <> String.concat "" (map (fun kv : string * string => fst kv +:+ snd kv)
                         (ProvisionResource.sortedPairs (pre ++ (k, v') :: post))).
Proof.
  intros Hnd Hv. rewrite !trigger_bytes.
  set (m1 := pre ++ (k, v) :: post) in *. set (m2 := pre ++ (k, v') :: post).
  assert (map fst m2 = map fst m1) as Hkeys.
  { unfold m1, m2. now rewrite !map_app. }
  assert (ProvisionResource.sortedKeys m2 = ProvisionResource.sortedKeys m1) as ->.
  { unfold ProvisionResource.sortedKeys. now rewrite Hkeys. }
  assert (Permutation (ProvisionResource.sortedKeys m1) (map fst m1)) as Hperm.
  { apply merge_sort_Permutation. }
  assert (In k (ProvisionResource.sortedKeys m1)) as Hin.
  { eapply Permutation_in; [symmetry; exact Hperm|].
    unfold m1. rewrite map_app. apply in_or_app. right. now left. }
  assert (List.NoDup (ProvisionResource.sortedKeys m1)) as Hnd'.
  { eapply Permutation_NoDup; [symmetry; exact Hperm | exact Hnd]. }
  apply in_split in Hin as (ks1 & ks2 & Hks). rewrite Hks in *.
  apply NoDup_remove_2 in Hnd'.
  rewrite !map_app. cbn [map].
  assert (forall j, In j (ks1 ++ ks2) ->
            types.lookup j m1 = types.lookup j m2) as Hother.
  { intros j Hj. apply lookup_other_key. intros ->. contradiction. }
  rewrite (map_ext_in _ (fun k0 => k0 +:+ match types.lookup k0 m2 with
                                          | Some v0 => types.ValueString v0
                                          | None => ""
                                          end) ks1).
  2:{ intros j Hj. rewrite Hother; [reflexivity | apply in_or_app; now left]. }
  rewrite (map_ext_in _ (fun k0 => k0 +:+ match types.lookup k0 m2 with
                                          | Some v0 => types.ValueString v0
                                          | None => ""
                                          end) ks2).
  2:{ intros j Hj. rewrite Hother; [reflexivity | apply in_or_app; now right]. }
  apply concat0_one_change.
  rewrite (lookup_In m1 k v Hnd), (lookup_In m2 k v').
  - intros H%str_app_inv_head. contradiction.
  - now rewrite Hkeys.
  - unfold m2. apply in_or_app. right. now left.
  - unfold m1. apply in_or_app. right. now left.
Qed.

(** The digits of a fingerprint. *)
Lemma get_In (s : string) (i : nat) (c : ascii) :
  String.get i s = Some c -> In c (list_ascii_of_string s).
Proof.
  revert i. induction s as [|c' s IH]; intros [|i]; simpl; try discriminate.
  - intros H. injection H as ->. now left.
  - intros H. right. eauto.
Qed.

Lemma digit_hex (n : Z) : In (hex.digit n) (list_ascii_of_string hex.hextable).
Proof.
  unfold hex.digit. destruct (String.get _ _) as [c|] eqn:E.
  - eapply get_In; eauto.
  - now left.
Qed.

Lemma EncodeToString_hex (bs : list Z) :
  Forall (fun c => In c (list_ascii_of_string hex.hextable))
    (list_ascii_of_string (hex.EncodeToString bs)).
Proof.
  induction bs as [|b bs IH]; cbn [hex.EncodeToString list_ascii_of_string].
  - constructor.
  - constructor; [apply digit_hex|]. constructor; [apply digit_hex | exact IH].
Qed.

Lemma slice_to_Forall (P : ascii -> Prop) (s : string) (n : nat) :
  Forall P (list_ascii_of_string s) ->
  Forall P (list_ascii_of_string (slice_to s n)).
Proof.
  unfold slice_to. revert s. induction n as [|n IH]; intros [|c s] H; simpl;
    try constructor.
  - now inversion H.
  - apply IH. now inversion H.
Qed.

Lemma hex_strings_complete (n : nat) (s : string) :
  (String.length s <= n)%nat ->
  Forall (fun c => In c (list_ascii_of_string hex.hextable))
    (list_ascii_of_string s) ->
  In s (hex_strings n).
Proof.
  revert s. induction n as [|n IH]; intros [|c s] Hlen Hhex;
    cbn [hex_strings]; try (now left); simpl in Hlen; try lia.
  right. apply in_flat_map. exists c. inversion Hhex; subst. split; [assumption|].
  apply in_map. apply IH; [lia | assumption].
Qed.

(** A function into a finite list of values takes the same value on two
    different arguments. *)
Lemma NoDup_map_injective_on {A B : Type} (f : A -> B) (l : list A) :
  (forall x y, x <> y -> f x <> f y) ->
  List.NoDup l -> List.NoDup (map f l).
Proof.
  intros Hinj. induction 1 as [|x l Hx Hnd IH]; simpl; constructor; [|assumption].
  intros (y & Hy & Hin)%in_map_iff. apply (Hinj y x); [|assumption].
  intros ->. contradiction.
Qed.

Lemma not_injective_into_finite {B : Type} (f : string -> B) (values : list B) :
  (forall c, In (f c) values) ->
  ~ (forall c c' : string, c <> c' -> f c <> f c').
Proof.
  intros Hin Hinj.
  set (n := length values).
  set (args := map (fun i : nat => pretty i) (seq 0 (S n))).
  assert (List.NoDup args) as Hargs.
  { unfold args. apply NoDup_map_injective_on; [|apply seq_NoDup].
    intros x y Hxy H. apply Hxy. now apply (inj pretty). }
  pose proof (NoDup_map_injective_on f args Hinj Hargs) as Hnd.
  assert (incl (map f args) values) as Hincl.
  { intros b (c & <- & _)%in_map_iff. apply Hin. }
  pose proof (NoDup_incl_length Hnd Hincl) as Hlen.
  unfold args in Hlen. rewrite !length_map, length_seq in Hlen.
  fold n in Hlen. lia.
Qed.

Lemma round_length (st : list Z) (kw : Z * Z) :
  length st = 8%nat -> length (sha256.round st kw) = 8%nat.
Proof.
  intros H. do 9 (destruct st as [|? st]; try discriminate H). reflexivity.
Qed.

Lemma block_length (hs bs : list Z) :
  length hs = 8%nat -> length (sha256.block hs bs) = 8%nat.
Proof.
  intros H. unfold sha256.block. rewrite length_map, length_combine.
  assert (forall kws st, length st = 8%nat ->
            length (fold_left sha256.round kws st) = 8%nat) as Hfold.
  { induction kws as [|kw kws IH]; intros st Hst; [exact Hst|].
    cbn [fold_left]. apply IH, round_length, Hst. }
  rewrite (Hfold _ _ H), H. reflexivity.
Qed.

Lemma blocks_length (n : nat) (hs bs : list Z) :
  length hs = 8%nat -> length (sha256.blocks n hs bs) = 8%nat.
Proof.
  revert hs bs. induction n as [|n IH]; intros hs bs H; [exact H|].
  cbn [sha256.blocks]. apply IH, block_length, H.
Qed.

Lemma Sum256_length (msg : list Z) : length (sha256.Sum256 msg) = 32%nat.
Proof.
  unfold sha256.Sum256.
  assert (forall ws : list Z,
            length (concat (map sha256.word_bytes ws)) = (4 * length ws)%nat) as Hc.
  { induction ws as [|x ws IH]; [reflexivity|].
    cbn [map concat]. rewrite length_app, IH. cbn [sha256.word_bytes length]. lia. }
  rewrite Hc, blocks_length; [reflexivity|].
  unfold sha256.H0. rewrite length_map. reflexivity.
Qed.

Lemma EncodeToString_length (bs : list Z) :
  String.length (hex.EncodeToString bs) = (2 * length bs)%nat.
Proof.
  induction bs as [|b bs IH]; [reflexivity|].
  cbn [hex.EncodeToString String.length length]. rewrite IH. lia.
Qed.

Lemma slice_to_length (s : string) (n : nat) :
  (n <= String.length s)%nat -> String.length (slice_to s n) = n.
Proof.
  unfold slice_to. revert s. induction n as [|n IH]; intros [|c s]; cbn; try lia.
  intros H. rewrite IH; lia.
Qed.

(** A property checked on every number below [k]. *)
Lemma below_forall (P : Z -> bool) (k : nat) :
  forallb P (map Z.of_nat (seq 0 k)) = true ->
  forall n, 0 <= n < Z.of_nat k -> P n = true.
Proof.
  intros H n Hn. rewrite forallb_forall in H. apply H.
  apply in_map_iff. exists (Z.to_nat n). split; [lia|].
  apply in_seq. lia.
Qed.

(** Two hexadecimal digits give their byte back. *)
Lemma hex_byte (b : Z) :
  0 <= b < 256 ->
  forall b', 0 <= b' < 256 ->
    hex.digit (Z.shiftr b 4) = hex.digit (Z.shiftr b' 4) ->
    hex.digit (Z.land b 15) = hex.digit (Z.land b' 15) ->
    b = b'.
Proof.
  intros Hb b' Hb' Hhi Hlo.
  pose proof (below_forall
    (fun b => forallb (fun b' =>
       negb (Ascii.eqb (hex.digit (Z.shiftr b 4)) (hex.digit (Z.shiftr b' 4))
             && Ascii.eqb (hex.digit (Z.land b 15)) (hex.digit (Z.land b' 15)))
       || (b =? b')) (map Z.of_nat (seq 0 256))) 256 ltac:(vm_compute; reflexivity)
    b Hb) as H.
  cbv beta in H.
  pose proof (below_forall _ 256 H b' Hb') as H'. cbv beta in H'.
  rewrite Hhi, Hlo, !Ascii.eqb_refl in H'. cbn [andb negb orb] in H'.
  now apply Z.eqb_eq.
Qed.

Lemma hex_inj (l1 l2 : list Z) :
  Forall (fun b => 0 <= b < 256) l1 -> Forall (fun b => 0 <= b < 256) l2 ->
  hex.EncodeToString l1 = hex.EncodeToString l2 -> l1 = l2.
Proof.
  intros H1. revert l2. induction H1 as [|b l1 Hb _ IH]; intros l2 H2 E.
  { destruct l2; [reflexivity | discriminate E]. }
  destruct H2 as [|b' l2 Hb' H2]; [discriminate E|].
  cbn [hex.EncodeToString] in E. injection E as Hhi Hlo E.
  f_equal; [exact (hex_byte b Hb b' Hb' Hhi Hlo) | exact (IH l2 H2 E)].
Qed.

Lemma Sum256_range (msg : list Z) :
  Forall (fun b => 0 <= b < 256) (sha256.Sum256 msg).
Proof.
  unfold sha256.Sum256. cbv zeta.
  match goal with |- context [sha256.blocks ?n ?h ?b] =>
    generalize (sha256.blocks n h b) as ws end.
  induction ws as [|x ws IH]; [constructor|].
  cbn [map concat]. apply Forall_app. split; [|exact IH].
  assert (forall v, 0 <= Z.land v 255 < 256) as Hland.
  { intros v. change 255 with (Z.ones 8). rewrite Z.land_ones by lia.
    apply Z.mod_pos_bound. lia. }
  unfold sha256.word_bytes. repeat constructor; apply Hland.
Qed.

Lemma first64_range (input : string) : Forall (fun b => 0 <= b < 256) (first64 input).
Proof.
  unfold first64. apply Forall_take, Sum256_range.
Qed.

Section Fingerprint.
Context {W : Type} {world : World W}.
Import ProvisionResource.

Lemma computeID_fingerprint (plan : ProvisionResourceModel) (w : W) :
  In (computeID plan w) (hex_strings 16).
Proof.
  unfold computeID. apply hex_strings_complete.
  - apply length_slice_to.
  - apply slice_to_Forall, EncodeToString_hex.
Qed.

(** The fingerprint is the first 64 bits of the SHA-256 of what is hashed,
    in hexadecimal digits, and tells as much apart as they do. *)
Lemma computeID_first64 (plan : ProvisionResourceModel) (w : W) :
  computeID plan w = hex.EncodeToString (first64 (hashInput plan w)).
Proof.
  unfold computeID, first64. set (sum := sha256.Sum256 _).
  pose proof (Sum256_length (bytes_of (hashInput plan w))) as Hlen.
  fold sum in Hlen. clearbody sum.
  do 9 (destruct sum as [|? sum]; try discriminate Hlen). reflexivity.
Qed.

Lemma computeID_differs (p1 p2 : ProvisionResourceModel) (w1 w2 : W) :
  computeID p1 w1 <> computeID p2 w2
  <-> first64 (hashInput p1 w1) <> first64 (hashInput p2 w2).
Proof.
  rewrite !computeID_first64. split; intros H E; apply H.
  - now rewrite E.
  - exact (hex_inj _ _ (first64_range _) (first64_range _) E).
Qed.

(** C1, as amended.  Two declarations with the same VM identifier, the same
    list of files (destination and hashed content of each, in order), the
    same list of commands and the same sorted (key, value) pairs of
    triggers get the same fingerprint; and the sorted pairs of a map do not
    depend on the order in which its elements are visited.  The fingerprint
    is the first 64 bits of the SHA-256 of the byte sequence that
    [computeID] hashes, as 16 hexadecimal digits: two fingerprints differ
    exactly when those bits differ.  A change of one command, of the inline
    content of one file, of the bytes of one source file, or of the value
    string of one trigger changes that byte sequence, and so the
    fingerprint unless the first 64 bits of the two hashes collide.  (A
    null and an empty string are the same value string.) *)
Theorem C1_fingerprint_of_declaration :
  (forall (p1 p2 : ProvisionResourceModel) (w1 w2 : W),
      types.ValueString (VMID p1) = types.ValueString (VMID p2) ->
      map (fun f => (types.ValueString (Destination f), fileContent w1 f))
        (types.elements (Files p1))
      = map (fun f => (types.ValueString (Destination f), fileContent w2 f))
          (types.elements (Files p2)) ->
      types.elements (Commands p1) = types.elements (Commands p2) ->
      sortedPairs (types.elements (Triggers p1))
      = sortedPairs (types.elements (Triggers p2)) ->
      computeID p1 w1 = computeID p2 w2)
  /\ (forall m1 m2 : list (string * types.String),
        List.NoDup (map fst m1) -> Permutation m1 m2 ->
        sortedPairs m1 = sortedPairs m2)
  /\ (forall (p1 p2 : ProvisionResourceModel) (w1 w2 : W),
        computeID p1 w1 = hex.EncodeToString (first64 (hashInput p1 w1))
        /\ (computeID p1 w1 <> computeID p2 w2
            <-> first64 (hashInput p1 w1) <> first64 (hashInput p2 w2)))
  /\ (forall id vm files triggers (pre post : list string) (c c' : string) w,
        let p := mkModel id vm files (types.Known (pre ++ c :: post)) triggers in
        let p' := mkModel id vm files (types.Known (pre ++ c' :: post)) triggers in
        c <> c' ->
        hashInput p w <> hashInput p' w
        /\ (first64 (hashInput p w) <> first64 (hashInput p' w) ->
            computeID p w <> computeID p' w))
  /\ (forall id vm commands triggers (pre post : list FileBlock)
        source destination (c c' : string) w,
        let p := mkModel id vm
                   (types.Known (pre ++ mkFileBlock source (types.Known c) destination :: post))
                   commands triggers in
        let p' := mkModel id vm
                    (types.Known (pre ++ mkFileBlock source (types.Known c') destination :: post))
                    commands triggers in
        c <> c' ->
        hashInput p w <> hashInput p' w
        /\ (first64 (hashInput p w) <> first64 (hashInput p' w) ->
            computeID p w <> computeID p' w))
  /\ (forall (plan : ProvisionResourceModel) (pre post : list FileBlock)
        (f : FileBlock) (path c1 c2 : string) (w1 w2 : W),
        types.elements (Files plan) = pre ++ f :: post ->
        Source f = types.Known path ->
        os_ReadFile path w1 = Ok c1 ->
        os_ReadFile path w2 = Ok c2 ->
        c1 <> c2 ->
        map (fileBytes w1) pre = map (fileBytes w2) pre ->
        map (fileBytes w1) post = map (fileBytes w2) post ->
        hashInput plan w1 <> hashInput plan w2
        /\ (first64 (hashInput plan w1) <> first64 (hashInput plan w2) ->
            computeID plan w1 <> computeID plan w2))
  /\ (forall id vm files commands (pre post : list (string * types.String))
        (k : string) (v v' : types.String) w,
        let p := mkModel id vm files commands (types.Known (pre ++ (k, v) :: post)) in
        let p' := mkModel id vm files commands (types.Known (pre ++ (k, v') :: post)) in
        List.NoDup (map fst (pre ++ (k, v) :: post)) ->
        types.ValueString v <> types.ValueString v' ->
        hashInput p w <> hashInput p' w
        /\ (first64 (hashInput p w) <> first64 (hashInput p' w) ->
            computeID p w <> computeID p' w)).
Proof.
  split; [|split; [|split; [|split; [|split; [|split]]]]].
  - intros p1 p2 w1 w2 Hvm Hfiles Hcmds Htrig.
    unfold computeID, hashInput. rewrite Hvm, Hcmds, Htrig.
    assert (map (fileBytes w1) (types.elements (Files p1))
            = map (fileBytes w2) (types.elements (Files p2))) as ->; [|reflexivity].
    apply (f_equal (map (fun p : string * string => fst p +:+ snd p))) in Hfiles.
    rewrite !map_map in Hfiles. exact Hfiles.
  - apply sortedPairs_Permutation.
  - intros p1 p2 w1 w2. split; [apply computeID_first64 | apply computeID_differs].
  - intros id vm files triggers pre post c c' w p p' Hc.
    split; [|apply computeID_differs]. intros H.
    unfold hashInput in H. cbn [p p' VMID Files Commands Triggers types.elements] in H.
    apply str_app_inv_head, str_app_inv_head, str_app_inv_tail in H.
    revert H. now apply concat0_one_change.
  - intros id vm commands triggers pre post source destination c c' w p p' Hc.
    split; [|apply computeID_differs]. intros H.
    unfold hashInput in H. cbn [p p' VMID Files Commands Triggers types.elements] in H.
    apply str_app_inv_head, str_app_inv_tail in H.
    rewrite !map_app in H. cbn [map] in H.
    revert H. apply concat0_one_change.
    unfold fileBytes, fileContent. cbn [Source Content Destination types.IsNull negb].
    intros H. apply str_app_inv_head, str_app_inv_head in H. contradiction.
  - intros plan pre post f path c1 c2 w1 w2 Hfiles Hsrc H1 H2 Hc Hpre Hpost.
    split; [|apply computeID_differs]. intros H.
    unfold hashInput in H. rewrite Hfiles in H.
    apply str_app_inv_head, str_app_inv_tail in H.
    rewrite !map_app in H. cbn [map] in H. rewrite Hpre, Hpost in H.
    revert H. apply concat0_one_change.
    unfold fileBytes, fileContent. rewrite Hsrc.
    cbn [types.IsNull negb types.ValueString]. rewrite H1, H2.
    intros H. apply str_app_inv_head, str_app_inv_tail in H. contradiction.
  - intros id vm files commands pre post k v v' w p p' Hnd Hv.
    split; [|apply computeID_differs]. intros H.
    unfold hashInput in H. cbn [p p' VMID Files Commands Triggers types.elements] in H.
    apply str_app_inv_head, str_app_inv_head, str_app_inv_head in H.
    revert H. now apply triggers_one_change.
Qed.

End Fingerprint.

Lemma C1_witness :
  let w := st_world (sim.fresh "vm-1" sim.Up) in
  ProvisionResource.computeID
    (plan_triggers [("b", types.Known "2"); ("a", types.Known "1")]) w
  = ProvisionResource.computeID
      (plan_triggers [("a", types.Known "1"); ("b", types.Known "2")]) w
  /\ ProvisionResource.computeID (plan_command "apt-get update") w
     <> ProvisionResource.computeID (plan_command "apt-get upgrade") w
  /\ ProvisionResource.computeID
       (plan_triggers [("a", types.Known "1"); ("b", types.Known "2")]) w
     <> ProvisionResource.computeID
          (plan_triggers [("a", types.Known "1"); ("b", types.Known "3")]) w.
Proof.
  intros w.
  destruct (@C1_fingerprint_of_declaration sim.Sim sim.world)
    as (Hsame & Hperm & _ & Hcmd & _ & _ & Htrig).
  split; [|split].
  - apply (Hsame (plan_triggers [("b", types.Known "2"); ("a", types.Known "1")])
             (plan_triggers [("a", types.Known "1"); ("b", types.Known "2")]) w w).
    1-3: reflexivity.
    apply Hperm.
    + repeat constructor; simpl; intuition discriminate.
    + apply perm_swap.
  - apply (Hcmd types.Unknown (types.Known "vm-1") types.Null types.Null [] []
             "apt-get update" "apt-get upgrade" w ltac:(discriminate)).
    vm_compute. discriminate.
  - refine (proj2 (Htrig types.Unknown (types.Known "vm-1") types.Null
                     (types.Known ["true"]) [("a", types.Known "1")] [] "b"
                     (types.Known "2") (types.Known "3") w _ ltac:(discriminate)) _).
    + repeat constructor; simpl; intuition discriminate.
    + vm_compute. discriminate.
Defined.

(** C1, as stated, fails in its second half.  A trigger whose value goes
    from null to the empty string leaves the fingerprint as it was; and no
    function into the strings of 16 hexadecimal digits tells all command
    strings apart: there are two declarations that differ in their one
    command only and have the same fingerprint. *)
Lemma C1_counterexample :
  let w := st_world (sim.fresh "vm-1" sim.Up) in
  (types.Null <> types.Known ""
   /\ ProvisionResource.computeID (plan_triggers [("version", types.Null)]) w
      = ProvisionResource.computeID (plan_triggers [("version", types.Known "")]) w)
  /\ ~ (forall c c' : string,
          c <> c' ->
          ProvisionResource.computeID (plan_command c) w
          <> ProvisionResource.computeID (plan_command c') w).
Proof.
  intros w. split.
  - split; [discriminate|]. vm_compute. reflexivity.
  - apply (not_injective_into_finite _ (hex_strings 16)).
    intros c. apply computeID_fingerprint.
Qed.

(** ** The transfer encoding: base64 there and back *)

(** Bit operations on bounded numbers, as arithmetic. *)
Lemma lor_to_add (hi lo k : Z) :
  0 <= k -> 0 <= lo < 2 ^ k -> Z.lor (Z.shiftl hi k) lo = hi * 2 ^ k + lo.
Proof.
  intros Hk Hlo. rewrite Z.shiftl_mul_pow2 by assumption.
  rewrite <- Z.lxor_lor, <- Z.add_nocarry_lxor; try reflexivity.
  all: apply Z.bits_inj'; intros n Hn; rewrite Z.land_spec, Z.bits_0;
    destruct (Z.lt_ge_cases n k).
  all: try (rewrite Z.mul_pow2_bits_low by lia; reflexivity).
  all: assert (2 ^ k <= 2 ^ n) by (apply Z.pow_le_mono_r; lia).
  all: assert (Z.testbit lo n = false) as ->
         by (destruct (Z.eq_dec lo 0) as [->|]; [apply Z.bits_0|];
             apply Z.bits_above_log2; [lia|];
             apply Z.log2_lt_pow2; lia);
       apply Bool.andb_false_r.
Qed.

Lemma six_arith (val s : Z) :
  0 <= s -> Z.land (Z.shiftr val s) 63 = (val / 2 ^ s) mod 64.
Proof.
  intros Hs. change 63 with (Z.ones 6).
  rewrite Z.land_ones by lia. now rewrite Z.shiftr_div_pow2 by lia.
Qed.

Lemma six_range (val s : Z) : 0 <= s -> 0 <= Z.land (Z.shiftr val s) 63 < 64.
Proof. intros Hs. rewrite six_arith by assumption. apply Z.mod_pos_bound. lia. Qed.

Lemma octet_arith (val s : Z) :
  0 <= s -> sim.octet val s = (val / 2 ^ s) mod 256.
Proof.
  intros Hs. unfold sim.octet. change 255 with (Z.ones 8).
  rewrite Z.land_ones by lia. now rewrite Z.shiftr_div_pow2 by lia.
Qed.

Lemma quantum_arith (v0 v1 v2 v3 : Z) :
  0 <= v1 < 64 -> 0 <= v2 < 64 -> 0 <= v3 < 64 ->
  sim.quantum v0 v1 v2 v3 = v0 * 262144 + v1 * 4096 + v2 * 64 + v3.
Proof.
  intros H1 H2 H3. unfold sim.quantum.
  rewrite (lor_to_add v2 v3 6) by lia.
  rewrite (lor_to_add v1 _ 12) by lia.
  rewrite (lor_to_add v0 _ 18) by lia. lia.
Qed.

(** Three bytes, their four digits, and back. *)
Lemma group_of_three (b0 b1 b2 : Z) :
  0 <= b0 < 256 -> 0 <= b1 < 256 -> 0 <= b2 < 256 ->
  let val := Z.lor (Z.shiftl b0 16) (Z.lor (Z.shiftl b1 8) b2) in
  let q := sim.quantum (Z.land (Z.shiftr val 18) 63) (Z.land (Z.shiftr val 12) 63)
             (Z.land (Z.shiftr val 6) 63) (Z.land (Z.shiftr val 0) 63) in
  sim.octet q 16 = b0 /\ sim.octet q 8 = b1 /\ sim.octet q 0 = b2.
Proof.
  intros H0 H1 H2 val q. unfold q, val.
  rewrite (lor_to_add b1 b2 8), (lor_to_add b0 _ 16) by lia.
  rewrite !six_arith by lia.
  rewrite quantum_arith by (apply Z.mod_pos_bound; lia).
  rewrite !octet_arith by lia. pow2.
  repeat split; Z.div_mod_to_equations; lia.
Qed.

Lemma group_of_two (b0 b1 : Z) :
  0 <= b0 < 256 -> 0 <= b1 < 256 ->
  let val := Z.lor (Z.shiftl b0 16) (Z.shiftl b1 8) in
  let q := sim.quantum (Z.land (Z.shiftr val 18) 63) (Z.land (Z.shiftr val 12) 63)
             (Z.land (Z.shiftr val 6) 63) 0 in
  sim.octet q 16 = b0 /\ sim.octet q 8 = b1.
Proof.
  intros H0 H1 val q. unfold q, val.
  rewrite (lor_to_add b0 _ 16) by (rewrite ?Z.shiftl_mul_pow2 by lia; lia).
  rewrite Z.shiftl_mul_pow2 by lia.
  rewrite !six_arith by lia.
  rewrite quantum_arith by (try apply Z.mod_pos_bound; lia).
  rewrite !octet_arith by lia. pow2.
  repeat split; Z.div_mod_to_equations; lia.
Qed.

Lemma group_of_one (b0 : Z) :
  0 <= b0 < 256 ->
  let val := Z.shiftl b0 16 in
  let q := sim.quantum (Z.land (Z.shiftr val 18) 63) (Z.land (Z.shiftr val 12) 63)
             0 0 in
  sim.octet q 16 = b0.
Proof.
  intros H0 val q. unfold q, val.
  rewrite Z.shiftl_mul_pow2 by lia.
  rewrite !six_arith by lia.
  rewrite quantum_arith by (try apply Z.mod_pos_bound; lia).
  rewrite !octet_arith by lia. pow2.
  Z.div_mod_to_equations; lia.
Qed.

(** The 64 digits: each decodes to its value, and none is the padding, a
    line feed or a quote. *)
Lemma digit_properties (n : Z) :
  0 <= n < 64 ->
  sim.dec (base64.enc n) = Some n
  /\ Ascii.eqb (base64.enc n) "=" = false
  /\ Ascii.eqb (base64.enc n) "010" = false
  /\ Ascii.eqb (base64.enc n) "'" = false.
Proof.
  intros Hn.
  pose proof (below_forall
    (fun n => match sim.dec (base64.enc n) with
              | Some m => (m =? n) && negb (Ascii.eqb (base64.enc n) "=")
                          && negb (Ascii.eqb (base64.enc n) "010")
                          && negb (Ascii.eqb (base64.enc n) "'")
              | None => false
              end) 64 eq_refl n Hn) as H.
  cbv beta in H. destruct (sim.dec (base64.enc n)) as [m|]; [|discriminate].
  apply andb_prop in H as [H Hq]. apply andb_prop in H as [H Hnl].
  apply andb_prop in H as [Hm Hpad]. apply Z.eqb_eq in Hm. subst m.
  repeat split; now apply negb_true_iff.
Qed.

Lemma sextet_properties (val s : Z) :
  0 <= s ->
  sim.dec (base64.sextet val s) = Some (Z.land (Z.shiftr val s) 63)
  /\ Ascii.eqb (base64.sextet val s) "=" = false
  /\ Ascii.eqb (base64.sextet val s) "010" = false
  /\ Ascii.eqb (base64.sextet val s) "'" = false.
Proof. intros Hs. apply digit_properties, six_range, Hs. Qed.

(** Lists, three elements at a time. *)
Lemma list_ind3 {A : Type} (P : list A -> Prop) :
  P [] -> (forall a, P [a]) -> (forall a b, P [a; b]) ->
  (forall a b c l, P l -> P (a :: b :: c :: l)) ->
  forall l, P l.
Proof.
  intros H0 H1 H2 H3.
  assert (forall l, P l /\ (forall a, P (a :: l)) /\ (forall a b, P (a :: b :: l)))
    as H.
  { induction l as [|x l (IH0 & IH1 & IH2)]; auto. }
  intros l. apply H.
Qed.

(** Decoding what was encoded gives the bytes back. *)
Lemma decode_Encode (bs : list Z) :
  Forall (fun b => 0 <= b < 256) bs ->
  sim.decode_groups (base64.Encode bs) = Some bs.
Proof.
  induction bs as [| b0 | b0 b1 | b0 b1 b2 bs IH] using list_ind3; intros Hb.
  - reflexivity.
  - inversion Hb as [|? ? H0 _]; subst.
    cbn [base64.Encode sim.decode_groups].
    destruct (sextet_properties (Z.shiftl b0 16) 18) as (-> & _); [lia|].
    destruct (sextet_properties (Z.shiftl b0 16) 12) as (-> & _); [lia|].
    cbn - [sim.octet sim.quantum Z.shiftl Z.lor Z.land Z.shiftr].
    now rewrite (group_of_one b0 H0).
  - inversion Hb as [|? ? H0 Hb']; subst. inversion Hb' as [|? ? H1 _]; subst.
    cbn [base64.Encode sim.decode_groups].
    set (val := Z.lor (Z.shiftl b0 16) (Z.shiftl b1 8)).
    destruct (sextet_properties val 18) as (-> & _); [lia|].
    destruct (sextet_properties val 12) as (-> & _); [lia|].
    destruct (sextet_properties val 6) as (-> & -> & _); [lia|].
    cbn - [sim.octet sim.quantum Z.shiftl Z.lor Z.land Z.shiftr]. subst val.
    destruct (group_of_two b0 b1 H0 H1) as [-> ->]. reflexivity.
  - inversion Hb as [|? ? H0 Hb']; subst. inversion Hb' as [|? ? H1 Hb'']; subst.
    inversion Hb'' as [|? ? H2 Hbs]; subst.
    cbn [base64.Encode sim.decode_groups].
    set (val := Z.lor (Z.shiftl b0 16) (Z.lor (Z.shiftl b1 8) b2)).
    destruct (sextet_properties val 18) as (-> & _); [lia|].
    destruct (sextet_properties val 12) as (-> & _); [lia|].
    destruct (sextet_properties val 6) as (-> & -> & _); [lia|].
    destruct (sextet_properties val 0) as (-> & -> & _); [lia|].
    rewrite (IH Hbs). subst val.
    destruct (group_of_three b0 b1 b2 H0 H1 H2) as (-> & -> & ->). reflexivity.
Qed.

Lemma drop_newlines_app (a b : string) :
  sim.drop_newlines (a +:+ b) = sim.drop_newlines a +:+ sim.drop_newlines b.
Proof.
  induction a as [|c a IH]; [reflexivity|]. rewrite str_app_cons. simpl.
  destruct (Ascii.eqb c "010"); rewrite IH; reflexivity.
Qed.

(** The encoding has no line feed and no quote in it. *)
Lemma Encode_clean (bs : list Z) :
  sim.drop_newlines (base64.Encode bs) = base64.Encode bs
  /\ Forall (fun c => Ascii.eqb c "'" = false)
       (list_ascii_of_string (base64.Encode bs)).
Proof.
  induction bs as [| b0 | b0 b1 | b0 b1 b2 bs [IH1 IH2]] using list_ind3;
    cbn [base64.Encode sim.drop_newlines list_ascii_of_string].
  - split; [reflexivity | constructor].
  - destruct (sextet_properties (Z.shiftl b0 16) 18) as (_ & _ & -> & ?); [lia|].
    destruct (sextet_properties (Z.shiftl b0 16) 12) as (_ & _ & -> & ?); [lia|].
    split; [reflexivity | repeat constructor; assumption].
  - set (val := Z.lor (Z.shiftl b0 16) (Z.shiftl b1 8)).
    destruct (sextet_properties val 18) as (_ & _ & -> & ?); [lia|].
    destruct (sextet_properties val 12) as (_ & _ & -> & ?); [lia|].
    destruct (sextet_properties val 6) as (_ & _ & -> & ?); [lia|].
    split; [reflexivity | repeat constructor; assumption].
  - set (val := Z.lor (Z.shiftl b0 16) (Z.lor (Z.shiftl b1 8) b2)).
    destruct (sextet_properties val 18) as (_ & _ & -> & ?); [lia|].
    destruct (sextet_properties val 12) as (_ & _ & -> & ?); [lia|].
    destruct (sextet_properties val 6) as (_ & _ & -> & ?); [lia|].
    destruct (sextet_properties val 0) as (_ & _ & -> & ?); [lia|].
    rewrite IH1. split; [reflexivity | repeat (constructor; [assumption|]); exact IH2].
Qed.

Lemma bytes_of_range (s : string) : Forall (fun b => 0 <= b < 256) (bytes_of s).
Proof.
  induction s as [|c s IH]; constructor; [|exact IH].
  unfold byte_of. pose proof (N_ascii_bounded c). lia.
Qed.

Lemma string_of_bytes_of (s : string) : string_of (bytes_of s) = s.
Proof.
  induction s as [|c s IH]; [reflexivity|]. simpl. rewrite IH. f_equal.
  unfold char_of, byte_of. rewrite N2Z.id. apply ascii_N_embedding.
Qed.

(** [base64 -d] on what [echo] prints of the encoding: the content. *)
Lemma base64_d_EncodeToString (content : string) :
  sim.base64_d (base64.EncodeToString content +:+ nl) = Some content.
Proof.
  unfold sim.base64_d, base64.EncodeToString.
  rewrite drop_newlines_app.
  destruct (Encode_clean (bytes_of content)) as [-> _].
  change (sim.drop_newlines nl) with "". rewrite str_app_nil_r.
  rewrite decode_Encode by apply bytes_of_range.
  now rewrite string_of_bytes_of.
Qed.

(** ** Quoting for the shell of the VM *)

Lemma prefix_char (a c : ascii) (s : string) :
  String.prefix (String a "") (String c s) = Ascii.eqb c a.
Proof.
  assert (String.prefix "" s = true) as Hnil by (destruct s; reflexivity).
  change (String.prefix (String a "") (String c s))
    with (if ascii_dec a c then String.prefix "" s else false).
  rewrite Hnil.
  destruct (ascii_dec a c) as [<-|Hc]; [now rewrite Ascii.eqb_refl|].
  symmetry. apply Ascii.eqb_neq. congruence.
Qed.

(** [shellEscape], byte by byte: a quote becomes quote, backslash, quote,
    quote. *)
Lemma shellEscape_cons (c : ascii) (s : string) :
  client.shellEscape (String c s)
  = (if Ascii.eqb c "'" then "'\''" else String c "") +:+ client.shellEscape s.
Proof.
  unfold client.shellEscape, strings.ReplaceAll. cbn [strings.replace_from].
  rewrite prefix_char. destruct (Ascii.eqb c "'"); reflexivity.
Qed.

(** Inside single quotes, the escaped form of [p] is read as [p]. *)
Lemma lex_escaped (p cur rest : string) :
  sim.lex true (Some cur) (client.shellEscape p +:+ String "'" rest)
  = sim.lex false (Some (cur +:+ p)) rest.
Proof.
  revert cur. induction p as [|c p IH]; intros cur.
  { cbn [sim.lex]. now rewrite str_app_nil_r. }
  rewrite shellEscape_cons. destruct (Ascii.eqb_spec c "'") as [->|Hc].
  - rewrite !str_app_cons, str_app_nil_l. cbn [sim.lex Ascii.eqb Bool.eqb andb sim.push].
    cbn [default]. rewrite IH. unfold id. now rewrite str_app_assoc.
  - rewrite !str_app_cons, str_app_nil_l. cbn [sim.lex sim.push].
    apply Ascii.eqb_neq in Hc. rewrite Hc. rewrite IH. now rewrite str_app_assoc.
Qed.

(** Inside single quotes, a string without a quote is read as it is. *)
Lemma lex_quoted (body cur rest : string) :
  Forall (fun c => Ascii.eqb c "'" = false) (list_ascii_of_string body) ->
  sim.lex true (Some cur) (body +:+ String "'" rest)
  = sim.lex false (Some (cur +:+ body)) rest.
Proof.
  revert cur. induction body as [|c body IH]; intros cur H.
  { cbn [sim.lex]. now rewrite str_app_nil_r. }
  inversion H as [|? ? Hc Hbody]; subst.
  rewrite str_app_cons. cbn [sim.lex sim.push]. rewrite Hc, IH by assumption.
  now rewrite str_app_assoc.
Qed.
Lemma lex_mkdir (dir : string) :
  sim.lex false None ("mkdir -p '" +:+ client.shellEscape dir +:+ "'")
  = Some [sim.TWord "mkdir"; sim.TWord "-p"; sim.TWord dir].
Proof.
  rewrite !str_app_cons, ?str_app_nil_l;
    cbn [sim.lex sim.push sim.flush sim.operator sim.unsupported Ascii.eqb
         Bool.eqb andb orb existsb list_ascii_of_string default from_option];
    unfold id.
  rewrite lex_escaped. reflexivity.
Qed.

Lemma lex_cat (path : string) :
  sim.lex false None ("cat '" +:+ client.shellEscape path +:+ "'")
  = Some [sim.TWord "cat"; sim.TWord path].
Proof.
  rewrite !str_app_cons, ?str_app_nil_l;
    cbn [sim.lex sim.push sim.flush sim.operator sim.unsupported Ascii.eqb
         Bool.eqb andb orb existsb list_ascii_of_string default from_option];
    unfold id.
  rewrite lex_escaped. reflexivity.
Qed.

Lemma lex_write (encoded path : string) :
  Forall (fun c => Ascii.eqb c "'" = false) (list_ascii_of_string encoded) ->
  sim.lex false None ("echo '" +:+ encoded +:+ "' | base64 -d > '"
                        +:+ client.shellEscape path +:+ "'")
  = Some [sim.TWord "echo"; sim.TWord encoded; sim.TPipe; sim.TWord "base64";
          sim.TWord "-d"; sim.TGreat; sim.TWord path].
Proof.
  intros H.
  rewrite !str_app_cons, ?str_app_nil_l;
    cbn [sim.lex sim.push sim.flush sim.operator sim.unsupported Ascii.eqb
         Bool.eqb andb orb existsb list_ascii_of_string default from_option];
    unfold id.
  rewrite lex_quoted by assumption.
  rewrite !str_app_cons, ?str_app_nil_l;
    cbn [sim.lex sim.push sim.flush sim.operator sim.unsupported Ascii.eqb
         Bool.eqb andb orb existsb list_ascii_of_string default from_option];
    unfold id.
  rewrite lex_escaped. reflexivity.
Qed.

(** ** What can be passed to a process, and what the encoding is made of *)

Lemma has_byte_app (b : ascii) (x y : string) :
  sim.has_byte b (x +:+ y) = sim.has_byte b x || sim.has_byte b y.
Proof.
  induction x as [|c x IH]; [reflexivity|]. rewrite str_app_cons.
  cbn [sim.has_byte]. now rewrite IH, orb_assoc.
Qed.

Lemma has_byte_Forall (b : ascii) (s : string) :
  Forall (fun c => Ascii.eqb c b = false) (list_ascii_of_string s) ->
  sim.has_byte b s = false.
Proof.
  induction s as [|c s IH]; [reflexivity|]. cbn [list_ascii_of_string sim.has_byte].
  intros H. inversion H as [|? ? Hc Hs]; subst. now rewrite Hc, IH.
Qed.

Lemma has_byte_shellEscape (b : ascii) (s : string) :
  Ascii.eqb "'" b = false -> Ascii.eqb "\" b = false ->
  sim.has_byte b s = false -> sim.has_byte b (client.shellEscape s) = false.
Proof.
  intros Hq Hb. induction s as [|c s IH]; [reflexivity|].
  rewrite shellEscape_cons, has_byte_app. cbn [sim.has_byte].
  intros [Hc Hs]%orb_false_elim. rewrite (IH Hs), orb_false_r.
  destruct (Ascii.eqb c "'"); cbn [sim.has_byte]; [|now rewrite Hc].
  now rewrite Hq, Hb.
Qed.

Lemma shellEscape_app (a b : string) :
  client.shellEscape (a +:+ b) = client.shellEscape a +:+ client.shellEscape b.
Proof.
  induction a as [|c a IH]; [reflexivity|].
  now rewrite str_app_cons, !shellEscape_cons, IH, str_app_assoc.
Qed.

Lemma get_In_string (s : string) (n : nat) (c : ascii) :
  String.get n s = Some c -> In c (list_ascii_of_string s).
Proof.
  revert n. induction s as [|c' s IH]; intros [|n] H; try discriminate.
  - injection H as ->. now left.
  - right. exact (IH n H).
Qed.

(** Every character of an encoding is one of the 64 digits or the padding. *)
Lemma Encode_alphabet (P : ascii -> bool) (bs : list Z) :
  forallb P (list_ascii_of_string (base64.encodeStd +:+ "=")) = true ->
  Forall (fun c => P c = true) (list_ascii_of_string (base64.Encode bs)).
Proof.
  intros HP. rewrite forallb_forall in HP.
  assert (forall val s, P (base64.sextet val s) = true) as Hdigit.
  { intros val s. unfold base64.sextet, base64.enc.
    destruct (String.get _ base64.encodeStd) as [c|] eqn:E.
    - apply HP. rewrite list_of_app. apply in_or_app. left.
      exact (get_In_string _ _ _ E).
    - apply HP. now left. }
  assert (P "="%char = true) as Hpad.
  { apply HP. rewrite list_of_app. apply in_or_app. right. now left. }
  induction bs as [| b0 | b0 b1 | b0 b1 b2 bs IH] using list_ind3;
    cbn [base64.Encode list_ascii_of_string]; repeat constructor; auto.
Qed.

Lemma Encode_can_be_passed (content : string) :
  sim.has_byte "000" (base64.EncodeToString content) = false
  /\ sim.echoed (base64.EncodeToString content) = true.
Proof.
  unfold base64.EncodeToString. set (bs := bytes_of content).
  pose proof (Encode_alphabet (fun c => negb (Ascii.eqb c "000")) bs eq_refl) as H0.
  pose proof (Encode_alphabet (fun c => negb (Ascii.eqb c "\")) bs eq_refl) as H1.
  pose proof (Encode_alphabet (fun c => negb (Ascii.eqb c "-")) bs eq_refl) as H2.
  assert (forall b, Forall (fun c => negb (Ascii.eqb c b) = true)
                      (list_ascii_of_string (base64.Encode bs)) ->
                    sim.has_byte b (base64.Encode bs) = false) as Hno.
  { intros b H. apply has_byte_Forall. revert H. apply List.Forall_impl.
    intros c. apply negb_true_iff. }
  split; [now apply Hno|]. unfold sim.echoed, sim.option_like.
  rewrite (Hno _ H1), andb_true_r. apply negb_true_iff.
  destruct (base64.Encode bs) as [|c e]; [reflexivity|].
  rewrite prefix_char. inversion H2 as [|? ? Hc _]; subst.
  now apply negb_true_iff.
Qed.

(** A command that holds no NUL byte and is short enough can be passed
    wherever the arguments of the client alone can. *)
Lemma fits_command (s : client.SSHClient) (command : string) :
  fits s "" ->
  sim.has_byte "000" command = false ->
  Z.of_nat (String.length command) < sim.MAX_ARG_STRLEN ->
  fits s command.
Proof.
  unfold fits, sim.start_error. rewrite !existsb_app. cbn [existsb sim.has_byte].
  rewrite !orb_false_r. intros H Hnul Hlen. rewrite Hnul.
  destruct (existsb (sim.has_byte "000") (client.sshBaseArgs s)); [discriminate|].
  cbn [orb] in *.
  destruct (existsb _ (client.sshBaseArgs s)); [discriminate|]. cbn [orb].
  destruct (Z.leb_spec sim.MAX_ARG_STRLEN (Z.of_nat (String.length command)));
    [lia | reflexivity].
Qed.

(** ** Paths of the VM *)

Lemma upto_last_sep_plain (name : string) :
  has_separator name = false -> filepath.upto_last_sep name = "".
Proof.
  induction name as [|c name IH]; [reflexivity|].
  cbn [has_separator filepath.upto_last_sep]. intros H.
  apply orb_false_iff in H as [Hc Hrest]. rewrite Hc, (IH Hrest). reflexivity.
Qed.

Lemma Dir_plain (name : string) :
  has_separator name = false ->
  filepath.Dir name = "." /\ filepath.Dir ("/" +:+ name) = "/".
Proof.
  intros H. unfold filepath.Dir. rewrite str_app_cons, str_app_nil_l.
  cbn [filepath.upto_last_sep Ascii.eqb Bool.eqb andb].
  rewrite (upto_last_sep_plain name H). split; reflexivity.
Qed.

Lemma guest_name_plain (name : string) :
  guest_name name ->
  has_separator name = false
  /\ sim.stays name = false
  /\ String.eqb name ".." = false
  /\ (sim.NAME_MAX <? Z.of_nat (String.length name)) = false.
Proof.
  intros ((Hsep & Hne & Hdot & Hdots) & _ & Hlen). unfold sim.stays.
  rewrite Hne, Hdot. repeat split; auto. now apply Z.ltb_ge.
Qed.

Lemma Join_cons (name : string) (names : list string) :
  names <> [] ->
  strings.Join (name :: names) "/" = name +:+ String "/" (strings.Join names "/").
Proof. destruct names; [congruence | reflexivity]. Qed.

Lemma Join_snoc (names : list string) (name : string) :
  names <> [] ->
  strings.Join (names ++ [name]) "/"
  = strings.Join names "/" +:+ String "/" name.
Proof.
  intros H. unfold strings.Join. rewrite concat_snoc.
  destruct names; [congruence | reflexivity].
Qed.

Lemma Split_Join (names : list string) :
  names <> [] -> Forall (fun n => has_separator n = false) names ->
  strings.Split (strings.Join names "/") "/" = names.
Proof.
  unfold strings.Split. induction names as [|n rest IH]; [congruence|].
  intros _ H. inversion H as [|? ? Hn Hrest]; subst.
  destruct rest as [|m rest].
  - change (strings.Join [n] "/") with n. now rewrite split_go_element.
  - rewrite Join_cons by discriminate.
    rewrite split_go_app, split_go_element by assumption.
    cbn [String.rev_app app]. f_equal. apply IH; [discriminate | assumption].
Qed.

Lemma Split_path_of (names : list string) :
  names <> [] -> Forall guest_name names ->
  strings.Split (path_of names) "/" = "" :: names.
Proof.
  intros Hne H. unfold path_of, strings.Split.
  change ("/" +:+ strings.Join names "/")
    with ("" +:+ String "/" (strings.Join names "/")).
  rewrite split_go_app. cbn [strings.split_go app]. f_equal.
  apply Split_Join; [assumption|]. revert H. apply List.Forall_impl.
  intros n Hn. apply (guest_name_plain n Hn).
Qed.

Lemma path_of_snoc (init : list string) (name : string) :
  init <> [] -> path_of (init ++ [name]) = path_of init +:+ String "/" name.
Proof.
  intros H. unfold path_of. now rewrite Join_snoc, str_app_assoc by assumption.
Qed.

Lemma rooted_path_of (names : list string) (rest : string) :
  String.prefix "/" (path_of names +:+ rest) = true.
Proof. unfold path_of. rewrite !str_app_cons. now rewrite prefix_separator. Qed.

Lemma start_of_path_of (files : sim.Tree) (names : list string) :
  sim.start_of files (path_of names) = [].
Proof.
  unfold sim.start_of. rewrite <- (str_app_nil_r (path_of names)).
  now rewrite rooted_path_of.
Qed.

Lemma upto_last_sep_app (a name : string) :
  has_separator name = false ->
  filepath.upto_last_sep (a +:+ String "/" name) = a +:+ "/".
Proof.
  intros H. induction a as [|c a IH].
  - rewrite str_app_nil_l. cbn [filepath.upto_last_sep].
    rewrite (upto_last_sep_plain name H). reflexivity.
  - rewrite !str_app_cons. cbn [filepath.upto_last_sep]. rewrite IH.
    destruct (Ascii.eqb c "/"); [reflexivity|].
    destruct (a +:+ "/") eqn:E; [|reflexivity]. destruct a; discriminate E.
Qed.

Lemma fold_clean_plain (rooted : bool) (names kept : list string) :
  Forall plain_name names ->
  fold_left (filepath.clean_step rooted) names kept = rev names ++ kept.
Proof.
  revert kept. induction names as [|n rest IH]; intros kept H; [reflexivity|].
  inversion H as [|? ? Hn Hrest]; subst. cbn [fold_left rev].
  rewrite (clean_step_plain _ _ _ Hn), IH by assumption.
  now rewrite <- app_assoc.
Qed.

(** The parent of the place [init ++ [name]] is the place [init]. *)
Lemma Dir_path_of (init : list string) (name : string) :
  Forall guest_name init -> guest_name name ->
  filepath.Dir (path_of (init ++ [name]))
  = if decide (init = []) then "/" else path_of init.
Proof.
  intros Hinit Hname. pose proof (guest_name_plain name Hname) as (Hsep & _).
  destruct (decide (init = [])) as [->|Hne].
  { exact (proj2 (Dir_plain name Hsep)). }
  unfold filepath.Dir. rewrite path_of_snoc, upto_last_sep_app by assumption.
  unfold filepath.Clean. rewrite rooted_path_of.
  assert (strings.Split (path_of init +:+ "/") "/" = ("" :: init) ++ [""]) as ->.
  { unfold strings.Split.
    change (path_of init +:+ "/") with (path_of init +:+ String "/" "").
    rewrite split_go_app. fold (strings.Split (path_of init) "/").
    now rewrite Split_path_of. }
  rewrite fold_left_app. cbn [fold_left].
  change (filepath.clean_step true [] "") with (@nil string).
  rewrite fold_clean_plain.
  2:{ revert Hinit. apply List.Forall_impl. now intros n (Hn & _). }
  change (filepath.clean_step true (rev init ++ []) "") with (rev init ++ []).
  rewrite app_nil_r, rev_involutive. fold (path_of init).
  reflexivity.
Qed.

Lemma is_folder_snoc (files : sim.Tree) (place : list string) (name : string) :
  sim.is_folder files (place ++ [name])
  = match files !! (place ++ [name]) with
    | Some sim.Folder => true
    | _ => false
    end.
Proof. destruct place; reflexivity. Qed.

Lemma walk_folders (files : sim.Tree) (place names : list string) :
  Forall guest_name names -> folders files place names ->
  sim.walk files place names = Some (place ++ names).
Proof.
  revert place. induction names as [|n rest IH]; intros place Hn H.
  { now rewrite app_nil_r. }
  inversion Hn as [|? ? Hn0 Hrest]; subst. destruct H as [Hf H].
  destruct (guest_name_plain n Hn0) as (_ & Hstay & Hdots & Hlen).
  cbn [sim.walk]. rewrite Hstay, Hdots, Hlen, is_folder_snoc, Hf.
  rewrite (IH _ Hrest H). now rewrite <- app_assoc.
Qed.

Lemma folders_insert (files : sim.Tree) (k : list string) (v : sim.Node)
  (place names : list string) :
  (length place + length names < length k)%nat ->
  folders files place names -> folders (<[k := v]> files) place names.
Proof.
  revert place. induction names as [|n rest IH]; intros place Hk H; [exact I|].
  destruct H as [Hf H]. cbn [length] in Hk. split.
  - rewrite lookup_insert_ne; [exact Hf|]. intros ->.
    rewrite length_app in Hk. cbn [length] in Hk. lia.
  - apply IH; [|exact H]. rewrite length_app. cbn [length]. lia.
Qed.

Lemma folders_made (files : sim.Tree) (k place names : list string) :
  (length k <= length place)%nat ->
  folders files place names -> folders (<[k := sim.Folder]> files) place names.
Proof.
  revert place. induction names as [|n rest IH]; intros place Hk H; [exact I|].
  destruct H as [Hf H]. split.
  - rewrite lookup_insert_ne; [exact Hf|]. intros ->.
    rewrite length_app in Hk. cbn [length] in Hk. lia.
  - apply IH; [|exact H]. rewrite length_app. cbn [length]. lia.
Qed.

Lemma clear_insert (files : sim.Tree) (k : list string) (v : sim.Node)
  (place names : list string) :
  (length k <= length place)%nat ->
  clear (<[k := v]> files) place names = clear files place names.
Proof.
  revert place. induction names as [|n rest IH]; intros place Hk; [reflexivity|].
  assert (k <> place ++ [n]) as Hne.
  { intros ->. rewrite length_app in Hk. cbn [length] in Hk. lia. }
  cbn [clear]. rewrite lookup_insert_ne by exact Hne.
  rewrite IH; [reflexivity|]. rewrite length_app. cbn [length]. lia.
Qed.

Lemma clear_cons (files : sim.Tree) (place : list string) (name : string)
  (rest : list string) :
  rest <> [] ->
  clear files place (name :: rest)
  = match files !! (place ++ [name]) with
    | Some (sim.File _) => false
    | _ => clear files (place ++ [name]) rest
    end.
Proof. destruct rest; [congruence | reflexivity]. Qed.

Lemma make_keeps_folder (files files' : sim.Tree) (place names k : list string) :
  sim.make files place names = (files', true) ->
  files !! k = Some sim.Folder -> files' !! k = Some sim.Folder.
Proof.
  revert files place. induction names as [|m rest IH]; intros files place Em Hf.
  { cbn [sim.make] in Em. injection Em as <-. exact Hf. }
  cbn [sim.make] in Em.
  destruct (sim.stays m); [exact (IH _ _ Em Hf)|].
  destruct (String.eqb m ".."); [exact (IH _ _ Em Hf)|].
  destruct (sim.NAME_MAX <? _); [discriminate|].
  destruct (files !! (place ++ [m])) as [[|c]|] eqn:E; try discriminate.
  - exact (IH _ _ Em Hf).
  - apply (IH _ _ Em). destruct (decide (place ++ [m] = k)) as [->|Hne].
    + apply lookup_insert_eq.
    + now rewrite lookup_insert_ne.
Qed.

(** [mkdir -p] towards a place with nothing in the way: the folders are
    there afterwards, and still no folder is at the place itself. *)
Lemma make_clear (files : sim.Tree) (place init : list string) (name : string) :
  Forall guest_name init ->
  clear files place (init ++ [name]) = true ->
  exists files',
    sim.make files place init = (files', true)
    /\ folders files' place init
    /\ files' !! (place ++ init ++ [name]) <> Some sim.Folder
    /\ (init = [] -> files' = files).
Proof.
  revert files place. induction init as [|n rest IH]; intros files place Hn H.
  { exists files. cbn [sim.make folders app clear] in *.
    split; [reflexivity|]. split; [exact I|]. split; [|reflexivity].
    intros E. rewrite E in H. discriminate H. }
  inversion Hn as [|? ? Hn0 Hrest]; subst.
  destruct (guest_name_plain n Hn0) as (_ & Hstay & Hdots & Hlen).
  cbn [sim.make]. rewrite Hstay, Hdots, Hlen.
  change ((n :: rest) ++ [name]) with (n :: (rest ++ [name])) in H.
  rewrite clear_cons in H by (destruct rest; discriminate).
  assert (forall files0,
            files0 !! (place ++ [n]) = Some sim.Folder ->
            clear files0 (place ++ [n]) (rest ++ [name]) = true ->
            exists files',
              sim.make files0 (place ++ [n]) rest = (files', true)
              /\ folders files' place (n :: rest)
              /\ files' !! (place ++ (n :: rest) ++ [name]) <> Some sim.Folder)
    as Hstep.
  { intros files0 Hf Hc. destruct (IH files0 (place ++ [n]) Hrest Hc)
      as (files' & Em & Hfs & Hfree & _).
    exists files'. split; [exact Em|]. split.
    - split; [|exact Hfs]. exact (make_keeps_folder _ _ _ _ _ Em Hf).
    - now rewrite <- app_assoc in Hfree. }
  destruct (files !! (place ++ [n])) as [[|c]|] eqn:E; [| discriminate |].
  - destruct (Hstep files E H) as (files' & Em & Hfs & Hfree).
    exists files'. split; [exact Em|]. split; [exact Hfs|].
    split; [exact Hfree | discriminate].
  - destruct (Hstep (<[place ++ [n] := sim.Folder]> files)) as (files' & Em & Hfs & Hfree).
    { apply lookup_insert_eq. }
    { rewrite clear_insert; [exact H | lia]. }
    exists files'. split; [exact Em|]. split; [exact Hfs|].
    split; [exact Hfree | discriminate].
Qed.

(** ** The commands of the transport on the VM *)

Lemma run_mkdir (files : sim.Tree) (dir : string) :
  sim.option_like dir = false ->
  sim.run files ("mkdir -p '" +:+ client.shellEscape dir +:+ "'")
  = let '(files', made) := sim.mkdir_p files dir in
    sim.Exited (if made then 0 else 1) "" files'.
Proof.
  intros H. unfold sim.run. rewrite lex_mkdir.
  cbn [sim.words_of mapM mbind option_bind mret option_ret fmap option_fmap option_map].
  unfold sim.builtin. cbn [String.eqb Ascii.eqb Bool.eqb andb]. now rewrite H.
Qed.


Lemma run_write (files files' : sim.Tree) (content path : string) :
  sim.store files path content = Some files' ->
  sim.run files ("echo '" +:+ base64.EncodeToString content +:+ "' | base64 -d > '"
                   +:+ client.shellEscape path +:+ "'")
  = sim.Exited 0 "" files'.
Proof.
  intros Hstore. unfold sim.run. rewrite lex_write.
  2:{ apply Encode_clean. }
  cbn [String.eqb Ascii.eqb Bool.eqb andb].
  rewrite (proj2 (Encode_can_be_passed content)). cbn [andb].
  now rewrite base64_d_EncodeToString, Hstore.
Qed.

Lemma no_nul_path_of (names : list string) :
  Forall guest_name names -> sim.has_byte "000" (path_of names) = false.
Proof.
  intros H. unfold path_of. rewrite has_byte_app.
  change (sim.has_byte "000" "/") with false. cbn [orb].
  induction H as [|n rest (_ & Hn & _) _ IH]; [reflexivity|].
  destruct rest as [|m rest]; [exact Hn|].
  rewrite Join_cons by discriminate.
  change (n +:+ String "/" (strings.Join (m :: rest) "/"))
    with (n +:+ ("/" +:+ strings.Join (m :: rest) "/")).
  rewrite !has_byte_app, Hn, IH. reflexivity.
Qed.

(** The place of an absolute path of names, once the folders are there. *)
Lemma place_of_path_of (files : sim.Tree) (init : list string) (name : string) :
  Forall guest_name init -> guest_name name ->
  Z.of_nat (String.length (path_of (init ++ [name]))) < sim.PATH_MAX ->
  folders files [] init ->
  sim.place_of files (path_of (init ++ [name])) = Some (init ++ [name]).
Proof.
  intros Hinit Hname Hlen Hf. unfold sim.place_of.
  assert (String.eqb (path_of (init ++ [name])) "" = false) as -> by reflexivity.
  destruct (Z.leb_spec sim.PATH_MAX
              (Z.of_nat (String.length (path_of (init ++ [name]))))); [lia|].
  rewrite Split_path_of.
  2:{ destruct init; discriminate. }
  2:{ apply Forall_app. split; [assumption | now constructor]. }
  change ("" :: init ++ [name]) with (("" :: init) ++ [name]).
  rewrite last_last, removelast_last.
  destruct (guest_name_plain name Hname) as (_ & -> & -> & ->). cbn [orb].
  rewrite start_of_path_of.
  cbn [sim.walk sim.stays String.eqb orb].
  now rewrite (walk_folders files [] init Hinit Hf).
Qed.

(** [Exec] in the simulated world, for a command that can be passed and
    that exits with status 0 on a VM that is up. *)
Lemma Exec_sim (s : client.SSHClient) (command : string) (st : St sim.Sim)
  code out files :
  sim.sim_vm (st_world st) = sim.Up ->
  fits s command ->
  sim.run (sim.sim_remote (st_world st)) command = sim.Exited code out files ->
  code = 0 ->
  client.Exec s command st
  = Done (out, None)
      (mkSt (sim.set_remote files (st_world st)) (st_now st + 1000000)
         (st_trace st ++ [EvSSH (client.sshBaseArgs s ++ [command])])).
Proof.
  intros Hup Hfits Hrun ->. unfold client.Exec.
  cbn [ssh_spawn ssh_done sim.world]. unfold sim.spawn, sim.finish.
  unfold fits in Hfits. rewrite Hfits, last_last, Hup, Hrun. reflexivity.
Qed.

(** [WriteFile] in the simulated world, to the place [init ++ [name]] with
    nothing in the way: the file is there afterwards, under its folders. *)
Lemma WriteFile_sim (s : client.SSHClient) (init : list string)
  (name content : string) (st : St sim.Sim) :
  let remotePath := path_of (init ++ [name]) in
  sim.sim_vm (st_world st) = sim.Up ->
  fits s "" ->
  Forall guest_name init -> guest_name name ->
  Z.of_nat (String.length remotePath) < sim.PATH_MAX ->
  Z.of_nat (String.length (base64.EncodeToString content))
  + Z.of_nat (String.length (client.shellEscape remotePath)) + 24
  < sim.MAX_ARG_STRLEN ->
  clear (sim.sim_remote (st_world st)) [] (init ++ [name]) = true ->
  exists st1 files',
    client.WriteFile s remotePath content st = Done None st1
    /\ st_world st1
       = sim.set_remote (<[init ++ [name] := sim.File content]> files') (st_world st)
    /\ folders files' [] init
    /\ (init = [] -> files' = sim.sim_remote (st_world st))
    /\ sim.fetch (sim.sim_remote (st_world st1)) remotePath = Some content.
Proof.
  intros remotePath Hup Hs Hinit Hname Hpath Hlen Hclear. subst remotePath.
  set (remotePath := path_of (init ++ [name])) in *.
  pose proof no_nul_path_of as Hnul.
  assert (Forall guest_name (init ++ [name])) as Hall.
  { apply Forall_app. split; [assumption | now constructor]. }
  pose proof (has_byte_shellEscape "000" remotePath eq_refl eq_refl (Hnul _ Hall))
    as Hnul_path.
  destruct (make_clear _ [] init name Hinit Hclear)
    as (files' & Emake & Hfolders & Hfree & Hsame).
  cbn [app] in Hfree.
  unfold client.WriteFile. unfold remotePath at 1 2 3.
  rewrite (Dir_path_of init name Hinit Hname). fold remotePath.
  (* the parent directory *)
  assert (exists st0,
    (let dir := if decide (init = []) then "/" else path_of init in
     if negb (String.eqb dir ".") && negb (String.eqb dir "/")
     then r <- client.Exec s ("mkdir -p '" +:+ client.shellEscape dir +:+ "'") ;;
          ret (snd r)
     else ret None) st = Done None st0
    /\ st_world st0 = sim.set_remote files' (st_world st)) as (st0 & E0 & Hw0).
  { destruct (decide (init = [])) as [Hnil|Hne].
    - exists st. split; [reflexivity|]. rewrite (Hsame Hnil).
      now destruct (st_world st).
    - cbv zeta.
      assert (negb (String.eqb (path_of init) ".")
              && negb (String.eqb (path_of init) "/") = true) as Hdir.
      { unfold path_of. destruct init as [|n0 rest]; [congruence|].
        destruct (guest_name_plain n0 ltac:(now inversion Hinit)) as (_ & Hstay & _).
        unfold sim.stays in Hstay. apply orb_false_elim in Hstay as [Hempty _].
        destruct n0 as [|c n0]; [discriminate Hempty|].
        destruct rest; reflexivity. }
      rewrite Hdir. unfold bind.
      assert (fits s ("mkdir -p '" +:+ client.shellEscape (path_of init) +:+ "'"))
        as Hfits.
      { apply fits_command; [exact Hs | |].
        - rewrite !has_byte_app. cbn [sim.has_byte Ascii.eqb Bool.eqb andb orb].
          rewrite (has_byte_shellEscape "000" _ eq_refl eq_refl (Hnul _ Hinit)).
          reflexivity.
        - unfold remotePath in Hlen. rewrite path_of_snoc in Hlen by exact Hne.
          rewrite shellEscape_app in Hlen.
          rewrite !str_length_app in *. cbn [String.length] in *.
          unfold sim.MAX_ARG_STRLEN in *. lia. }
      pose proof (run_mkdir (sim.sim_remote (st_world st)) (path_of init) eq_refl)
        as Hrun.
      unfold sim.mkdir_p in Hrun.
      assert (String.eqb (path_of init) "" = false) as Hne' by reflexivity.
      rewrite Hne' in Hrun.
      rewrite (Split_path_of init Hne Hinit) in Hrun.
      rewrite start_of_path_of in Hrun.
      cbn [sim.make sim.stays String.eqb orb] in Hrun.
      rewrite Emake in Hrun.
      rewrite (Exec_sim s _ st 0 "" _ Hup Hfits Hrun eq_refl).
      eexists. split; [reflexivity|]. reflexivity. }
  unfold bind at 1. cbv zeta in E0. rewrite E0.
  assert (sim.sim_vm (st_world st0) = sim.Up) as Hup0.
  { rewrite Hw0. now destruct (st_world st). }
  assert (sim.sim_remote (st_world st0) = files') as Hr0.
  { rewrite Hw0. now destruct (st_world st). }
  (* the write itself *)
  assert (sim.store files' remotePath content
          = Some (<[init ++ [name] := sim.File content]> files')) as Hstore.
  { unfold sim.store, remotePath.
    rewrite (place_of_path_of files' init name Hinit Hname Hpath Hfolders).
    destruct (files' !! (init ++ [name])) as [[|c]|]; [contradiction | |]; reflexivity. }
  assert (fits s ("echo '" +:+ base64.EncodeToString content +:+ "' | base64 -d > '"
                    +:+ client.shellEscape remotePath +:+ "'")) as Hfits.
  { apply fits_command; [exact Hs | |].
    - rewrite !has_byte_app. cbn [sim.has_byte Ascii.eqb Bool.eqb andb orb].
      rewrite (proj1 (Encode_can_be_passed content)), Hnul_path. reflexivity.
    - rewrite !str_length_app. cbn [String.length].
      unfold sim.MAX_ARG_STRLEN in *. lia. }
  pose proof (run_write files' _ content remotePath Hstore) as Hrun.
  rewrite <- Hr0 in Hrun at 1.
  unfold bind.
  rewrite (Exec_sim s _ st0 0 "" _ Hup0 Hfits Hrun eq_refl). cbn [snd].
  do 2 eexists. split; [reflexivity|]. cbn [st_world].
  split; [rewrite Hw0; now destruct (st_world st)|].
  split; [exact Hfolders|]. split; [exact Hsame|].
  cbn [sim.sim_remote sim.set_remote]. unfold sim.fetch, remotePath.
  rewrite place_of_path_of; auto.
  - now rewrite lookup_insert_eq.
  - apply folders_insert; [|exact Hfolders]. rewrite length_app. cbn [length]. lia.
Qed.





(** * Further properties of the transport and of the resources *)

(** ** What a run adds to the trace *)

Section Shape.
Context {W : Type} {world : World W}.

Lemma adds_ret {A : Type} (P : Event -> Prop) (a : A) : adds P (ret (W := W) a).
Proof. intros st. exists []. cbn. rewrite app_nil_r. auto. Qed.

Lemma adds_bind {A B : Type} (P : Event -> Prop) (m : M W A) (k : A -> M W B) :
  adds P m -> (forall a, adds P (k a)) -> adds P (bind m k).
Proof.
  intros Hm Hk st. unfold bind. destruct (Hm st) as (e1 & E1 & F1).
  destruct (m st) as [a s1|s1]; cbn [state_of] in *.
  - destruct (Hk a s1) as (e2 & E2 & F2). exists (e1 ++ e2).
    rewrite E2, E1, app_assoc. split; [reflexivity|].
    apply Forall_app. auto.
  - exists e1. auto.
Qed.

Lemma adds_weaken {A : Type} (P Q : Event -> Prop) (m : M W A) :
  (forall e, P e -> Q e) -> adds P m -> adds Q m.
Proof.
  intros HPQ Hm st. destruct (Hm st) as (evs & E & F).
  exists evs. split; [exact E|]. eapply Forall_impl; eauto.
Qed.

Lemma adds_emit (P : Event -> Prop) (e : Event) : P e -> adds P (emit (W := W) e).
Proof. intros He st. exists [e]. cbn. auto. Qed.

Lemma adds_tflog (P : Event -> Prop) (l : Level) (msg : string) :
  P (EvLog l msg) -> adds P (tflog (W := W) l msg).
Proof. apply adds_emit. Qed.

Lemma adds_call {A : Type} (P : Event -> Prop) (e : Event) (f : W -> A * W) :
  P e -> adds P (call e f).
Proof.
  intros He st. exists [e]. unfold call. destruct (f (st_world st)). cbn. auto.
Qed.

Lemma adds_ask {A : Type} (P : Event -> Prop) (f : W -> A) : adds P (ask f).
Proof. intros st. exists []. cbn. rewrite app_nil_r. auto. Qed.

Lemma adds_time_Now (P : Event -> Prop) : adds P (time_Now (W := W)).
Proof. intros st. exists []. cbn. rewrite app_nil_r. auto. Qed.

Lemma adds_time_Sleep (P : Event -> Prop) (d : Z) :
  P (EvSleep d) -> adds P (time_Sleep (W := W) d).
Proof. intros He st. exists [EvSleep d]. cbn. auto. Qed.

Lemma adds_Exec (P : Event -> Prop) (s : client.SSHClient) (command : string) :
  P (EvSSH (client.sshBaseArgs s ++ [command])) ->
  adds P (client.Exec s command).
Proof.
  intros He st. exists [EvSSH (client.sshBaseArgs s ++ [command])].
  unfold client.Exec.
  destruct (proc_start _); [|destruct (proc_exit _); [destruct (proc_wait _)|]];
    cbn; auto.
Qed.

Lemma adds_ExecWithTimeout (P : Event -> Prop) (s : client.SSHClient)
  (command : string) (timeout : Z) :
  P (EvSSH (client.sshBaseArgs s ++ [command])) ->
  P (EvKill (client.sshBaseArgs s ++ [command])) ->
  adds P (client.ExecWithTimeout s command timeout).
Proof.
  intros Hs Hk st.
  destruct (ExecWithTimeout_returns s command timeout st)
    as (out & err & st' & kill & E & Htr & Hkill & _).
  rewrite E. cbn [state_of]. eexists. split; [exact Htr|].
  destruct Hkill as [-> | ->]; auto.
Qed.

End Shape.


(** One step of a proof that a piece of code only adds events of its
    client. *)
Ltac adds_step :=
  match goal with
  | |- adds _ (bind _ _) => apply adds_bind
  | |- adds _ (ret _) => apply adds_ret
  | |- adds _ (ask _) => apply adds_ask
  | |- adds _ time_Now => apply adds_time_Now
  | |- adds _ (tflog _ _) => apply adds_tflog; exact I
  | |- adds _ (time_Sleep _) => apply adds_time_Sleep; exact I
  | |- adds _ (client.Exec _ _) => apply adds_Exec; eexists; reflexivity
  | |- adds _ (client.ExecWithTimeout _ _ _) =>
      apply adds_ExecWithTimeout; eexists; reflexivity
  | |- adds _ (match ?x with _ => _ end) => destruct x
  | |- forall _, _ => intro
  end.

Section Transport_shape.
Context {W : Type} {world : World W}.

Lemma WriteFile_of_client (ssh : client.SSHClient) (remotePath content : string) :
  adds (W := W) (of_client ssh) (client.WriteFile ssh remotePath content).
Proof. unfold client.WriteFile. repeat adds_step. Qed.

Lemma UploadFile_of_client (ssh : client.SSHClient) (localPath remotePath : string) :
  adds (W := W) (of_client ssh) (client.UploadFile ssh localPath remotePath).
Proof.
  unfold client.UploadFile. repeat adds_step. apply WriteFile_of_client.
Qed.

Lemma WaitReachable_loop_of_client (ssh : client.SSHClient) (n : nat)
  (deadline : Z) (lastErr : option error) :
  adds (W := W) (of_client ssh) (client.WaitReachable_loop n ssh deadline lastErr).
Proof.
  revert lastErr. induction n as [|n IH]; intros lastErr;
    cbn [client.WaitReachable_loop].
  - apply adds_bind; [adds_step|]. intros now.
    destruct (now <? deadline); [|adds_step].
    intros st. exists []. cbn. rewrite app_nil_r. auto.
  - apply adds_bind; [adds_step|]. intros now.
    destruct (now <? deadline); [|adds_step].
    apply adds_bind; [adds_step|]. intros [out err].
    destruct (_ && _); [adds_step|].
    apply adds_bind; [adds_step|]. intros _. apply IH.
Qed.

Lemma WaitReachable_of_client (ssh : client.SSHClient) (timeout : Z) :
  adds (W := W) (of_client ssh) (client.WaitReachable ssh timeout).
Proof.
  unfold client.WaitReachable.
  apply adds_bind; [adds_step|]. intros now.
  apply adds_bind; [apply WaitReachable_loop_of_client|].
  repeat adds_step.
Qed.

End Transport_shape.

(** ** The shape of a provisioning run *)

Lemma of_client_events (ssh : client.SSHClient) (evs : list Event) :
  Forall (of_client ssh) evs ->
  Forall (fun args => exists command, args = client.sshBaseArgs ssh ++ [command])
    (started evs)
  /\ filter is_remote evs = map EvSSH (started evs)
  /\ filter is_local evs = []
  /\ commits evs = [].
Proof.
  unfold started, commits.
  induction 1 as [|e evs He _ (IH1 & IH2 & IH3 & IH4)]; [repeat split; constructor|].
  destruct e; cbn in He |- *; try contradiction;
    rewrite ?decide_True by exact I; rewrite ?decide_False by (intros []);
    repeat split; auto; f_equal; exact IH2.
Qed.

Section Provision_shape.
Context {W : Type} {world : World W}.
Import ProvisionResource.

Lemma uploadFiles_Create_of_client ssh i files :
  adds (W := W) (of_client ssh) (uploadFiles_Create ssh i files).
Proof.
  revert i. induction files as [|f rest IH]; intros i;
    cbn [uploadFiles_Create]; [adds_step|].
  destruct (source_given f); [|destruct (content_given f); [|adds_step]].
  - apply adds_bind; [adds_step|]. intros _.
    apply adds_bind; [apply UploadFile_of_client|].
    intros [e|]; [adds_step | apply IH].
  - apply adds_bind; [adds_step|]. intros _.
    apply adds_bind; [apply WriteFile_of_client|].
    intros [e|]; [adds_step | apply IH].
Qed.

Lemma uploadFiles_Update_of_client ssh files :
  adds (W := W) (of_client ssh) (uploadFiles_Update ssh files).
Proof.
  induction files as [|f rest IH]; cbn [uploadFiles_Update]; [adds_step|].
  destruct (source_given f); [|destruct (content_given f); [|exact IH]].
  - apply adds_bind; [apply UploadFile_of_client|].
    intros [e|]; [adds_step | apply IH].
  - apply adds_bind; [apply WriteFile_of_client|].
    intros [e|]; [adds_step | apply IH].
Qed.

Lemma runCommands_Create_of_client ssh n i commands :
  adds (W := W) (of_client ssh) (runCommands_Create ssh n i commands).
Proof.
  revert i. induction commands as [|c rest IH]; intros i;
    cbn [runCommands_Create]; [adds_step|].
  apply adds_bind; [adds_step|]. intros _.
  apply adds_bind; [adds_step|]. intros [output [e|]]; [adds_step|].
  apply adds_bind; [adds_step|]. intros _. apply IH.
Qed.

Lemma runCommands_Update_of_client ssh n i commands :
  adds (W := W) (of_client ssh) (runCommands_Update ssh n i commands).
Proof.
  revert i. induction commands as [|c rest IH]; intros i;
    cbn [runCommands_Update]; [adds_step|].
  apply adds_bind; [adds_step|]. intros _.
  apply adds_bind; [adds_step|]. intros [output [e|]]; [adds_step | apply IH].
Qed.

Lemma Create_provision_of_client ssh plan :
  adds (W := W) (of_client ssh) (Create_provision ssh plan).
Proof.
  unfold Create_provision.
  apply adds_bind; [adds_step|]. intros _.
  apply adds_bind; [apply WaitReachable_of_client|]. intros [e|]; [adds_step|].
  apply adds_bind; [apply uploadFiles_Create_of_client|]. intros [d|]; [adds_step|].
  apply adds_bind; [apply runCommands_Create_of_client|]. intros [d|]; [adds_step|].
  repeat adds_step.
Qed.

Lemma Update_provision_of_client ssh plan :
  adds (W := W) (of_client ssh) (Update_provision ssh plan).
Proof.
  unfold Update_provision.
  apply adds_bind; [apply WaitReachable_of_client|]. intros [e|]; [adds_step|].
  apply adds_bind; [apply uploadFiles_Update_of_client|]. intros [d|]; [adds_step|].
  apply adds_bind; [apply runCommands_Update_of_client|]. intros [d|]; [adds_step|].
  repeat adds_step.
Qed.

End Provision_shape.
(** The filter of stdpp by a boolean test is the one of the standard
    library. *)
Lemma filter_bool {A : Type} (f : A -> bool) (l : list A) :
  filter (fun x => f x) l = List.filter f l.
Proof.
  induction l as [|a l IH]; [reflexivity|].
  rewrite filter_cons, IH. cbn [List.filter].
  destruct (f a); [rewrite decide_True by exact I | rewrite decide_False by (intros [])];
    reflexivity.
Qed.

Section Run.
Context {W : Type} {world : World W}.
Import ProvisionResource.

Lemma Create_with_client (plan : ProvisionResourceModel) :
  Create (W := W) plan
  = with_client "Provisioning Vers VM" (types.ValueString (VMID plan))
      (fun ssh => Create_provision ssh plan).
Proof. reflexivity. Qed.

Lemma Update_with_client (plan : ProvisionResourceModel) :
  Update (W := W) plan
  = with_client "Re-provisioning Vers VM (triggers changed)"
      (types.ValueString (VMID plan)) (fun ssh => Update_provision ssh plan).
Proof. reflexivity. Qed.

(** The four ways a run with a client can go. *)
Lemma with_client_run (line vmID : string)
  (body : client.SSHClient -> M W Response) (st : St W) :
  let answer := api_GetSSHKey vmID (st_world st) in
  let tmp := os_TempDir (snd answer) in
  let keyDir := client.keyDirOf tmp in
  let keyPath := client.keyPathOf tmp vmID in
  let ssh := client.mkSSHClient keyPath vmID (vmID +:+ ".vm.vers.sh") in
  (forall c, adds (of_client c) (body c)) ->
  let start := [EvLog Info line; EvGetSSHKey vmID] in
  (exists err st',
      fst answer = Err err
      /\ with_client line vmID body st
         = Done (failed "Failed to get SSH key for VM" (Error err)) st'
      /\ st_trace st' = st_trace st ++ start)
  \/ (exists key, fst answer = Ok key
      /\ ((exists detail st',
              with_client line vmID body st
              = Done (failed "Failed to create SSH client" detail) st'
              /\ (st_trace st' = st_trace st ++ start ++ [EvMkdirAll keyDir]
                  \/ st_trace st'
                     = st_trace st ++ start
                         ++ [EvMkdirAll keyDir; EvWriteFile keyPath key]))
          \/ (exists evs,
                Forall (of_client ssh) evs
                /\ ((exists st', with_client line vmID body st = Hang st'
                      /\ st_trace st'
                         = st_trace st ++ start
                             ++ [EvMkdirAll keyDir; EvWriteFile keyPath key] ++ evs)
                    \/ (exists resp st0 st1,
                          st_now st0 = st_now st
                          /\ st_trace st0
                             = st_trace st ++ start
                                 ++ [EvMkdirAll keyDir; EvWriteFile keyPath key]
                          /\ body ssh st0 = Done resp st1
                          /\ st_trace st1 = st_trace st0 ++ evs
                          /\ with_client line vmID body st
                             = Done resp
                                 (mkSt (os_Remove keyPath (st_world st1))
                                    (st_now st1)
                                    (st_trace st1 ++ [EvRemove keyPath]))))))).
Proof.
  intros answer tmp keyDir keyPath ssh Hbody start.
  unfold with_client, GetSSHKey, client.NewSSHClient, client.Cleanup.
  unfold bind, tflog, emit, call, ask, ret.
  cbn [st_world st_now st_trace]. subst tmp keyDir keyPath ssh. subst answer.
  destruct (api_GetSSHKey vmID (st_world st)) as [[key|e] w1]; cbn [fst snd].
  2:{ left. do 2 eexists. split; [reflexivity|]. split; [reflexivity|].
      cbn [st_trace]. now rewrite <- app_assoc. }
  right. exists key. split; [reflexivity|].
  cbn [st_world st_now st_trace].
  destruct (os_MkdirAll _ w1) as [[e|] w2]; cbn [st_world st_now st_trace].
  { left. do 2 eexists. split; [reflexivity|]. left.
    cbn [st_trace]. now rewrite <- !app_assoc. }
  destruct (os_WriteFile _ key w2) as [[e|] w3]; cbn [st_world st_now st_trace].
  { left. do 2 eexists. split; [reflexivity|]. right.
    cbn [st_trace]. now rewrite <- !app_assoc. }
  right.
  match goal with |- context [body ?c ?s] =>
    destruct (Hbody c s) as (evs & E & F); destruct (body c s) as [resp s1|s1] eqn:Eb
  end; cbn [state_of st_trace] in E; exists evs; (split; [exact F|]).
  - right. cbn [client.KeyPath].
    do 3 eexists. split; [|split; [|split; [exact Eb|split; [|reflexivity]]]].
    + reflexivity.
    + cbn [st_trace]. rewrite <- !app_assoc. reflexivity.
    + rewrite E. reflexivity.
  - left. eexists. split; [reflexivity|]. rewrite E, <- !app_assoc. reflexivity.
Qed.


(** X4: in a run of [Create] or [Update] of [vers_provision], whether it
    returns or blocks, every [ssh] process is started with the base arguments
    of one and the same client, that of the declared VM (its key file, its
    host name), followed by one command; and the only call to the Vers API is
    the request for the SSH key of that VM, made before the first process. *)
Theorem X4_one_client_per_run (plan : ProvisionResourceModel) (st : St W) :
  let vmID := types.ValueString (VMID plan) in
  let tmp := os_TempDir (snd (api_GetSSHKey vmID (st_world st))) in
  let ssh := client.mkSSHClient (client.keyPathOf tmp vmID) vmID
               (vmID +:+ ".vm.vers.sh") in
  forall op, op = Create \/ op = Update ->
  exists evs,
    st_trace (state_of (op plan st)) = st_trace st ++ evs
    /\ Forall (fun args => exists command,
                 args = client.sshBaseArgs ssh ++ [command]) (started evs)
    /\ filter is_remote evs = EvGetSSHKey vmID :: map EvSSH (started evs).
Proof.
  intros vmID tmp ssh op Hop.
  assert (exists line body,
    op plan = with_client line vmID body
    /\ forall c, adds (W := W) (of_client c) (body c)) as (line & body & -> & Hbody).
  { destruct Hop as [-> | ->].
    - exists "Provisioning Vers VM", (fun ssh => Create_provision ssh plan).
      split; [reflexivity|]. intros c. apply Create_provision_of_client.
    - exists "Re-provisioning Vers VM (triggers changed)",
        (fun ssh => Update_provision ssh plan).
      split; [reflexivity|]. intros c. apply Update_provision_of_client. }
  destruct (with_client_run line vmID body st Hbody)
    as [(err & st' & _ & -> & Htr)
       |(key & _ & [(detail & st' & -> & [Htr|Htr])
                   |(evs & F & [(st' & -> & Htr)
                               |(resp & st0 & st1 & _ & Htr0 & _ & Htr1 & ->)])])];
    cbn [state_of st_trace].
  1-3: eexists; split; [exact Htr|]; split; [constructor | reflexivity].
  all: destruct (of_client_events _ _ F) as (Hs & Hr & _ & _).
  all: rewrite filter_bool in Hr.
  - eexists. split; [exact Htr|].
    rewrite filter_bool, !List.filter_app, !started_app, Hr.
    split; [exact Hs | reflexivity].
  - eexists. split; [rewrite Htr1, Htr0, <- !app_assoc; reflexivity|].
    rewrite filter_bool, !List.filter_app, !started_app, Hr.
    cbn [started flat_map List.filter is_remote app]. rewrite !app_nil_r.
    split; [exact Hs | reflexivity].
Qed.

(** X5: the only things a run of [Create] or [Update] of [vers_provision]
    does to the local file system are: create the key directory, write the
    key the API returned to the key file of the VM, and remove that key
    file, in this order.  A run that fails before the SSH client exists
    (the key request or the creation of the client failed) stops somewhere
    on the way and removes nothing.  Every other run that returns, whatever
    its result, has removed the key file as its very last action.  A run
    that blocks (in a command sent with [Exec]) leaves the key file in
    place. *)
Theorem X5_key_file_life_cycle (plan : ProvisionResourceModel) (st : St W) :
  let vmID := types.ValueString (VMID plan) in
  let answer := api_GetSSHKey vmID (st_world st) in
  let tmp := os_TempDir (snd answer) in
  let key := match fst answer with Ok key => key | Err _ => "" end in
  let mk := EvMkdirAll (client.keyDirOf tmp) in
  let wr := EvWriteFile (client.keyPathOf tmp vmID) key in
  let rm := EvRemove (client.keyPathOf tmp vmID) in
  forall op, op = Create \/ op = Update ->
  exists evs,
    st_trace (state_of (op plan st)) = st_trace st ++ evs
    /\ match op plan st with
       | Done resp _ =>
           (exists detail,
               resp = failed "Failed to get SSH key for VM" detail
               /\ filter is_local evs = [])
           \/ (exists detail,
                 resp = failed "Failed to create SSH client" detail
                 /\ (filter is_local evs = [mk] \/ filter is_local evs = [mk; wr]))
           \/ (filter is_local evs = [mk; wr; rm]
               /\ List.last evs (EvSleep 0) = rm)
       | Hang _ => filter is_local evs = [mk; wr]
       end.
Proof.
  intros vmID answer tmp key mk wr rm op Hop.
  assert (exists line body,
    op plan = with_client line vmID body
    /\ forall c, adds (W := W) (of_client c) (body c)) as (line & body & -> & Hbody).
  { destruct Hop as [-> | ->].
    - exists "Provisioning Vers VM", (fun ssh => Create_provision ssh plan).
      split; [reflexivity|]. intros c. apply Create_provision_of_client.
    - exists "Re-provisioning Vers VM (triggers changed)",
        (fun ssh => Update_provision ssh plan).
      split; [reflexivity|]. intros c. apply Update_provision_of_client. }
  subst mk wr rm key tmp. subst answer.
  destruct (with_client_run line vmID body st Hbody)
    as [(err & st' & Ha & -> & Htr)
       |(k & Ha & [(detail & st' & -> & [Htr|Htr])
                   |(evs & F & [(st' & -> & Htr)
                               |(resp & st0 & st1 & _ & Htr0 & _ & Htr1 & ->)])])];
    cbn [state_of st_trace]; rewrite Ha.
  1: eexists; split; [exact Htr|]; left; eexists; split; [reflexivity|];
    rewrite filter_bool; reflexivity.
  1-2: eexists; split; [exact Htr|]; right; left; eexists; (split; [reflexivity|]);
    rewrite filter_bool; cbn; auto.
  all: destruct (of_client_events _ _ F) as (_ & _ & Hl & _).
  all: rewrite filter_bool in Hl.
  - eexists. split; [exact Htr|].
    rewrite filter_bool, !List.filter_app, Hl. reflexivity.
  - eexists. split; [rewrite Htr1, Htr0, <- !app_assoc; reflexivity|].
    right. right. split.
    + rewrite filter_bool, !List.filter_app, Hl. reflexivity.
    + rewrite !app_assoc. apply last_last.
Qed.

End Run.

Lemma X4_witness :
  exists evs,
    st_trace (state_of (ProvisionResource.Create (plan_command "false")
                          (sim.fresh "vm-1" sim.Up)))
    = evs
    /\ started evs = [client.sshBaseArgs vm1 ++ ["echo ready"];
                      client.sshBaseArgs vm1 ++ ["false"]].
Proof.
  destruct (X4_one_client_per_run (plan_command "false") (sim.fresh "vm-1" sim.Up)
              ProvisionResource.Create (or_introl eq_refl))
    as (evs & E & _ & _).
  exists evs. split; [exact E|].
  vm_compute in E. subst evs. reflexivity.
Defined.


Lemma X5_witness :
  exists evs,
    st_trace (state_of (ProvisionResource.Update (plan_command "false")
                          (sim.fresh "vm-1" sim.Up)))
    = evs
    /\ filter is_local evs
       = [EvMkdirAll "/tmp/vers-tf-ssh-keys";
          EvWriteFile "/tmp/vers-tf-ssh-keys/vers-vm-1.pem" "PRIVATE KEY of vm-1";
          EvRemove "/tmp/vers-tf-ssh-keys/vers-vm-1.pem"].
Proof.
  destruct (X5_key_file_life_cycle (plan_command "false") (sim.fresh "vm-1" sim.Up)
              ProvisionResource.Update (or_intror eq_refl))
    as (evs & E & _).
  exists evs. split; [exact E|].
  vm_compute in E. subst evs. reflexivity.
Defined.

(** ** How long [WaitReachable] takes and how often it probes *)

Section Probing.
Context {W : Type} {world : World W}.

Lemma loop_bounds s deadline n lastErr (st : St W) :
  let st' := state_of (client.WaitReachable_loop n s deadline lastErr st) in
  exists evs,
    st_trace st' = st_trace st ++ evs
    /\ Forall (fun args => args = client.sshBaseArgs s ++ ["echo ready"]) (started evs)
    /\ st_now st <= st_now st'
    /\ (deadline <= st_now st -> started evs = [] /\ st_now st' = st_now st)
    /\ (st_now st < deadline ->
        st_now st' < deadline + 18 * time.Second
        /\ 3 * time.Second * Z.of_nat (length (started evs))
           < deadline - st_now st + 3 * time.Second).
Proof.
  revert lastErr st. induction n as [|n IH]; intros lastErr st st'; subst st'.
  { exists []. cbn [client.WaitReachable_loop]. unfold bind, time_Now.
    destruct (Z.ltb_spec (st_now st) deadline); cbn [state_of ret];
      rewrite app_nil_r; unfold time.Second; cbn; repeat split; auto; lia. }
  destruct (Z.lt_ge_cases (st_now st) deadline) as [Hnow|Hnow].
  2:{ rewrite loop_gave_up by lia. exists []. cbn [state_of].
      rewrite app_nil_r. cbn. repeat split; auto; lia. }
  destruct (ExecWithTimeout_returns s "echo ready" (15 * time.Second) st)
    as (out & err & st1 & kill & E & Htr & Hkill & Ht).
  assert (started (EvSSH (client.sshBaseArgs s ++ ["echo ready"]) :: kill)
          = [client.sshBaseArgs s ++ ["echo ready"]]) as Hstarted
    by (destruct Hkill as [-> | ->]; reflexivity).
  assert (err <> None \/ strings.TrimSpace out <> "ready"
          \/ (err = None /\ strings.TrimSpace out = "ready")) as [Hfail|[Hfail|[-> Hok]]].
  { destruct err; [left; discriminate|].
    destruct (String.eqb_spec (strings.TrimSpace out) "ready"); auto. }
  3:{ rewrite (loop_reached _ _ _ _ _ _ out Hnow E Hok). cbn [state_of].
      eexists. split; [exact Htr|]. rewrite Hstarted.
      unfold time.Second in *. cbn [length]. repeat split; auto; lia. }
  all: rewrite (loop_failed_turn _ _ _ _ _ _ out err Hnow E) by auto.
  all: match goal with |- context [client.WaitReachable_loop _ _ _ ?e' ?s2] =>
         destruct (IH e' s2) as (evs & Htr' & Hall & Hle & Hpast & Hbefore) end.
  all: cbn [st_now st_trace] in *.
  all: exists ((EvSSH (client.sshBaseArgs s ++ ["echo ready"]) :: kill)
                 ++ [EvSleep (3 * time.Second)] ++ evs).
  all: split; [rewrite Htr', Htr, <- !app_assoc; reflexivity|].
  all: rewrite !started_app, Hstarted; cbn [started flat_map app length].
  all: split; [constructor; auto|].
  all: unfold time.Second in *.
  all: split; [lia|]. all: split; [lia|]. all: intros _.
  all: destruct (Z.lt_ge_cases (st_now st1 + 3 * 1000000000) deadline) as [H|H];
    [destruct (Hbefore H) | destruct (Hpast H) as [-> ->]]; cbn [length]; lia.
Qed.

(** X6: [WaitReachable] always returns, and in bounded time: less than 18
    seconds after its deadline (a probe is started only before the deadline
    and takes at most its 15 seconds, and a sleep of 3 seconds follows a
    failed probe), and at once when the timeout is not positive.  All the
    processes it starts are [echo ready] probes of its client, and two
    probes start at least 3 seconds apart: there are fewer than
    [timeout / 3s + 1] of them, and none when the timeout is not positive. *)
Theorem X6_WaitReachable_is_bounded (s : client.SSHClient) (timeout : Z) (st : St W) :
  exists r st' evs,
    client.WaitReachable s timeout st = Done r st'
    /\ st_trace st' = st_trace st ++ evs
    /\ Forall (fun args => args = client.sshBaseArgs s ++ ["echo ready"]) (started evs)
    /\ 3 * time.Second * Z.of_nat (length (started evs))
       < Z.max 0 timeout + 3 * time.Second
    /\ st_now st <= st_now st' < st_now st + Z.max 0 timeout + 18 * time.Second
    /\ (timeout <= 0 -> st' = st).
Proof.
  unfold client.WaitReachable. unfold bind at 1, time_Now at 1.
  set (deadline := st_now st + timeout).
  destruct (loop_returns s deadline (client.WaitReachable_turns timeout) None st)
    as (r & st1 & E & _).
  { pose proof (turns_cover timeout). unfold deadline. lia. }
  destruct (loop_bounds s deadline (client.WaitReachable_turns timeout) None st)
    as (evs & Htr & Hall & Hle & Hpast & Hbefore).
  unfold bind. rewrite E in *. cbn [state_of] in *.
  assert (exists e, match r with
                    | client.Reached => ret None
                    | client.GaveUp (Some lastErr) =>
                        ret (Some (wrapf (("VM " +:+ client.VMID s
                               +:+ " not reachable via SSH after "
                               +:+ time.Duration_String timeout) +:+ ": ") lastErr))
                    | client.GaveUp None =>
                        ret (Some (Errorf ("VM " +:+ client.VMID s
                               +:+ " not reachable via SSH after "
                               +:+ time.Duration_String timeout)))
                    end st1 = Done e st1) as (e & ->)
    by (destruct r as [|[?|]]; eexists; reflexivity).
  exists e, st1, evs. split; [reflexivity|]. split; [exact Htr|].
  split; [exact Hall|]. unfold time.Second in *.
  destruct (Z.lt_ge_cases (st_now st) deadline) as [H|H].
  - destruct (Hbefore H). unfold deadline in *. repeat split; try lia.
  - destruct (Hpast H) as [Hs Hn]. rewrite Hs. unfold deadline in *. cbn [length].
    repeat split; try lia.
    intros _.
    rewrite loop_gave_up in E by exact H. now injection E as _ <-.
Qed.

End Probing.

Lemma X6_witness :
  exists e,
    client.WaitReachable vm1 0 (sim.fresh "vm-1" sim.Up)
    = Done (Some e) (sim.fresh "vm-1" sim.Up)
    /\ Error e = "VM vm-1 not reachable via SSH after 0s".
Proof.
  destruct (X6_WaitReachable_is_bounded vm1 0 (sim.fresh "vm-1" sim.Up))
    as (r & st' & evs & E & _ & _ & _ & _ & Hst).
  rewrite (Hst ltac:(lia)) in E. rewrite E.
  vm_compute in E. injection E as <-. eexists. split; reflexivity.
Defined.


(** ** The result of a provisioning run *)

Section Result.
Context {W : Type} {world : World W}.
Import ProvisionResource.

Lemma uploadFiles_Create_error ssh i files (st st' : St W) d :
  uploadFiles_Create ssh i files st = Done (Some d) st' -> is_error d = true.
Proof.
  revert i st. induction files as [|f rest IH]; intros i st; cbn [uploadFiles_Create].
  { discriminate. }
  destruct (source_given f); [|destruct (content_given f)].
  - unfold bind at 1, tflog at 1, emit at 1. unfold bind at 1.
    destruct (client.UploadFile _ _ _ _) as [[e|] s1|s1]; try discriminate.
    + intros H. injection H as <- _. reflexivity.
    + apply IH.
  - unfold bind at 1, tflog at 1, emit at 1. unfold bind at 1.
    destruct (client.WriteFile _ _ _ _) as [[e|] s1|s1]; try discriminate.
    + intros H. injection H as <- _. reflexivity.
    + apply IH.
  - intros H. injection H as <- _. reflexivity.
Qed.

Lemma uploadFiles_Update_error ssh files (st st' : St W) d :
  uploadFiles_Update ssh files st = Done (Some d) st' -> is_error d = true.
Proof.
  revert st. induction files as [|f rest IH]; intros st; cbn [uploadFiles_Update].
  { discriminate. }
  destruct (source_given f); [|destruct (content_given f)].
  - unfold bind at 1.
    destruct (client.UploadFile _ _ _ _) as [[e|] s1|s1]; try discriminate.
    + intros H. injection H as <- _. reflexivity.
    + apply IH.
  - unfold bind at 1.
    destruct (client.WriteFile _ _ _ _) as [[e|] s1|s1]; try discriminate.
    + intros H. injection H as <- _. reflexivity.
    + apply IH.
  - apply IH.
Qed.

(** The command loop of [Create]: an error it reports is an error
    diagnostic, and when it reports none it has started every command, in
    order, and nothing else. *)
Lemma runCommands_Create_result ssh n i commands (st st' : St W) d :
  runCommands_Create ssh n i commands st = Done d st' ->
  exists evs,
    st_trace st' = st_trace st ++ evs
    /\ match d with
       | Some diag => is_error diag = true
       | None => started evs = map (fun c => client.sshBaseArgs ssh ++ [c]) commands
       end.
Proof.
  revert i st. induction commands as [|c rest IH]; intros i st;
    cbn [runCommands_Create].
  { intros H. injection H as <- <-. exists []. now rewrite app_nil_r. }
  unfold bind at 1, tflog at 1, emit at 1. unfold bind at 1.
  match goal with |- context [client.ExecWithTimeout ssh c ?t ?s] =>
    destruct (ExecWithTimeout_returns ssh c t s)
      as (out & err & st1 & kill & E & Htr & Hkill & _) end.
  rewrite E. cbn [st_trace] in Htr. destruct err as [e|].
  - intros H. injection H as <- <-. eexists. split; [|reflexivity].
    rewrite Htr, <- app_assoc. reflexivity.
  - unfold bind at 1, tflog at 1, emit at 1. intros H.
    destruct (IH _ _ H) as (evs & Htr' & Hd). cbn [st_trace] in Htr'.
    eexists. split; [rewrite Htr', Htr, <- !app_assoc; reflexivity|].
    destruct d; [exact Hd|].
    rewrite !started_app, Hd. destruct Hkill as [-> | ->]; reflexivity.
Qed.

Lemma runCommands_Update_result ssh n i commands (st st' : St W) d :
  runCommands_Update ssh n i commands st = Done d st' ->
  exists evs,
    st_trace st' = st_trace st ++ evs
    /\ match d with
       | Some diag => is_error diag = true
       | None => started evs = map (fun c => client.sshBaseArgs ssh ++ [c]) commands
       end.
Proof.
  revert i st. induction commands as [|c rest IH]; intros i st;
    cbn [runCommands_Update].
  { intros H. injection H as <- <-. exists []. now rewrite app_nil_r. }
  unfold bind at 1, tflog at 1, emit at 1. unfold bind at 1.
  match goal with |- context [client.ExecWithTimeout ssh c ?t ?s] =>
    destruct (ExecWithTimeout_returns ssh c t s)
      as (out & err & st1 & kill & E & Htr & Hkill & _) end.
  rewrite E. cbn [st_trace] in Htr. destruct err as [e|].
  - intros H. injection H as <- <-. eexists. split; [|reflexivity].
    rewrite Htr, <- app_assoc. reflexivity.
  - intros H.
    destruct (IH _ _ H) as (evs & Htr' & Hd).
    eexists. split; [rewrite Htr', Htr, <- !app_assoc; reflexivity|].
    destruct d; [exact Hd|].
    rewrite !started_app, Hd. destruct Hkill as [-> | ->]; reflexivity.
Qed.

Lemma Create_provision_result ssh plan (st st' : St W) resp :
  Create_provision ssh plan st = Done resp st' ->
  exists evs,
    st_trace st' = st_trace st ++ evs
    /\ all_or_nothing ssh plan resp (st_world st') evs.
Proof.
  unfold Create_provision.
  unfold bind at 1, tflog at 1, emit at 1. unfold bind at 1.
  match goal with |- context [client.WaitReachable ssh ?t ?s] =>
    destruct (WaitReachable_of_client ssh t s) as (e1 & Htr1 & _);
    set (o := client.WaitReachable ssh t s) in *; clearbody o
  end.
  destruct o as [[e|] s1|s1]; try discriminate; cbn [state_of st_trace] in Htr1.
  { intros H. injection H as <- <-. eexists. split; [rewrite Htr1, <- app_assoc; reflexivity|].
    left. split; [reflexivity|]. eexists. split; reflexivity. }
  unfold bind at 1.
  destruct (uploadFiles_Create_of_client ssh 0 (types.elements (Files plan)) s1)
    as (e2 & Htr2 & _).
  destruct (uploadFiles_Create _ _ _ _) as [[d|] s2|s2] eqn:Eu; try discriminate;
    cbn [state_of] in Htr2.
  { intros H. injection H as <- <-. eexists.
    split; [rewrite Htr2, Htr1, <- !app_assoc; reflexivity|].
    left. split; [reflexivity|]. eexists.
    split; [reflexivity|]. eapply uploadFiles_Create_error, Eu. }
  unfold bind at 1.
  destruct (runCommands_Create _ _ _ _ _) as [[d|] s3|s3] eqn:Er; try discriminate;
    destruct (runCommands_Create_result _ _ _ _ _ _ _ Er) as (e3 & Htr3 & Hd).
  { intros H. injection H as <- <-. eexists.
    split; [rewrite Htr3, Htr2, Htr1, <- !app_assoc; reflexivity|].
    left. split; [reflexivity|]. eexists. split; [reflexivity | exact Hd]. }
  unfold bind, ask, tflog, emit, ret. intros H. injection H as <- <-.
  eexists. cbn [st_trace st_world].
  split; [rewrite Htr3, Htr2, Htr1, <- !app_assoc; reflexivity|].
  right. split; [reflexivity|]. split; [reflexivity|].
  exists (started [EvLog Debug "Waiting for VM to be reachable via SSH"]
            ++ started e1 ++ started e2).
  rewrite !started_app, Hd. cbn [started flat_map app].
  rewrite !app_nil_r, <- !app_assoc. reflexivity.
Qed.

Lemma Update_provision_result ssh plan (st st' : St W) resp :
  Update_provision ssh plan st = Done resp st' ->
  exists evs,
    st_trace st' = st_trace st ++ evs
    /\ all_or_nothing ssh plan resp (st_world st') evs.
Proof.
  unfold Update_provision. unfold bind at 1.
  match goal with |- context [client.WaitReachable ssh ?t ?s] =>
    destruct (WaitReachable_of_client ssh t s) as (e1 & Htr1 & _);
    set (o := client.WaitReachable ssh t s) in *; clearbody o
  end.
  destruct o as [[e|] s1|s1]; try discriminate; cbn [state_of st_trace] in Htr1.
  { intros H. injection H as <- <-. eexists. split; [exact Htr1|].
    left. split; [reflexivity|]. eexists. split; reflexivity. }
  unfold bind at 1.
  destruct (uploadFiles_Update_of_client ssh (types.elements (Files plan)) s1)
    as (e2 & Htr2 & _).
  destruct (uploadFiles_Update _ _ _) as [[d|] s2|s2] eqn:Eu; try discriminate;
    cbn [state_of] in Htr2.
  { intros H. injection H as <- <-. eexists.
    split; [rewrite Htr2, Htr1, <- !app_assoc; reflexivity|].
    left. split; [reflexivity|]. eexists.
    split; [reflexivity|]. eapply uploadFiles_Update_error, Eu. }
  unfold bind at 1.
  destruct (runCommands_Update _ _ _ _ _) as [[d|] s3|s3] eqn:Er; try discriminate;
    destruct (runCommands_Update_result _ _ _ _ _ _ _ Er) as (e3 & Htr3 & Hd).
  { intros H. injection H as <- <-. eexists.
    split; [rewrite Htr3, Htr2, Htr1, <- !app_assoc; reflexivity|].
    left. split; [reflexivity|]. eexists. split; [reflexivity | exact Hd]. }
  unfold bind, ask, ret. intros H. injection H as <- <-.
  eexists. cbn [st_trace st_world].
  split; [rewrite Htr3, Htr2, Htr1, <- !app_assoc; reflexivity|].
  right. split; [reflexivity|]. split; [reflexivity|].
  exists (started e1 ++ started e2).
  rewrite !started_app, Hd, <- !app_assoc. reflexivity.
Qed.

(** X7: the response of [Create] and of [Update] of [vers_provision] is all
    or nothing.  Either it holds exactly one diagnostic, an error, and no
    state is set: this is so whenever the key request, the SSH client, the
    wait for the VM, an upload or a command fails, also after earlier
    uploads and commands have changed the VM.  Or it holds no diagnostic,
    every declared command has been run, in the declared order, as the last
    processes of the run, and the state is the declaration with its [id] set
    to the fingerprint [computeID] gives when the last command has ended. *)
Theorem X7_response_is_all_or_nothing (plan : ProvisionResourceModel)
  (st st' : St W) (resp : Response) :
  let vmID := types.ValueString (VMID plan) in
  let tmp := os_TempDir (snd (api_GetSSHKey vmID (st_world st))) in
  let ssh := client.mkSSHClient (client.keyPathOf tmp vmID) vmID
               (vmID +:+ ".vm.vers.sh") in
  forall op, op = Create \/ op = Update ->
  op plan st = Done resp st' ->
  exists w evs,
    st_trace st' = st_trace st ++ evs
    /\ all_or_nothing ssh plan resp w evs
    /\ (State resp <> None -> st_world st' = os_Remove (client.keyPathOf tmp vmID) w).
Proof.
  intros vmID tmp ssh op Hop.
  assert (exists line body,
    op plan = with_client line vmID body
    /\ (forall c, adds (W := W) (of_client c) (body c))
    /\ forall c s0 s1 r, body c s0 = Done r s1 ->
         exists evs, st_trace s1 = st_trace s0 ++ evs
                     /\ all_or_nothing c plan r (st_world s1) evs)
    as (line & body & -> & Hbody & Hres).
  { destruct Hop as [-> | ->].
    - exists "Provisioning Vers VM", (fun ssh => Create_provision ssh plan).
      split; [reflexivity|]. split; [intros c; apply Create_provision_of_client|].
      intros c s0 s1 r. apply Create_provision_result.
    - exists "Re-provisioning Vers VM (triggers changed)",
        (fun ssh => Update_provision ssh plan).
      split; [reflexivity|]. split; [intros c; apply Update_provision_of_client|].
      intros c s0 s1 r. apply Update_provision_result. }
  destruct (with_client_run line vmID body st Hbody)
    as [(err & s' & _ & -> & Htr)
       |(key & _ & [(detail & s' & -> & Htr)
                   |(evs & F & [(s' & -> & Htr)
                               |(r & st0 & st1 & _ & Htr0 & Eb & Htr1 & ->)])])];
    intros H; try discriminate; injection H as <- <-.
  - exists (st_world s'). eexists. split; [exact Htr|].
    split; [|intros Hs; now contradiction Hs].
    left. split; [reflexivity|]. eexists. split; reflexivity.
  - exists (st_world s').
    destruct Htr as [Htr|Htr]; eexists; (split; [exact Htr|]);
      (split; [|intros Hs; now contradiction Hs]);
      left; (split; [reflexivity|]); eexists; split; reflexivity.
  - destruct (Hres _ _ _ _ Eb) as (evs' & Htr' & Hall).
    rewrite Htr1 in Htr'. apply app_inv_head in Htr'. subst evs'.
    exists (st_world st1). eexists. cbn [st_trace st_world].
    split; [rewrite Htr1, Htr0, <- !app_assoc; reflexivity|].
    split; [|reflexivity].
    destruct Hall as [Hfail|(Hd & Hs & before & Hcmds)]; [left; exact Hfail|].
    right. split; [exact Hd|]. split; [exact Hs|].
    exists before. rewrite !started_app, Hcmds. cbn [started flat_map app].
    rewrite app_nil_r. reflexivity.
Qed.

End Result.

Lemma X7_witness :
  exists resp st',
    ProvisionResource.Create (plan_command "true") (sim.fresh "vm-1" sim.Up)
    = Done resp st'
    /\ ProvisionResource.Diagnostics resp = []
    /\ ProvisionResource.State resp
       = Some (ProvisionResource.with_ID (plan_command "true") "b167c278122b60d3").
Proof.
  destruct (ProvisionResource.Create (plan_command "true") (sim.fresh "vm-1" sim.Up))
    as [resp st'|st'] eqn:E; [|vm_compute in E; discriminate].
  destruct (X7_response_is_all_or_nothing (plan_command "true")
              (sim.fresh "vm-1" sim.Up) st' resp ProvisionResource.Create
              (or_introl eq_refl) E) as (w & evs & _ & _ & _).
  exists resp, st'. split; [reflexivity|].
  vm_compute in E. injection E as <- _. split; reflexivity.
Defined.

(** ** Paths and commands on their way to the VM *)

(** X1: whatever bytes a path holds (quotes, blanks, dollar signs, line
    feeds), the shell of the VM reads its escaped form between single quotes
    as one word, the path itself; so the [cat] and [mkdir -p] command lines
    of the transport are read as the command, its option, and the path. *)
Theorem X1_shellEscape_is_one_word (path : string) :
  sim.lex false None ("'" +:+ client.shellEscape path +:+ "'")
  = Some [sim.TWord path]
  /\ sim.lex false None ("cat '" +:+ client.shellEscape path +:+ "'")
     = Some [sim.TWord "cat"; sim.TWord path]
  /\ sim.lex false None ("mkdir -p '" +:+ client.shellEscape path +:+ "'")
     = Some [sim.TWord "mkdir"; sim.TWord "-p"; sim.TWord path].
Proof.
  split; [|split; [apply lex_cat | apply lex_mkdir]].
  rewrite !str_app_cons, str_app_nil_l. cbn [sim.lex Ascii.eqb Bool.eqb andb default].
  unfold id. rewrite lex_escaped. reflexivity.
Qed.

Section Writing.
Context {W : Type} {world : World W}.

(** X2: [WriteFile] creates the parent directory first, except for a path
    without a directory part and for a path directly under the root.  For a
    bare file name, with or without a leading slash, the one process it
    starts is the write command itself.  For any other path the first process
    is [mkdir -p] on the escaped parent directory, and when that fails
    [WriteFile] returns the error "mkdir on VM: ..." wrapping the failure,
    in the state in which [mkdir] ended: the write command is not sent. *)
Theorem X2_WriteFile_parent_directory (s : client.SSHClient)
  (remotePath content : string) (st : St W) :
  let write p :=
    client.sshBaseArgs s
      ++ ["echo '" +:+ base64.EncodeToString content +:+ "' | base64 -d > '"
            +:+ client.shellEscape p +:+ "'"] in
  let mkdir :=
    "mkdir -p '" +:+ client.shellEscape (filepath.Dir remotePath) +:+ "'" in
  (has_separator remotePath = false ->
   st_trace (state_of (client.WriteFile s remotePath content st))
   = st_trace st ++ [EvSSH (write remotePath)]
   /\ st_trace (state_of (client.WriteFile s ("/" +:+ remotePath) content st))
      = st_trace st ++ [EvSSH (write ("/" +:+ remotePath))])
  /\ (filepath.Dir remotePath <> "." ->
      filepath.Dir remotePath <> "/" ->
      (exists evs,
          st_trace (state_of (client.WriteFile s remotePath content st))
          = st_trace st ++ EvSSH (client.sshBaseArgs s ++ [mkdir]) :: evs)
      /\ forall out err st1,
           client.Exec s mkdir st = Done (out, Some err) st1 ->
           client.WriteFile s remotePath content st
           = Done (Some (wrapf "mkdir on VM: " err)) st1
           /\ st_trace st1 = st_trace st ++ [EvSSH (client.sshBaseArgs s ++ [mkdir])]).
Proof.
  intros write mkdir.
  assert (forall command (s0 : St W),
    st_trace (state_of (client.Exec s command s0))
    = st_trace s0 ++ [EvSSH (client.sshBaseArgs s ++ [command])]) as HExec.
  { intros command s0. unfold client.Exec.
    destruct (proc_start _); [|destruct (proc_exit _); [destruct (proc_wait _)|]];
      reflexivity. }
  assert (forall p, negb (String.eqb (filepath.Dir p) ".")
                    && negb (String.eqb (filepath.Dir p) "/") = false ->
    st_trace (state_of (client.WriteFile s p content st))
    = st_trace st ++ [EvSSH (write p)]) as Hbare.
  { intros p Hp. unfold client.WriteFile. rewrite Hp. unfold bind at 1, ret at 1.
    unfold bind. specialize (HExec ("echo '" +:+ base64.EncodeToString content
        +:+ "' | base64 -d > '" +:+ client.shellEscape p +:+ "'") st).
    destruct (client.Exec _ _ _) as [[out [e|]] s1|s1]; exact HExec. }
  split.
  - intros Hplain. destruct (Dir_plain remotePath Hplain) as [Hd1 Hd2].
    split; apply Hbare; [rewrite Hd1 | rewrite Hd2]; reflexivity.
  - intros Hdot Hroot.
    apply String.eqb_neq in Hdot, Hroot.
    unfold client.WriteFile. rewrite Hdot, Hroot. cbn [negb andb]. fold mkdir.
    pose proof (HExec mkdir st) as Hm. split.
    + unfold bind at 1. unfold bind at 1.
      destruct (client.Exec s mkdir st) as [[out [e|]] s1|s1]; cbn [state_of] in *.
      * exists []. exact Hm.
      * unfold ret at 1. cbn [snd]. unfold bind.
        match goal with |- context [client.Exec s ?c s1] =>
          pose proof (HExec c s1) as Hw; destruct (client.Exec s c s1) as [[o [e|]] s2|s2]
        end; cbn [state_of snd ret] in *; eexists; rewrite Hw, Hm, <- app_assoc;
          reflexivity.
      * exists []. exact Hm.
    + intros out err st1 E. rewrite E in Hm. cbn [state_of] in Hm.
      split; [|exact Hm]. unfold bind at 1. unfold bind at 1. rewrite E. reflexivity.
Qed.

End Writing.

Lemma X2_witness :
  exists st',
    client.WriteFile vm1 "motd" "hello" (sim.fresh "vm-1" sim.Up) = Done None st'
    /\ started (st_trace st')
       = [client.sshBaseArgs vm1 ++ ["echo 'aGVsbG8=' | base64 -d > 'motd'"]]
    /\ sim.fetch (sim.sim_remote (st_world st')) "motd" = Some "hello".
Proof.
  destruct (X2_WriteFile_parent_directory vm1 "motd" "hello" (sim.fresh "vm-1" sim.Up))
    as [Hbare _]. destruct (Hbare eq_refl) as [Htr _].
  destruct (client.WriteFile vm1 "motd" "hello" (sim.fresh "vm-1" sim.Up))
    as [[e|] st'|st'] eqn:E; vm_compute in E; try discriminate.
  exists st'. split; [reflexivity|]. cbn [state_of] in Htr. rewrite Htr.
  injection E as <-. split; [reflexivity|]. vm_compute. reflexivity.
Defined.

Section Unreadable.
Context {W : Type} {world : World W}.
Import ProvisionResource.

(** X3: a file block whose local source file cannot be read makes the file
    loop stop, after the blocks before it were uploaded, with an error
    diagnostic whose detail is "read local file <source>: <cause>".  Nothing
    is sent to the VM for this block or for a later one: no process is
    started and the world is as the blocks before left it.  The loop of
    [Create] has written one more line to the log; the loop of [Update] has
    done nothing more at all. *)
Theorem X3_unreadable_source (ssh : client.SSHClient) (pre post : list FileBlock)
  (f : FileBlock) (st st1 : St W) (err : error) :
  let src := types.ValueString (Source f) in
  let dest := types.ValueString (Destination f) in
  let detail := "read local file " +:+ src +:+ ": " +:+ Error err in
  uploadFiles_Create ssh 0 pre st = Done None st1 ->
  source_given f = true ->
  os_ReadFile src (st_world st1) = Err err ->
  (exists line,
      uploadFiles_Create ssh 0 (pre ++ f :: post) st
      = Done (Some (AddError ("Failed to upload file " +:+ src +:+ " -> " +:+ dest)
                      detail))
          (mkSt (st_world st1) (st_now st1) (st_trace st1 ++ [EvLog Debug line])))
  /\ uploadFiles_Update ssh (f :: post) st1
     = Done (Some (AddError ("Failed to upload file to " +:+ dest) detail)) st1.
Proof.
  intros src dest detail Hpre Hsrc Hread.
  rewrite uploadFiles_Create_app, Hpre.
  cbn [uploadFiles_Create uploadFiles_Update].
  rewrite Hsrc. fold src dest. unfold client.UploadFile.
  unfold bind, tflog, emit, ask, ret. cbn [st_world]. rewrite Hread.
  unfold wrapf. cbn [Error]. subst detail. rewrite !str_app_assoc.
  split; [eexists|]; reflexivity.
Qed.

End Unreadable.

Lemma X3_witness :
  let script := ProvisionResource.mkFileBlock types.Null (types.Known "echo hi")
                  (types.Known "run.sh") in
  let missing := ProvisionResource.mkFileBlock (types.Known "/src/a.sh") types.Null
                   (types.Known "/tmp/a.sh") in
  exists st',
    ProvisionResource.uploadFiles_Create vm1 0 [script; missing; script]
      (sim.fresh "vm-1" sim.Up)
    = Done (Some (AddError "Failed to upload file /src/a.sh -> /tmp/a.sh"
                    "read local file /src/a.sh: open /src/a.sh: no such file or directory"))
        st'
    /\ length (started (st_trace st')) = 1%nat.
Proof.
  intros script missing.
  assert (exists st1,
    ProvisionResource.uploadFiles_Create vm1 0 [script] (sim.fresh "vm-1" sim.Up)
    = Done None st1
    /\ sim.sim_local (st_world st1) = ∅
    /\ length (started (st_trace st1)) = 1%nat) as (st1 & E1 & Hl & Hs)
    by (eexists; split; [vm_compute; reflexivity | split; reflexivity]).
  destruct (X3_unreadable_source (world := sim.world) vm1 [script] [script] missing
              (sim.fresh "vm-1" sim.Up) st1
              (Errorf "open /src/a.sh: no such file or directory")
              E1 eq_refl) as [(line & E) _].
  { cbn [os_ReadFile sim.world]. rewrite Hl. reflexivity. }
  eexists. split; [exact E|]. cbn [st_trace].
  rewrite started_app, length_app, Hs. reflexivity.
Defined.

(** ** The flush before a commit, and the state a commit leaves *)

Section Flush.
Context {W : Type} {world : World W}.
Import VMCommitResource.

(** X9: the flush before a commit always returns, after at most the two
    minutes of its timeout (the clock of the model advances with the [sync]
    process only).  It starts at most one process, [sync] on the VM of the
    commit.  Whenever it has started that process it has removed the key
    file of the VM as its last action, whether [sync] succeeded, failed or
    was killed. *)
Theorem X9_flush_is_bounded (vmID : string) (st : St W) :
  let tmp := os_TempDir (snd (api_GetSSHKey vmID (st_world st))) in
  let ssh := client.mkSSHClient (client.keyPathOf tmp vmID) vmID
               (vmID +:+ ".vm.vers.sh") in
  exists st' evs,
    syncBeforeCommit vmID st = Done tt st'
    /\ st_trace st' = st_trace st ++ evs
    /\ st_now st <= st_now st' <= st_now st + 2 * time.Minute
    /\ (started evs = []
        \/ started evs = [client.sshBaseArgs ssh ++ ["sync"]]
           /\ List.last evs (EvSleep 0) = EvRemove (client.keyPathOf tmp vmID)).
Proof.
  intros tmp ssh. subst ssh tmp.
  unfold syncBeforeCommit, GetSSHKey, client.NewSSHClient, client.Cleanup.
  unfold bind at 1, call at 1.
  destruct (api_GetSSHKey vmID (st_world st)) as [[key|e] w1]; cbn [snd].
  2:{ do 2 eexists. unfold tflog, emit. split; [reflexivity|]. cbn [st_trace st_now].
      rewrite <- app_assoc. split; [reflexivity|]. unfold time.Minute, time.Second.
      split; [lia|]. left. reflexivity. }
  unfold bind at 1. unfold bind at 1, ask at 1. unfold bind at 1, call at 1.
  cbn [st_world st_now st_trace].
  destruct (os_MkdirAll _ w1) as [[e|] w2].
  { do 2 eexists. unfold ret, tflog, emit. split; [reflexivity|]. cbn [st_trace st_now].
    rewrite <- !app_assoc. split; [reflexivity|]. unfold time.Minute, time.Second.
    split; [lia|]. left. reflexivity. }
  unfold bind at 1, call at 1. cbn [st_world st_now st_trace].
  destruct (os_WriteFile _ key w2) as [[e|] w3].
  { do 2 eexists. unfold ret, tflog, emit. split; [reflexivity|]. cbn [st_trace st_now].
    rewrite <- !app_assoc. split; [reflexivity|]. unfold time.Minute, time.Second.
    split; [lia|]. left. reflexivity. }
  unfold ret at 1. unfold bind at 1, tflog at 1, emit at 1. unfold bind at 1.
  cbn [st_world st_now st_trace].
  match goal with |- context [client.ExecWithTimeout ?c "sync" ?t ?s] =>
    destruct (ExecWithTimeout_returns c "sync" t s)
      as (out & err & st1 & kill & E & Htr & Hkill & Ht) end.
  rewrite E. cbn [st_trace st_now snd client.KeyPath] in *.
  unfold bind at 1, call.
  assert (Z.max 0 (2 * time.Minute) = 2 * time.Minute) as Hmax by reflexivity.
  rewrite Hmax in Ht.
  destruct err as [e|]; unfold tflog, emit; do 2 eexists;
    (split; [reflexivity|]); cbn [st_trace st_now]; rewrite Htr, <- !app_assoc;
    (split; [reflexivity|]); (split; [exact Ht|]); right.
  all: split; [|rewrite ?app_comm_cons, !app_assoc; apply last_last].
  all: cbn [app started flat_map]; rewrite !started_app;
    destruct Hkill as [-> | ->]; reflexivity.
Qed.

(** X10: [Create] and [Update] of a commit always return, and the response
    is decided by the answer of the API to the commit call, which is made in
    the world that the flush leaves.  When the call fails: one error
    diagnostic with the message of the API error as its detail, and no
    state.  When it succeeds: no diagnostic, and a state in which [id] and
    [commit_id] are both the identifier that the API returned, while
    [vm_id], [keep_paused] and [triggers] are those of the plan.  The flush
    has no other part in the response. *)
Theorem X10_commit_response (plan : VMCommitResourceModel) (st : St W) :
  let vmID := types.ValueString (VMID plan) in
  let keepPaused := types.ValueBool (KeepPaused plan) in
  forall op line summary,
    (op = Create /\ line = "Committing Vers VM"
     /\ summary = "Failed to commit VM")
    \/ (op = Update /\ line = "Re-committing Vers VM (triggers changed)"
        /\ summary = "Failed to re-commit VM") ->
    exists st1,
      syncBeforeCommit vmID
        (mkSt (st_world st) (st_now st) (st_trace st ++ [EvLog Debug line]))
      = Done tt st1
      /\ op plan st
         = Done
             match fst (api_CommitVM vmID keepPaused (st_world st1)) with
             | Ok commitID =>
                 mkResponse []
                   (Some (mkModel (types.Known commitID) (VMID plan)
                            (types.Known commitID) (KeepPaused plan)
                            (Triggers plan)))
             | Err err => mkResponse [AddError summary (Error err)] None
             end
             (mkSt (snd (api_CommitVM vmID keepPaused (st_world st1)))
                (st_now st1) (st_trace st1 ++ [EvCommitVM vmID keepPaused])).
Proof.
  intros vmID keepPaused op line summary Hop.
  destruct (syncBeforeCommit_spec vmID
              (mkSt (st_world st) (st_now st) (st_trace st ++ [EvLog Debug line])))
    as (st1 & _ & E & _).
  exists st1. split; [exact E|].
  destruct Hop as [(-> & -> & ->) | (-> & -> & ->)]; unfold Create, Update.
  all: unfold bind at 1, tflog at 1, emit at 1; unfold bind at 1.
  all: fold vmID; fold keepPaused; rewrite E.
  all: unfold bind, CommitVM, call.
  all: destruct (api_CommitVM vmID keepPaused (st_world st1)) as [[commitID|err] w];
    reflexivity.
Qed.

End Flush.

Lemma X10_witness :
  let plan := VMCommitResource.mkModel types.Unknown (types.Known "vm-1")
                types.Unknown (types.Known false)
                (types.Known [("image", types.Known "v2")]) in
  exists st',
    VMCommitResource.Update plan (sim.fresh "vm-1" sim.Up)
    = Done (VMCommitResource.mkResponse []
              (Some (VMCommitResource.mkModel (types.Known "commit-0")
                       (types.Known "vm-1") (types.Known "commit-0")
                       (types.Known false)
                       (types.Known [("image", types.Known "v2")])))) st'
    /\ commits (st_trace st') = [("vm-1", false)].
Proof.
  intros plan.
  destruct (X10_commit_response (world := sim.world) plan (sim.fresh "vm-1" sim.Up)
              VMCommitResource.Update _ _
              (or_intror (conj eq_refl (conj eq_refl eq_refl)))) as (st1 & Es & E).
  vm_compute in Es. injection Es as <-.
  eexists. split; [rewrite E; vm_compute; reflexivity|].
  vm_compute. reflexivity.
Defined.

(** ** When the triggers count as changed *)

Lemma lookup_Some_In (m : list (string * types.String)) k v :
  types.lookup k m = Some v -> In k (map fst m).
Proof.
  induction m as [|[k' v'] m IH]; simpl; [discriminate|].
  destruct (String.eqb_spec k k') as [->|_]; auto.
Qed.

Lemma lookup_In_key (m : list (string * types.String)) k :
  In k (map fst m) -> exists v, types.lookup k m = Some v.
Proof.
  induction m as [|[k' v'] m IH]; simpl; [contradiction|].
  destruct (String.eqb_spec k k') as [->|Hk]; [eauto|].
  intros [E|Hin]; [congruence | auto].
Qed.

(** The loop accepts exactly when every element of [a] has a counterpart in
    [b]. *)
Lemma triggersEqual_loop_spec (a b : list (string * types.String)) :
  triggersEqual_loop a b = true
  <-> forall k av, In (k, av) a ->
        exists bv, types.lookup k b = Some bv
                   /\ types.ValueString av = types.ValueString bv.
Proof.
  induction a as [|[k av] a IH]; cbn [triggersEqual_loop].
  { split; [intros _ k av [] | reflexivity]. }
  split.
  - destruct (types.lookup k b) as [bv|] eqn:E; [|discriminate].
    destruct (String.eqb_spec (types.ValueString av) (types.ValueString bv)) as [Hv|];
      [|discriminate].
    cbn [negb]. intros H k' av' [Heq|Hin].
    + injection Heq as <- <-. eauto.
    + apply IH; assumption.
  - intros H. destruct (H k av (or_introl eq_refl)) as (bv & -> & Hv).
    rewrite Hv, String.eqb_refl. cbn [negb]. apply IH.
    intros k' av' Hin. apply H. now right.
Qed.

Lemma triggersEqual_elements (a b : list (string * types.String)) :
  List.NoDup (map fst a) -> List.NoDup (map fst b) ->
  ((length a =? length b)%nat && triggersEqual_loop a b = true
   <-> forall k, option_map types.ValueString (types.lookup k a)
                 = option_map types.ValueString (types.lookup k b)).
Proof.
  intros Ha Hb. rewrite andb_true_iff, Nat.eqb_eq, triggersEqual_loop_spec. split.
  - intros [Hlen Hloop] k.
    assert (incl (map fst a) (map fst b)) as Hab.
    { intros k' Hin. apply in_map_iff in Hin as ([k1 av] & <- & Hin).
      destruct (Hloop _ _ Hin) as (bv & Hl & _). eapply lookup_Some_In, Hl. }
    assert (incl (map fst b) (map fst a)) as Hba.
    { apply List.NoDup_length_incl; [exact Ha | | exact Hab].
      rewrite !length_map. lia. }
    destruct (types.lookup k a) as [av|] eqn:Ea.
    + assert (In (k, av) a) as Hin.
      { clear - Ea. induction a as [|[k' v'] a IH]; simpl in *; [discriminate|].
        destruct (String.eqb_spec k k') as [->|_]; [injection Ea as ->; auto | auto]. }
      destruct (Hloop _ _ Hin) as (bv & -> & Hv). cbn. now rewrite Hv.
    + destruct (types.lookup k b) as [bv|] eqn:Eb; [|reflexivity].
      apply lookup_Some_In, Hba, lookup_In_key in Eb as (av & Eav). congruence.
  - intros H.
    assert (forall x y : list (string * types.String),
      (forall k, option_map types.ValueString (types.lookup k x)
                 = option_map types.ValueString (types.lookup k y)) ->
      incl (map fst x) (map fst y)) as Hincl.
    { intros x y Hxy k Hin. apply lookup_In_key in Hin as (v & Hv).
      specialize (Hxy k). rewrite Hv in Hxy.
      destruct (types.lookup k y) eqn:Ey; [|discriminate].
      eapply lookup_Some_In, Ey. }
    split.
    + apply Nat.le_antisymm; rewrite <- !(length_map fst);
        apply List.NoDup_incl_length; auto.
    + intros k av Hin. specialize (H k). rewrite (lookup_In a k av Ha Hin) in H.
      destruct (types.lookup k b) as [bv|]; [|discriminate].
      exists bv. split; [reflexivity|]. now injection H.
Qed.

(** What [triggersEqual] decides, for maps with distinct keys. *)
Lemma triggersEqual_spec (a b : types.Map) :
  distinct_keys a -> distinct_keys b ->
  (triggersEqual a b = true
   <-> types.IsNull a = types.IsNull b
       /\ forall k, value_at k a = value_at k b).
Proof.
  intros Ha Hb. unfold triggersEqual, value_at.
  destruct (types.IsNull a) eqn:Na, (types.IsNull b) eqn:Nb; cbn [andb orb].
  - destruct a, b; try discriminate. split; [split; reflexivity | reflexivity].
  - split; [discriminate | intros [? _]; discriminate].
  - split; [discriminate | intros [? _]; discriminate].
  - rewrite <- (triggersEqual_elements _ _ Ha Hb).
    destruct (length _ =? length _)%nat; cbn [negb andb]; split; intuition.
Qed.

(** X11: for maps with distinct keys, as Go maps have, [triggersEqual]
    holds exactly when both maps are null or none is, and they have the same
    keys with the same value string for each key.  A null value and an empty
    string are the same value string, and a map that is not known counts as
    a map without elements; a null map is not equal to an empty one.  So
    [triggersEqual] is symmetric, although it only walks over the elements
    of its first argument. *)
Theorem X11_triggersEqual_same_keys_and_values (a b : types.Map) :
  distinct_keys a -> distinct_keys b ->
  (triggersEqual a b = true
   <-> types.IsNull a = types.IsNull b
       /\ forall k, value_at k a = value_at k b)
  /\ triggersEqual a b = triggersEqual b a.
Proof.
  intros Ha Hb. split; [apply triggersEqual_spec; assumption|].
  apply eq_true_iff_eq.
  rewrite (triggersEqual_spec a b Ha Hb), (triggersEqual_spec b a Hb Ha).
  split; intros [H1 H2]; split; auto.
Qed.

Lemma X11_witness :
  triggersEqual (types.Known [("rev", types.Null); ("image", types.Known "v2")])
    (types.Known [("image", types.Known "v2"); ("rev", types.Known "")])
  = true
  /\ triggersEqual types.Null (types.Known []) = false.
Proof.
  pose proof (X11_triggersEqual_same_keys_and_values
                (types.Known [("rev", types.Null); ("image", types.Known "v2")])
                (types.Known [("image", types.Known "v2"); ("rev", types.Known "")])
                ltac:(repeat constructor; simpl; intuition discriminate)
                ltac:(repeat constructor; simpl; intuition discriminate)) as [_ H].
  split; [rewrite H|]; reflexivity.
Defined.

Lemma sortedKeys_same_keys (m1 m2 : list (string * types.String)) :
  Permutation (map fst m1) (map fst m2) ->
  ProvisionResource.sortedKeys m1 = ProvisionResource.sortedKeys m2.
Proof.
  intros Hp. unfold ProvisionResource.sortedKeys.
  apply (Sorted_unique String.le); try apply Sorted_merge_sort; try apply _.
  now rewrite !merge_sort_Permutation.
Qed.

Section Replacement.
Context {W : Type} {world : World W}.
Import ProvisionResource.

(** X12: triggers that [triggersEqual] takes for equal give the same
    fingerprint: two declarations whose trigger maps (with distinct keys)
    pass [triggersEqual] and that agree on everything else that is hashed
    get the same [id] from [computeID].  The converse fails for a null map
    against an empty one, which are not equal for [triggersEqual] and add
    the same nothing to the hash. *)
Theorem X12_equal_triggers_same_fingerprint (p1 p2 : ProvisionResourceModel) (w : W) :
  distinct_keys (Triggers p1) -> distinct_keys (Triggers p2) ->
  types.ValueString (VMID p1) = types.ValueString (VMID p2) ->
  types.elements (Files p1) = types.elements (Files p2) ->
  types.elements (Commands p1) = types.elements (Commands p2) ->
  (triggersEqual (Triggers p1) (Triggers p2) = true ->
   computeID p1 w = computeID p2 w)
  /\ (Triggers p1 = types.Null -> Triggers p2 = types.Known [] ->
      triggersEqual (Triggers p1) (Triggers p2) = false
      /\ computeID p1 w = computeID p2 w).
Proof.
  intros H1 H2 Hvm Hfiles Hcmds.
  assert (sortedPairs (types.elements (Triggers p1))
          = sortedPairs (types.elements (Triggers p2)) ->
          computeID p1 w = computeID p2 w) as Hid.
  { intros Hp. unfold computeID, hashInput. now rewrite Hvm, Hfiles, Hcmds, Hp. }
  split.
  - intros Heq. apply Hid.
    assert (forall k, option_map types.ValueString
                        (types.lookup k (types.elements (Triggers p1)))
                      = option_map types.ValueString
                          (types.lookup k (types.elements (Triggers p2)))) as Hk.
    { apply (triggersEqual_spec _ _ H1 H2) in Heq as [_ Hk]. exact Hk. }
    set (a := types.elements (Triggers p1)) in *.
    set (b := types.elements (Triggers p2)) in *.
    assert (forall x y : list (string * types.String),
      (forall k, option_map types.ValueString (types.lookup k x)
                 = option_map types.ValueString (types.lookup k y)) ->
      incl (map fst x) (map fst y)) as Hincl.
    { intros x y Hxy k Hin. apply lookup_In_key in Hin as (v & Hv).
      specialize (Hxy k). rewrite Hv in Hxy.
      destruct (types.lookup k y) eqn:Ey; [|discriminate].
      eapply lookup_Some_In, Ey. }
    unfold sortedPairs. rewrite (sortedKeys_same_keys a b).
    + apply map_ext. intros k. specialize (Hk k).
      destruct (types.lookup k a), (types.lookup k b); try discriminate;
        [injection Hk as -> |]; reflexivity.
    + apply Permutation.NoDup_Permutation; [exact H1 | exact H2|].
      intros k. split; apply Hincl; auto.
  - intros N1 N2. split; [rewrite N1, N2; reflexivity|].
    apply Hid. rewrite N1, N2. reflexivity.
Qed.

End Replacement.

Lemma X12_witness :
  let w := st_world (sim.fresh "vm-1" sim.Up) in
  ProvisionResource.computeID
    (plan_triggers [("rev", types.Null); ("image", types.Known "v2")]) w
  = ProvisionResource.computeID
      (plan_triggers [("image", types.Known "v2"); ("rev", types.Known "")]) w.
Proof.
  intros w.
  destruct (X12_equal_triggers_same_fingerprint
              (plan_triggers [("rev", types.Null); ("image", types.Known "v2")])
              (plan_triggers [("image", types.Known "v2"); ("rev", types.Known "")]) w
              ltac:(repeat constructor; simpl; intuition discriminate)
              ltac:(repeat constructor; simpl; intuition discriminate)
              eq_refl eq_refl eq_refl) as [H _].
  apply H. reflexivity.
Defined.

(** X13: [ModifyPlan] leaves its response alone when the resource is being
    created or destroyed (no state, or no plan), and when the triggers of
    the plan and of the state, maps with distinct keys, are both null or
    both not null and have the same keys and value strings.  In every other
    case it marks the [id] of the planned values as unknown, changes nothing
    else in them, and adds [id] to the attributes that require
    replacement. *)
Theorem X13_ModifyPlan_replaces_on_changed_triggers
  (stateModel planModel : ProvisionResource.ProvisionResourceModel)
  (resp : ModifyPlanResponse) :
  let a := ProvisionResource.Triggers planModel in
  let b := ProvisionResource.Triggers stateModel in
  let same := types.IsNull a = types.IsNull b /\ forall k, value_at k a = value_at k b in
  distinct_keys a -> distinct_keys b ->
  (forall other, ModifyPlan None other resp = resp
                 /\ ModifyPlan other None resp = resp)
  /\ (same -> ModifyPlan (Some stateModel) (Some planModel) resp = resp)
  /\ (~ same ->
      RequiresReplace (ModifyPlan (Some stateModel) (Some planModel) resp)
      = RequiresReplace resp ++ ["id"]
      /\ forall p, Plan resp = Some p ->
           Plan (ModifyPlan (Some stateModel) (Some planModel) resp)
           = Some (ProvisionResource.mkModel types.Unknown
                     (ProvisionResource.VMID p) (ProvisionResource.Files p)
                     (ProvisionResource.Commands p)
                     (ProvisionResource.Triggers p))).
Proof.
  intros a b same Ha Hb. split; [intros [other|]; split; reflexivity|].
  cbn [ModifyPlan]. fold a b.
  pose proof (triggersEqual_spec a b Ha Hb) as Hiff. fold same in Hiff.
  destruct (triggersEqual a b) eqn:E; cbn [negb].
  - split; [reflexivity|]. intros Hn. contradiction Hn. now apply Hiff.
  - split.
    + intros H. apply Hiff in H. discriminate.
    + intros _. split; [reflexivity|]. intros p ->. reflexivity.
Qed.

Lemma X13_witness :
  let state := plan_triggers [("image", types.Known "v1")] in
  let plan := plan_triggers [("image", types.Known "v2")] in
  ModifyPlan (Some state) (Some plan) (mkModifyPlanResponse (Some plan) [])
  = mkModifyPlanResponse (Some plan) ["id"]
  /\ ModifyPlan (Some plan) (Some plan) (mkModifyPlanResponse (Some plan) [])
     = mkModifyPlanResponse (Some plan) [].
Proof.
  intros state plan.
  destruct (X13_ModifyPlan_replaces_on_changed_triggers plan plan
              (mkModifyPlanResponse (Some plan) [])
              ltac:(repeat constructor; simpl; intuition discriminate)
              ltac:(repeat constructor; simpl; intuition discriminate))
    as (_ & Hsame & _).
  split; [reflexivity|]. apply Hsame. split; reflexivity.
Defined.

(** ** Waiting for a VM to boot *)

Section Boot.
Context {W : Type} {world : World W} {lifecycle : Lifecycle W}.

(** [GetVM] is one request: it always returns, the clock does not go back,
    the trace stays as it is. *)
Lemma GetVM_returns (vmID : string) (st : St W) :
  exists r st1,
    GetVM vmID st = Done r st1
    /\ st_now st <= st_now st1
    /\ st_trace st1 = st_trace st.
Proof.
  unfold GetVM, ListVMs, round_trip, bind.
  destruct (api_ListVMs (st_world st)) as [[[vms|err] d] w];
    do 2 eexists; (split; [reflexivity|]); cbn [st_now st_trace]; split; auto; lia.
Qed.

Lemma boot_gave_up vmID timeout deadline n (st : St W) :
  deadline <= st_now st ->
  WaitForBoot_loop n vmID timeout deadline st
  = Done (Some (not_running vmID timeout)) st.
Proof.
  intros H. destruct n; cbn [WaitForBoot_loop]; unfold bind, time_Now;
    destruct (Z.ltb_spec (st_now st) deadline); try lia; reflexivity.
Qed.

Lemma boot_turn vmID timeout deadline n (st st1 : St W) vm :
  st_now st < deadline ->
  GetVM vmID st = Done (Ok vm) st1 ->
  running vm = false ->
  WaitForBoot_loop (S n) vmID timeout deadline st
  = WaitForBoot_loop n vmID timeout deadline
      (mkSt (st_world st1) (st_now st1 + 2 * time.Second)
         (st_trace st1 ++ [EvSleep (2 * time.Second)])).
Proof.
  intros Hnow E Hvm. cbn [WaitForBoot_loop]. unfold bind at 1, time_Now at 1.
  destruct (Z.ltb_spec (st_now st) deadline); [|lia].
  unfold bind at 1. rewrite E. unfold running in Hvm. rewrite Hvm.
  unfold bind at 1, time_Sleep at 1. reflexivity.
Qed.

Lemma boot_answer vmID timeout deadline n (st st1 : St W) r :
  st_now st < deadline ->
  GetVM vmID st = Done r st1 ->
  match r with
  | Err err =>
      WaitForBoot_loop (S n) vmID timeout deadline st = Done (Some err) st1
  | Ok vm =>
      running vm = true ->
      WaitForBoot_loop (S n) vmID timeout deadline st = Done None st1
  end.
Proof.
  intros Hnow E. destruct r as [vm|err]; [intros Hvm|];
    cbn [WaitForBoot_loop]; unfold bind at 1, time_Now at 1;
    (destruct (Z.ltb_spec (st_now st) deadline); [|lia]);
    unfold bind at 1; rewrite E; [|reflexivity].
  unfold running in Hvm. rewrite Hvm. reflexivity.
Qed.

Lemma boot_after vmID timeout deadline (st : St W) k stk :
  still_booting vmID deadline st k stk ->
  forall n,
    WaitForBoot_loop (k + n) vmID timeout deadline st
    = WaitForBoot_loop n vmID timeout deadline stk.
Proof.
  induction 1 as [|k stk vm st1 _ IH Hnow E Hvm]; intros n; [reflexivity|].
  replace (S k + n)%nat with (k + S n)%nat by lia.
  rewrite IH. now apply boot_turn with (vm := vm).
Qed.

Lemma still_booting_time vmID deadline (st : St W) k stk :
  still_booting vmID deadline st k stk ->
  st_now st + 2 * time.Second * Z.of_nat k <= st_now stk
  /\ (k = 0%nat \/ st_now st + 2 * time.Second * (Z.of_nat k - 1) < deadline).
Proof.
  induction 1 as [|k stk vm st1 _ [IH _] Hnow E Hvm].
  { split; [lia | now left]. }
  destruct (GetVM_returns vmID stk) as (r & s1 & E' & Ht & _).
  rewrite E in E'. injection E' as _ <-.
  cbn [st_now]. unfold time.Second in *. split; [lia | right; lia].
Qed.

Lemma boot_turns_enough (timeout : Z) (k : nat) :
  2 * time.Second * (Z.of_nat k - 1) < timeout ->
  (k <= WaitForBoot_turns timeout)%nat.
Proof.
  unfold WaitForBoot_turns, time.Second. intros H.
  destruct k as [|k]; [lia|].
  assert (Z.of_nat k <= timeout / (2 * 1000000000)) as Hk.
  { apply Z.div_le_lower_bound; lia. }
  lia.
Qed.

Lemma boot_turns_cover (timeout : Z) :
  timeout <= 2 * time.Second * Z.of_nat (WaitForBoot_turns timeout).
Proof.
  unfold WaitForBoot_turns, time.Second.
  destruct (Z.le_gt_cases 0 timeout) as [Hpos|Hneg]; [|lia].
  pose proof (Z.mul_succ_div_gt timeout (2 * 1000000000) ltac:(lia)).
  pose proof (Z.div_pos timeout (2 * 1000000000) Hpos ltac:(lia)). lia.
Qed.

Lemma boot_returns vmID timeout deadline n (st : St W) :
  deadline - st_now st <= 2 * time.Second * Z.of_nat n ->
  exists r st',
    WaitForBoot_loop n vmID timeout deadline st = Done r st'
    /\ st_now st <= st_now st'.
Proof.
  revert st. induction n as [|n IH]; intros st Hn.
  { rewrite boot_gave_up by (unfold time.Second in *; lia).
    do 2 eexists. split; [reflexivity | lia]. }
  destruct (Z.lt_ge_cases (st_now st) deadline) as [Hnow|Hnow].
  2:{ rewrite boot_gave_up by lia. do 2 eexists. split; [reflexivity | lia]. }
  destruct (GetVM_returns vmID st) as (r & st1 & E & Ht & _).
  pose proof (boot_answer vmID timeout deadline n st st1 r Hnow E) as Hans.
  destruct r as [vm|err].
  - destruct (running vm) eqn:Hvm.
    + rewrite (Hans eq_refl). do 2 eexists. split; [reflexivity | exact Ht].
    + rewrite (boot_turn _ _ _ _ _ _ vm Hnow E Hvm).
      match goal with |- context [WaitForBoot_loop n _ _ _ ?s] =>
        destruct (IH s) as (r & st' & E' & Ht') end.
      { cbn [st_now]. unfold time.Second in *. lia. }
      exists r, st'. split; [exact E'|]. cbn [st_now] in Ht'.
      unfold time.Second in *. lia.
  - rewrite Hans. do 2 eexists. split; [reflexivity | exact Ht].
Qed.

(** X15: [WaitForBoot] always returns, and not before it was called.  When
    the deadline has passed after some requests that found the VM missing or
    not running, each followed by its sleep of two seconds, it returns the
    error "VM ... did not reach running state within ...", having made no
    further request; with a timeout that is not positive this happens at
    once.  A request made before the deadline decides the call when it fails
    (its error is returned as it is, without a retry) and when it finds the
    VM running (the call succeeds), in both cases in the state in which the
    request ended.  A VM that is missing from the list is waited for like
    one that is booting. *)
Theorem X15_WaitForBoot (vmID : string) (timeout : Z) (st : St W) :
  let deadline := st_now st + timeout in
  (exists r st',
      WaitForBoot vmID timeout st = Done r st' /\ st_now st <= st_now st')
  /\ (timeout <= 0 ->
      WaitForBoot vmID timeout st = Done (Some (not_running vmID timeout)) st)
  /\ (forall k stk,
        still_booting vmID deadline st k stk ->
        (deadline <= st_now stk ->
         WaitForBoot vmID timeout st = Done (Some (not_running vmID timeout)) stk)
        /\ (st_now stk < deadline ->
            forall r st1,
              GetVM vmID stk = Done r st1 ->
              match r with
              | Err err => WaitForBoot vmID timeout st = Done (Some err) st1
              | Ok vm =>
                  running vm = true ->
                  WaitForBoot vmID timeout st = Done None st1
              end)).
Proof.
  intros deadline. unfold WaitForBoot. unfold bind, time_Now. fold deadline.
  split; [|split].
  - apply boot_returns. pose proof (boot_turns_cover timeout). unfold deadline. lia.
  - intros H. apply boot_gave_up. unfold deadline. lia.
  - intros k stk Hk. destruct (still_booting_time _ _ _ _ _ Hk) as [H1 H2]. split.
    + intros Hnow.
      assert (k <= WaitForBoot_turns timeout)%nat as Hle.
      { destruct H2 as [-> | H2]; [lia|]. apply boot_turns_enough.
        unfold deadline in H2. lia. }
      replace (WaitForBoot_turns timeout)
        with (k + (WaitForBoot_turns timeout - k))%nat by lia.
      rewrite (boot_after _ timeout _ _ _ _ Hk). now apply boot_gave_up.
    + intros Hnow r st1 E.
      assert (S k <= WaitForBoot_turns timeout)%nat as Hle.
      { apply boot_turns_enough. unfold deadline in Hnow. lia. }
      replace (WaitForBoot_turns timeout)
        with (k + S (WaitForBoot_turns timeout - S k))%nat by lia.
      rewrite (boot_after _ timeout _ _ _ _ Hk).
      exact (boot_answer _ _ _ _ _ _ _ Hnow E).
Qed.

End Boot.

Lemma X15_witness :
  (exists st',
      WaitForBoot "vm-1" (4 * time.Second) (sim.fresh "vm-1" sim.Stalled)
      = Done (Some (Errorf "VM vm-1 did not reach running state within 4s")) st'
      /\ st_now st' = 4100000000)
  /\ exists st',
       WaitForBoot "vm-1" (4 * time.Second) (sim.fresh "vm-1" sim.Up)
       = Done None st'
       /\ st_now st' = 50000000.
Proof.
  split.
  - destruct (X15_WaitForBoot "vm-1" (4 * time.Second) (sim.fresh "vm-1" sim.Stalled))
      as (_ & _ & H).
    eexists. split.
    + refine (proj1 (H 2%nat _ _) _).
      * eapply one_more_request with (vm := Some _);
          [eapply one_more_request with (vm := Some _);
             [apply no_request_yet | | vm_compute; reflexivity | reflexivity]
          | | vm_compute; reflexivity | reflexivity]; vm_compute; reflexivity.
      * vm_compute. discriminate.
    + reflexivity.
  - eexists. split; [vm_compute; reflexivity | reflexivity].
Defined.

(** ** Reading and restoring VMs *)

Lemma find_first {A : Type} (f : A -> bool) (l : list A) :
  match List.find f l with
  | Some x =>
      f x = true
      /\ exists before after,
           l = before ++ x :: after /\ Forall (fun y => f y = false) before
  | None => Forall (fun y => f y = false) l
  end.
Proof.
  induction l as [|a l IH]; cbn [List.find]; [constructor|].
  destruct (f a) eqn:Ea.
  - split; [exact Ea|]. exists [], l. split; [reflexivity | constructor].
  - destruct (List.find f l) as [x|].
    + destruct IH as (Hx & before & after & -> & Hb). split; [exact Hx|].
      exists (a :: before), after. split; [reflexivity | constructor; assumption].
    + constructor; assumption.
Qed.

Section Reading.
Context {W : Type} {world : World W} {lifecycle : Lifecycle W}.

(** X14: [GetVM] makes one request for the list of VMs and leaves the trace
    alone.  When the request fails, it returns that error.  Otherwise it
    returns the first VM of the list that has the identifier, and nil, without
    an error, when no VM of the list has it. *)
Theorem X14_GetVM_first_match (vmID : string) (st : St W) :
  exists r st',
    GetVM vmID st = Done r st'
    /\ st_trace st' = st_trace st
    /\ st_world st' = snd (api_ListVMs (st_world st))
    /\ match fst (fst (api_ListVMs (st_world st))), r with
       | Err err, r => r = Err err
       | Ok vms, Ok (Some vm) =>
           api.VMID vm = vmID
           /\ exists before after,
                vms = before ++ vm :: after
                /\ Forall (fun v => api.VMID v <> vmID) before
       | Ok vms, Ok None => Forall (fun v => api.VMID v <> vmID) vms
       | Ok _, Err _ => False
       end.
Proof.
  unfold GetVM, ListVMs, round_trip, bind.
  destruct (api_ListVMs (st_world st)) as [[[vms|err] d] w]; cbn [fst snd];
    do 2 eexists; (split; [reflexivity|]); (split; [reflexivity|]);
    (split; [reflexivity|]); [|reflexivity].
  pose proof (find_first (fun vm => String.eqb (api.VMID vm) vmID) vms) as H.
  destruct (List.find _ vms) as [vm|].
  - destruct H as (Hvm & before & after & -> & Hb).
    split; [now apply String.eqb_eq|]. exists before, after. split; [reflexivity|].
    eapply List.Forall_impl; [|exact Hb]. intros v Hv. now apply String.eqb_neq.
  - eapply List.Forall_impl; [|exact H]. intros v Hv. now apply String.eqb_neq.
Qed.

Lemma WaitForBoot_returns (vmID : string) (timeout : Z) (st : St W) :
  exists r st', WaitForBoot vmID timeout st = Done r st'.
Proof.
  unfold WaitForBoot, bind, time_Now.
  destruct (boot_returns vmID timeout (st_now st + timeout)
              (WaitForBoot_turns timeout) st) as (r & st' & E & _).
  { pose proof (boot_turns_cover timeout). lia. }
  eauto.
Qed.

Import VMRestoreResource.

(** X16: [Create] of [vers_vm_restore] always returns.  When the restore
    request fails, the response is that one error and no state.  Once the
    restore request has succeeded the response holds no error, whatever
    fails afterwards, and the state is set.  [Create] then waits for the
    boot of the new VM (three minutes at most), reads the VM, and asks for
    its key, in this order: a boot that is not seen in time, a failed read
    and a failed key request each add a warning with the message of the
    error as its detail.  In the state, [id] is the identifier that the
    restore request returned, [ssh_host] is that identifier followed by
    [.vm.vers.sh], and [commit_id] is the one of the plan; [state] and
    [created_at] are those of the first VM with that identifier in the
    list, stay as planned when the list has no such VM, and are [unknown]
    and as planned when the list could not be read; [ssh_private_key] is
    the key that the API returned, and empty when the request failed. *)
Theorem X16_restore_is_not_undone_by_later_failures (plan : VMRestoreResourceModel)
  (st : St W) :
  let commitID := types.ValueString (CommitID plan) in
  exists line restored st0 resp st',
    RestoreVM commitID
      (mkSt (st_world st) (st_now st) (st_trace st ++ [EvLog Debug line]))
    = Done restored st0
    /\ Create plan st = Done resp st'
    /\ match restored with
       | Err err =>
           resp = mkResponse
                    [AddError "Failed to restore VM from commit" (Error err)]
                    Untouched
           /\ st' = st0
       | Ok vmID =>
           exists booted st1 read st2 key,
             WaitForBoot vmID (3 * time.Minute) st0 = Done booted st1
             /\ GetVM vmID st1 = Done read st2
             /\ read = match fst (fst (api_ListVMs (st_world st1))) with
                       | Ok vms =>
                           Ok (List.find
                                 (fun vm => String.eqb (api.VMID vm) vmID) vms)
                       | Err err => Err err
                       end
             /\ GetSSHKey vmID st2 = Done key st'
             /\ key = fst (api_GetSSHKey vmID (st_world st2))
             /\ resp
                = mkResponse
                    (match booted with
                     | Some err =>
                         [AddWarning "VM restored but may not be fully booted"
                            (Error err)]
                     | None => []
                     end
                     ++ match read with
                        | Err err =>
                            [AddWarning "Failed to read restored VM state"
                               (Error err)]
                        | Ok _ => []
                        end
                     ++ match key with
                        | Err err =>
                            [AddWarning "Failed to fetch SSH key for restored VM"
                               (Error err)]
                        | Ok _ => []
                        end)
                    (Set_ (mkModel (types.Known vmID) (CommitID plan)
                             match read with
                             | Ok (Some vm) => types.Known (api.State vm)
                             | Ok None => State plan
                             | Err _ => types.Known "unknown"
                             end
                             (types.Known (vmID +:+ ".vm.vers.sh"))
                             match key with
                             | Ok sshKey => types.Known sshKey
                             | Err _ => types.Known ""
                             end
                             match read with
                             | Ok (Some vm) => types.Known (api.CreatedAt vm)
                             | _ => CreatedAt plan
                             end))
             /\ HasError (Diagnostics resp) = false
       end.
Proof.
  intros commitID. unfold Create. fold commitID.
  unfold bind at 1, tflog at 1, emit at 1. unfold bind at 1.
  match goal with |- context [RestoreVM commitID ?s] =>
    destruct (RestoreVM commitID s) as [restored st0|st0] eqn:Er end.
  2:{ unfold RestoreVM, round_trip in Er.
      destruct (api_RestoreVM _ _) as [[? ?] ?]. discriminate Er. }
  exists "Restoring VM from commit", restored, st0.
  destruct restored as [vmID|err].
  2:{ do 2 eexists. split; [exact Er|]. split; [reflexivity|]. split; reflexivity. }
  unfold bind at 1.
  destruct (WaitForBoot_returns vmID (3 * time.Minute) st0) as (booted & st1 & Eb).
  rewrite Eb. unfold bind at 1.
  assert (exists read st2,
            GetVM vmID st1 = Done read st2
            /\ read = match fst (fst (api_ListVMs (st_world st1))) with
                      | Ok vms =>
                          Ok (List.find
                                (fun vm => String.eqb (api.VMID vm) vmID) vms)
                      | Err err => Err err
                      end) as (read & st2 & Eg & Hread).
  { unfold GetVM, ListVMs, round_trip, bind.
    destruct (api_ListVMs (st_world st1)) as [[[vms|err] d] w]; cbn [fst];
      do 2 eexists; split; reflexivity. }
  rewrite Eg.
  destruct booted as [e|], read as [[vm|]|e2]; unfold bind, GetSSHKey, call;
    destruct (api_GetSSHKey vmID (st_world st2)) as [[k|e3] w3] eqn:Ek;
    do 2 eexists; (split; [exact Er|]); (split; [reflexivity|]);
    do 5 eexists; (split; [first [exact Eb | reflexivity]|]);
    (split; [first [exact Eg | reflexivity]|]);
    (split; [exact Hread|]); rewrite ?Ek; (split; [reflexivity|]);
    (split; [reflexivity|]); split; reflexivity.
Qed.

(** X17: [Read] makes one request for the list of VMs, and its response is
    decided by the answer.  When the request fails, [Read] reports that
    error and leaves the state as it is.  When no VM of the list has the
    identifier of the resource, the resource is removed from the state,
    without a diagnostic.  Otherwise [Read] of [vers_vm_restore] takes
    [state] and [created_at] from the first VM of the list that has the
    identifier, sets [ssh_host] to the identifier followed by
    [.vm.vers.sh], and keeps [id], [commit_id] and [ssh_private_key], while
    [Read] of [vers_provision] writes the state back unchanged. *)
Theorem X17_Read_drops_what_is_gone (state : VMRestoreResourceModel)
  (pstate : ProvisionResource.ProvisionResourceModel) (st : St W) :
  let answer := api_ListVMs (st_world st) in
  let st' := mkSt (snd answer) (st_now st + Z.of_N (snd (fst answer)))
               (st_trace st) in
  let found id vms := List.find (fun vm => String.eqb (api.VMID vm) id) vms in
  Read state st
  = Done
      match fst (fst answer) with
      | Err err =>
          mkResponse [AddError "Failed to read restored VM" (Error err)] Untouched
      | Ok vms =>
          match found (types.ValueString (ID state)) vms with
          | None => mkResponse [] Removed
          | Some vm =>
              mkResponse []
                (Set_ (mkModel (ID state) (CommitID state)
                         (types.Known (api.State vm))
                         (types.Known (types.ValueString (ID state)
                                       +:+ ".vm.vers.sh"))
                         (SSHPrivateKey state)
                         (types.Known (api.CreatedAt vm))))
          end
      end st'
  /\ ProvisionRead.Read pstate st
     = Done
         match fst (fst answer) with
         | Err err =>
             ProvisionRead.mkResponse
               [AddError "Failed to verify VM exists" (Error err)] Untouched
         | Ok vms =>
             match found (types.ValueString (ProvisionResource.VMID pstate)) vms with
             | None => ProvisionRead.mkResponse [] Removed
             | Some _ => ProvisionRead.mkResponse [] (Set_ pstate)
             end
         end st'
  /\ (forall id vms,
        match found id vms with
        | None => Forall (fun v => api.VMID v <> id) vms
        | Some vm =>
            api.VMID vm = id
            /\ exists before after,
                 vms = before ++ vm :: after
                 /\ Forall (fun v => api.VMID v <> id) before
        end).
Proof.
  intros answer st' found. subst st' answer. split; [|split].
  - unfold Read, GetVM, ListVMs, round_trip, bind.
    destruct (api_ListVMs (st_world st)) as [[[vms|err] d] w]; cbn [fst snd ret];
      [|reflexivity].
    pose proof (find_first (fun vm => String.eqb (api.VMID vm)
                                        (types.ValueString (ID state))) vms) as H.
    unfold found. destruct (List.find _ vms) as [vm|]; [|reflexivity].
    destruct H as (Hvm & _). apply String.eqb_eq in Hvm. now rewrite Hvm.
  - unfold ProvisionRead.Read, GetVM, ListVMs, round_trip, bind.
    destruct (api_ListVMs (st_world st)) as [[[vms|err] d] w]; cbn [fst snd ret];
      [|reflexivity].
    unfold found. destruct (List.find _ vms) as [vm|]; reflexivity.
  - intros id vms. unfold found.
    pose proof (find_first (fun vm => String.eqb (api.VMID vm) id) vms) as H.
    destruct (List.find _ vms) as [vm|].
    + destruct H as (Hvm & before & after & -> & Hb).
      split; [now apply String.eqb_eq|]. exists before, after. split; [reflexivity|].
      eapply List.Forall_impl; [|exact Hb]. intros v Hv. now apply String.eqb_neq.
    + eapply List.Forall_impl; [|exact H]. intros v Hv. now apply String.eqb_neq.
Qed.

End Reading.

(** ** [Update] is [Create] without the log and without the check *)

Lemma unlogged_app (a b : list Event) : unlogged (a ++ b) = unlogged a ++ unlogged b.
Proof. apply List.filter_app. Qed.

Section Same.
Context {W : Type} {world : World W}.

Lemma alike_ret {A B : Type} (Q : A -> B -> Prop) (a : A) (b : B) :
  Q a b -> alike (W := W) Q (ret a) (ret b).
Proof. intros H s1 s2 Hs. split; assumption. Qed.

Lemma alike_bind {A B A' B' : Type} (Q : A -> B -> Prop) (Q' : A' -> B' -> Prop)
  (m1 : M W A) (m2 : M W B) (k1 : A -> M W A') (k2 : B -> M W B') :
  alike Q m1 m2 ->
  (forall a b, Q a b -> alike Q' (k1 a) (k2 b)) ->
  alike Q' (bind m1 k1) (bind m2 k2).
Proof.
  intros Hm Hk s1 s2 Hs. unfold bind. specialize (Hm s1 s2 Hs).
  destruct (m1 s1) as [a t1|t1], (m2 s2) as [b t2|t2]; cbn in Hm; try contradiction.
  - destruct Hm as [Hq Ht]. now apply Hk.
  - exact Hm.
Qed.

Lemma alike_log_l {A B : Type} (Q : A -> B -> Prop) (l : Level) (msg : string)
  (m1 : M W A) (m2 : M W B) :
  alike Q m1 m2 -> alike Q (tflog l msg ;;; m1) m2.
Proof.
  intros Hm s1 s2 (Hw & Hn & Ht). unfold bind, tflog, emit. apply Hm.
  split; [exact Hw|]. split; [exact Hn|]. cbn [st_trace].
  rewrite unlogged_app, Ht. apply app_nil_r.
Qed.

(** Code that does not look at the trace, and adds the same events to it
    wherever it runs. *)
Ltac blind :=
  intros [w1 n1 t1] [w2 n2 t2] (Hw & Hn & Ht); cbn [st_world st_now st_trace] in *;
  subst w2 n2.

Ltac same_states Ht :=
  cbn [alike_outcomes]; unfold same_but_log; cbn [st_world st_now st_trace];
  repeat split; auto; rewrite !unlogged_app, Ht; reflexivity.

Lemma alike_ask {A : Type} (f : W -> A) : alike eq (ask f) (ask f).
Proof. blind. unfold ask. same_states Ht. Qed.

Lemma alike_time_Now : alike (W := W) eq time_Now time_Now.
Proof. blind. unfold time_Now. same_states Ht. Qed.

Lemma alike_time_Sleep (d : Z) : alike (W := W) eq (time_Sleep d) (time_Sleep d).
Proof.
  blind. unfold time_Sleep. same_states Ht.
Qed.

Lemma alike_call {A : Type} (e : Event) (f : W -> A * W) :
  alike eq (call e f) (call e f).
Proof.
  blind. unfold call. cbn [st_world]. destruct (f w1) as [a w]. same_states Ht.
Qed.

Lemma alike_Exec (s : client.SSHClient) (command : string) :
  alike (W := W) eq (client.Exec s command) (client.Exec s command).
Proof.
  blind. unfold client.Exec. cbn [st_world st_now st_trace].
  destruct (proc_start _); [|destruct (proc_exit _); [destruct (proc_wait _)|]];
    same_states Ht.
Qed.

Lemma alike_ExecWithTimeout (s : client.SSHClient) (command : string) (timeout : Z) :
  alike (W := W) eq (client.ExecWithTimeout s command timeout)
    (client.ExecWithTimeout s command timeout).
Proof.
  blind. unfold client.ExecWithTimeout. cbn [st_world st_now st_trace].
  destruct (proc_start _);
    [|destruct (proc_exit _) as [d|];
      [destruct (Z.of_N d <? timeout); [destruct (proc_wait _)|]|]];
    same_states Ht.
Qed.

End Same.

(** One step of a proof that a piece of code does not look at the trace. *)
Ltac alike_step :=
  match goal with
  | |- alike _ (bind _ _) (bind _ _) => apply (alike_bind eq)
  | |- alike _ (ret _) (ret _) => apply alike_ret
  | |- alike _ (ask _) (ask _) => apply alike_ask
  | |- alike _ time_Now time_Now => apply alike_time_Now
  | |- alike _ (time_Sleep _) (time_Sleep _) => apply alike_time_Sleep
  | |- alike _ (call _ _) (call _ _) => apply alike_call
  | |- alike _ (client.Exec _ _) (client.Exec _ _) => apply alike_Exec
  | |- alike _ (client.ExecWithTimeout _ _ _) (client.ExecWithTimeout _ _ _) =>
      apply alike_ExecWithTimeout
  | |- forall _ _, _ = _ -> _ => intros ? ? <-
  end.

Section Same_transport.
Context {W : Type} {world : World W}.

Lemma alike_WriteFile (s : client.SSHClient) (remotePath content : string) :
  alike (W := W) eq (client.WriteFile s remotePath content)
    (client.WriteFile s remotePath content).
Proof.
  unfold client.WriteFile. apply (alike_bind eq).
  - destruct (_ && _); repeat alike_step; reflexivity.
  - intros e ? <-. destruct e; repeat alike_step; [reflexivity|].
    destruct (snd a); alike_step; reflexivity.
Qed.

Lemma alike_UploadFile (s : client.SSHClient) (localPath remotePath : string) :
  alike (W := W) eq (client.UploadFile s localPath remotePath)
    (client.UploadFile s localPath remotePath).
Proof.
  unfold client.UploadFile. apply (alike_bind eq); [alike_step|].
  intros r ? <-. destruct r; [apply alike_WriteFile | alike_step; reflexivity].
Qed.

Lemma alike_WaitReachable_loop (s : client.SSHClient) (n : nat) (deadline : Z)
  (lastErr : option error) :
  alike (W := W) eq (client.WaitReachable_loop n s deadline lastErr)
    (client.WaitReachable_loop n s deadline lastErr).
Proof.
  revert lastErr. induction n as [|n IH]; intros lastErr;
    cbn [client.WaitReachable_loop]; (apply (alike_bind eq); [alike_step|]);
    intros now ? <-; (destruct (now <? deadline); [|alike_step; reflexivity]).
  - intros s1 s2 Hs. exact Hs.
  - apply (alike_bind eq); [alike_step|]. intros [out err] ? <-.
    destruct (_ && _); [alike_step; reflexivity|].
    apply (alike_bind eq); [alike_step|]. intros _ _ _. apply IH.
Qed.

Lemma alike_WaitReachable (s : client.SSHClient) (timeout : Z) :
  alike (W := W) eq (client.WaitReachable s timeout) (client.WaitReachable s timeout).
Proof.
  unfold client.WaitReachable. apply (alike_bind eq); [alike_step|]. intros now ? <-.
  apply (alike_bind eq); [apply alike_WaitReachable_loop|]. intros r ? <-.
  destruct r as [|[e|]]; alike_step; reflexivity.
Qed.

End Same_transport.

Section Same_provisioning.
Context {W : Type} {world : World W}.
Import ProvisionResource.

Lemma alike_log_r {A B : Type} (Q : A -> B -> Prop) (l : Level) (msg : string)
  (m1 : M W A) (m2 : M W B) :
  alike Q m1 m2 -> alike Q m1 (tflog l msg ;;; m2).
Proof.
  intros Hm s1 s2 (Hw & Hn & Ht). unfold bind, tflog, emit. apply Hm.
  split; [exact Hw|]. split; [exact Hn|]. cbn [st_trace].
  rewrite unlogged_app, <- Ht. symmetry. apply app_nil_r.
Qed.

Lemma alike_NewSSHClient (vmID privateKey : string) :
  alike (W := W) eq (client.NewSSHClient vmID privateKey)
    (client.NewSSHClient vmID privateKey).
Proof.
  unfold client.NewSSHClient. apply (alike_bind eq); [alike_step|]. intros tmp ? <-.
  apply (alike_bind eq); [alike_step|]. intros [e|] ? <-; [alike_step; reflexivity|].
  apply (alike_bind eq); [alike_step|]. intros [e|] ? <-; alike_step; reflexivity.
Qed.

Lemma same_finding_AddError (s1 s2 detail : string) :
  option_Forall2 same_finding (Some (AddError s1 detail)) (Some (AddError s2 detail)).
Proof. constructor. split; reflexivity. Qed.

Lemma alike_uploadFiles ssh i (files : list FileBlock) :
  Forall (fun f => source_given f || content_given f = true) files ->
  alike (W := W) (option_Forall2 same_finding)
    (uploadFiles_Create ssh i files) (uploadFiles_Update ssh files).
Proof.
  intros H. revert i. induction H as [|f rest Hf _ IH]; intros i;
    cbn [uploadFiles_Create uploadFiles_Update].
  { apply alike_ret. constructor. }
  destruct (source_given f); [|cbn [orb] in Hf; rewrite Hf].
  - apply alike_log_l. apply (alike_bind eq); [apply alike_UploadFile|].
    intros [e|] ? <-; [apply alike_ret, same_finding_AddError | apply IH].
  - apply alike_log_l. apply (alike_bind eq); [apply alike_WriteFile|].
    intros [e|] ? <-; [apply alike_ret, same_finding_AddError | apply IH].
Qed.

Lemma alike_runCommands ssh n i (commands : list string) :
  alike (W := W) (option_Forall2 same_finding)
    (runCommands_Create ssh n i commands) (runCommands_Update ssh n i commands).
Proof.
  revert i. induction commands as [|c rest IH]; intros i;
    cbn [runCommands_Create runCommands_Update].
  { apply alike_ret. constructor. }
  apply alike_log_l, alike_log_r. apply (alike_bind eq); [alike_step|].
  intros [output [e|]] ? <-; [apply alike_ret, same_finding_AddError|].
  apply alike_log_l, IH.
Qed.

Lemma same_result_failed (d1 d2 : Diagnostic) :
  same_finding d1 d2 -> same_result (mkResponse [d1] None) (mkResponse [d2] None).
Proof. intros H. split; [constructor; [exact H | constructor] | reflexivity]. Qed.

Lemma alike_provision ssh (plan : ProvisionResourceModel) :
  Forall (fun f => source_given f || content_given f = true)
    (types.elements (Files plan)) ->
  alike (W := W) same_result (Create_provision ssh plan) (Update_provision ssh plan).
Proof.
  intros H. unfold Create_provision, Update_provision. apply alike_log_l.
  apply (alike_bind eq); [apply alike_WaitReachable|].
  intros [e|] ? <-.
  { apply alike_ret, same_result_failed. split; reflexivity. }
  apply (alike_bind (option_Forall2 same_finding)); [now apply alike_uploadFiles|].
  intros d1 d2 [a b Hab|]; [now apply alike_ret, same_result_failed|].
  apply (alike_bind (option_Forall2 same_finding)); [apply alike_runCommands|].
  intros d1' d2' [a b Hab|]; [now apply alike_ret, same_result_failed|].
  apply (alike_bind eq); [alike_step|]. intros id ? <-.
  apply alike_log_l, alike_ret. split; [constructor | reflexivity].
Qed.

Lemma alike_with_client (line1 line2 vmID : string)
  (body1 body2 : client.SSHClient -> M W Response) :
  (forall ssh, alike same_result (body1 ssh) (body2 ssh)) ->
  alike same_result (with_client line1 vmID body1) (with_client line2 vmID body2).
Proof.
  intros H. unfold with_client, GetSSHKey. apply alike_log_l, alike_log_r.
  apply (alike_bind eq); [alike_step|]. intros [key|err] ? <-.
  2:{ apply alike_ret, same_result_failed. split; reflexivity. }
  apply (alike_bind eq); [apply alike_NewSSHClient|]. intros [ssh|err] ? <-.
  2:{ apply alike_ret, same_result_failed. split; reflexivity. }
  apply (alike_bind same_result); [apply H|]. intros r1 r2 Hr.
  unfold client.Cleanup. apply (alike_bind eq); [alike_step|]. intros _ _ _.
  now apply alike_ret.
Qed.

(** X8: on a declaration in which every file block has a source or a
    content, [Update] of [vers_provision] does what [Create] does, but for
    the log: run from the same state, both return or both block; they leave
    the same world at the same time, after the same calls to the API, the
    same writes to the local file system and the same [ssh] processes, in
    the same order; and when they return, they set the same state and report
    diagnostics of the same severity with the same detail (the summary of an
    upload error is worded differently). *)
Theorem X8_Update_repeats_Create (plan : ProvisionResourceModel) (st : St W) :
  Forall (fun f => source_given f || content_given f = true)
    (types.elements (Files plan)) ->
  match Create plan st, Update plan st with
  | Done created s1, Done updated s2 =>
      same_result created updated /\ same_but_log s1 s2
  | Hang s1, Hang s2 => same_but_log s1 s2
  | _, _ => False
  end.
Proof.
  intros H.
  apply (alike_with_client "Provisioning Vers VM"
           "Re-provisioning Vers VM (triggers changed)"
           (types.ValueString (VMID plan))
           (fun ssh => Create_provision ssh plan)
           (fun ssh => Update_provision ssh plan)
           (fun ssh => alike_provision ssh plan H) st st).
  repeat split.
Qed.

End Same_provisioning.

Lemma X8_witness :
  let plan :=
    ProvisionResource.mkModel types.Unknown (types.Known "vm-1")
      (types.Known [ProvisionResource.mkFileBlock types.Null (types.Known "echo hi")
                      (types.Known "/tmp/a.sh")])
      (types.Known ["false"]) types.Null in
  exists created updated s1 s2,
    ProvisionResource.Create plan (sim.fresh "vm-1" sim.Up) = Done created s1
    /\ ProvisionResource.Update plan (sim.fresh "vm-1" sim.Up) = Done updated s2
    /\ same_result created updated
    /\ same_but_log s1 s2.
Proof.
  intros plan.
  pose proof (X8_Update_repeats_Create plan (sim.fresh "vm-1" sim.Up)
                ltac:(repeat constructor)) as H.
  assert (exists created s1,
    ProvisionResource.Create plan (sim.fresh "vm-1" sim.Up) = Done created s1)
    as (created & s1 & Ec) by (do 2 eexists; vm_compute; reflexivity).
  assert (exists updated s2,
    ProvisionResource.Update plan (sim.fresh "vm-1" sim.Up) = Done updated s2)
    as (updated & s2 & Eu) by (do 2 eexists; vm_compute; reflexivity).
  rewrite Ec, Eu in H. exists created, updated, s1, s2. tauto.
Defined.

(** ** What is returned with an error, and what the fingerprint cannot see *)

Section Output.
Context {W : Type} {world : World W}.

(** X18: the two ways to run a command differ in what they return with an
    error.  [Exec], which [ReadFile] and [WriteFile] use, returns an empty
    output whenever it returns an error, whatever the command had printed.
    [ExecWithTimeout], used for the commands of a declaration, returns what
    the process had written to its standard output when the call ended,
    after a failure and after a timeout as well as after a success; that is
    the output the diagnostic of a failed command shows. *)
Theorem X18_output_with_an_error (s : client.SSHClient) (command : string)
  (timeout : Z) (st st' : St W) (out : string) (err : option error) :
  let p := ssh_spawn (client.sshBaseArgs s ++ [command]) (st_world st) in
  (client.Exec s command st = Done (out, err) st' ->
   match err with
   | Some _ => out = ""
   | None => out = proc_stdout p (st_now st' - st_now st)
   end)
  /\ (client.ExecWithTimeout s command timeout st = Done (out, err) st' ->
      proc_start p = None ->
      out = proc_stdout p (st_now st' - st_now st)).
Proof.
  intros p. split.
  - unfold client.Exec. fold p.
    destruct (proc_start p); [|destruct (proc_exit p); [destruct (proc_wait p)|]];
      intros H; try discriminate; injection H as <- <- <-; try reflexivity.
    cbn [st_now]. f_equal. lia.
  - unfold client.ExecWithTimeout. fold p. intros H Hstart. rewrite Hstart in H.
    destruct (proc_exit p) as [d|];
      [destruct (Z.of_N d <? timeout); [destruct (proc_wait p)|]|];
      injection H as <- <- <-; cbn [st_now]; f_equal; lia.
Qed.

End Output.

Lemma X18_witness :
  exists e1 e2 s1 s2,
    client.Exec vm1 "cat /etc/motd" (sim.fresh "vm-1" sim.Down)
    = Done ("", Some e1) s1
    /\ client.ExecWithTimeout vm1 "sleep infinity" (10 * time.Minute)
         (sim.fresh "vm-1" sim.Up)
       = Done ("", Some e2) s2
    /\ Error e2 = "SSH command timed out after 10m0s".
Proof.
  destruct (client.Exec vm1 "cat /etc/motd" (sim.fresh "vm-1" sim.Down))
    as [[out [e1|]] s1|s1] eqn:E1; vm_compute in E1; try discriminate.
  destruct (client.ExecWithTimeout vm1 "sleep infinity" (10 * time.Minute)
              (sim.fresh "vm-1" sim.Up))
    as [[out2 [e2|]] s2|s2] eqn:E2; vm_compute in E2; try discriminate.
  destruct (X18_output_with_an_error (world := sim.world) vm1 "cat /etc/motd" 0
              (sim.fresh "vm-1" sim.Down) s1 out (Some e1)) as [H1 _].
  rewrite (H1 E1).
  exists e1, e2, s1, s2. split; [reflexivity|].
  injection E2 as <- <- _. split; reflexivity.
Defined.

Section Boundaries.
Context {W : Type} {world : World W}.
Import ProvisionResource.

(** X19: [computeID] writes the fields of a declaration to the hash one
    after the other, with nothing between them, so the fingerprint does not
    see where one field ends and the next begins.  A command split in two at
    any byte gives the same fingerprint as the one command; and so does a
    file block without a source when bytes move from the end of its
    destination to the front of its content. *)
Theorem X19_fingerprint_ignores_boundaries (id vm : types.String)
  (other : types.List FileBlock) (commands : types.List string)
  (triggers : types.Map) (w : W) :
  (forall (pre post : list string) (a b : string),
      computeID (mkModel id vm other (types.Known (pre ++ (a +:+ b) :: post)) triggers) w
      = computeID (mkModel id vm other (types.Known (pre ++ a :: b :: post)) triggers) w)
  /\ (forall (pre post : list FileBlock) (a b c : string),
        computeID
          (mkModel id vm
             (types.Known (pre ++ mkFileBlock types.Null (types.Known (b +:+ c))
                                    (types.Known a) :: post))
             commands triggers) w
        = computeID
            (mkModel id vm
               (types.Known (pre ++ mkFileBlock types.Null (types.Known c)
                                      (types.Known (a +:+ b)) :: post))
               commands triggers) w).
Proof.
  split.
  - intros pre post a b. unfold computeID. do 3 f_equal. unfold hashInput.
    cbn [VMID Files Commands Triggers types.elements].
    rewrite !concat0_app, !concat0_cons, !str_app_assoc. reflexivity.
  - intros pre post a b c. unfold computeID. do 3 f_equal. unfold hashInput.
    cbn [VMID Files Commands Triggers types.elements].
    rewrite !map_app, !concat0_app. cbn [map]. rewrite !concat0_cons.
    unfold fileBytes at 2 5, fileContent.
    cbn [Source Content Destination types.IsNull types.ValueString negb].
    rewrite !str_app_nil_l, !str_app_assoc. reflexivity.
Qed.

End Boundaries.

(** ** The form of the fingerprint *)

Section Format.
Context {W : Type} {world : World W}.

(** X21: the [id] that [computeID] gives a declaration is always a string of
    exactly 16 characters, each of them one of the lower-case hexadecimal
    digits [0123456789abcdef]: the first 8 of the 32 bytes of the SHA-256 of
    what it hashed. *)
Theorem X21_fingerprint_is_16_hex_digits
  (plan : ProvisionResource.ProvisionResourceModel) (w : W) :
  String.length (ProvisionResource.computeID plan w) = 16%nat
  /\ Forall (fun c => In c (list_ascii_of_string "0123456789abcdef"))
       (list_ascii_of_string (ProvisionResource.computeID plan w))
  /\ ProvisionResource.computeID plan w
     = hex.EncodeToString
         (firstn 8 (sha256.Sum256 (bytes_of (ProvisionResource.hashInput plan w)))).
Proof.
  unfold ProvisionResource.computeID.
  set (sum := sha256.Sum256 _).
  pose proof (Sum256_length (bytes_of (ProvisionResource.hashInput plan w))) as Hlen.
  fold sum in Hlen. split; [|split].
  - apply slice_to_length. rewrite EncodeToString_length, Hlen. lia.
  - apply slice_to_Forall, EncodeToString_hex.
  - clearbody sum. do 9 (destruct sum as [|? sum]; try discriminate Hlen).
    reflexivity.
Qed.

End Format.

(** ** A whole run in the simulated world *)

Lemma ExecWithTimeout_sim (s : client.SSHClient) (command : string) (timeout : Z)
  (st : St sim.Sim) out files :
  sim.sim_vm (st_world st) = sim.Up ->
  fits s command ->
  sim.run (sim.sim_remote (st_world st)) command = sim.Exited 0 out files ->
  1000000 < timeout ->
  client.ExecWithTimeout s command timeout st
  = Done (out, None)
      (mkSt (sim.set_remote files (st_world st)) (st_now st + 1000000)
         (st_trace st ++ [EvSSH (client.sshBaseArgs s ++ [command])])).
Proof.
  intros Hup Hfits Hrun Ht. unfold client.ExecWithTimeout.
  cbn [ssh_spawn ssh_done sim.world]. unfold sim.spawn, sim.finish.
  unfold fits in Hfits. rewrite Hfits, last_last, Hup, Hrun.
  cbn [proc_start proc_exit proc_wait proc_stdout Z.eqb].
  change (Z.of_N 1000000) with 1000000.
  destruct (Z.ltb_spec 1000000 timeout); [reflexivity | lia].
Qed.

Lemma WaitReachable_sim (s : client.SSHClient) (timeout : Z) (st : St sim.Sim) :
  sim.sim_vm (st_world st) = sim.Up ->
  fits s "echo ready" ->
  0 < timeout ->
  exists st1,
    client.WaitReachable s timeout st = Done None st1
    /\ st_world st1 = st_world st.
Proof.
  intros Hup Hfits Ht. unfold client.WaitReachable. unfold bind at 1, time_Now at 1.
  unfold client.WaitReachable_turns. rewrite Nat.add_1_r.
  assert (sim.run (sim.sim_remote (st_world st)) "echo ready"
          = sim.Exited 0 ("ready" +:+ nl) (sim.sim_remote (st_world st))) as Hrun
    by reflexivity.
  pose proof (ExecWithTimeout_sim s "echo ready" (15 * time.Second) st _ _
                Hup Hfits Hrun eq_refl) as E.
  unfold bind.
  rewrite (loop_reached s (st_now st + timeout) _ None st _ ("ready" +:+ nl)
             ltac:(lia) E eq_refl).
  eexists. split; [reflexivity|]. cbn [st_world]. now destruct (st_world st).
Qed.

(** In a tree without regular files, only a folder can be in the way. *)
Lemma clear_among_folders (files : sim.Tree) (place names : list string) :
  (forall k c, files !! k <> Some (sim.File c)) ->
  names <> [] ->
  files !! (place ++ names) <> Some sim.Folder ->
  clear files place names = true.
Proof.
  intros Hfiles. revert place. induction names as [|n rest IH]; intros place Hne Hfree.
  { congruence. }
  destruct rest as [|m rest].
  - cbn [clear]. destruct (files !! (place ++ [n])) as [[|c]|]; congruence.
  - rewrite clear_cons by discriminate.
    destruct (files !! (place ++ [n])) as [[|c]|] eqn:E.
    2:{ now apply Hfiles in E. }
    all: apply IH; [discriminate | now rewrite <- app_assoc].
Qed.

(** X20: in the simulated world, where the VM [vm-1] is up, holds nothing
    but the home of [root], and the API has its key, [Create] of a
    declaration with one file block with an inline content succeeds without
    a diagnostic, and afterwards the file on the VM holds the content, byte
    for byte, and the key file is gone from the local machine.  The
    conditions: the content is not empty; the destination is an absolute
    path of names that stand for themselves, of at most [NAME_MAX] bytes
    each, shorter than [PATH_MAX], and not the home of [root]; and the write
    command, made of the encoding of the content and of the escaped path, is
    short enough to be passed to [ssh]. *)
Theorem X20_inline_file_reaches_the_VM (names : list string) (content : string) :
  let destination := path_of names in
  let plan :=
    ProvisionResource.mkModel types.Unknown (types.Known "vm-1")
      (types.Known [ProvisionResource.mkFileBlock types.Null (types.Known content)
                      (types.Known destination)])
      types.Null types.Null in
  content <> "" ->
  names <> [] ->
  names <> ["root"] ->
  Forall guest_name names ->
  Z.of_nat (String.length destination) < sim.PATH_MAX ->
  Z.of_nat (String.length (base64.EncodeToString content))
  + Z.of_nat (String.length (client.shellEscape destination)) + 24
  < sim.MAX_ARG_STRLEN ->
  exists id st',
    ProvisionResource.Create plan (sim.fresh "vm-1" sim.Up)
    = Done (ProvisionResource.mkResponse []
              (Some (ProvisionResource.with_ID plan id))) st'
    /\ sim.fetch (sim.sim_remote (st_world st')) destination = Some content
    /\ sim.sim_local (st_world st') = ∅.
Proof.
  intros destination plan Hcontent Hne Hroot Hnames Hpath Hlen.
  destruct (exists_last Hne) as (init & name & Enames).
  assert (Forall guest_name init /\ guest_name name) as [Hinit Hname].
  { rewrite Enames in Hnames. apply Forall_app in Hnames as [H1 H2].
    split; [exact H1 | now inversion H2]. }
  unfold ProvisionResource.Create, GetSSHKey, client.NewSSHClient.
  unfold bind at 1, tflog at 1, emit at 1. unfold bind at 1, call at 1.
  cbn [st_world sim.fresh api_GetSSHKey sim.world sim.sim_keys plan
       ProvisionResource.VMID types.ValueString].
  rewrite lookup_singleton_eq.
  unfold bind at 1. unfold bind at 1, ask at 1. unfold bind at 1, call at 1.
  cbn [st_world st_now st_trace os_TempDir os_MkdirAll sim.world sim.sim_tmp].
  unfold bind at 1, call at 1.
  cbn [st_world st_now st_trace os_WriteFile sim.world]. unfold ret at 1.
  unfold bind at 1.
  match goal with |- context [ProvisionResource.Create_provision ?c _ ?s] =>
    change c with vm1; set (st0 := s) end.
  assert (sim.sim_vm (st_world st0) = sim.Up) as Hup0 by reflexivity.
  assert (fits vm1 "") as Hfits by (vm_compute; reflexivity).
  assert (fits vm1 "echo ready") as Hprobe by (vm_compute; reflexivity).
  unfold ProvisionResource.Create_provision.
  unfold bind at 1, tflog at 1, emit at 1. unfold bind at 1.
  match goal with |- context [client.WaitReachable vm1 ?t ?s] =>
    destruct (WaitReachable_sim vm1 t s Hup0 Hprobe eq_refl) as (st1 & -> & Hw1)
  end.
  cbn [st_world] in Hw1.
  unfold bind at 1.
  cbn [plan ProvisionResource.Files ProvisionResource.Commands types.elements
       ProvisionResource.uploadFiles_Create].
  unfold ProvisionResource.source_given, ProvisionResource.content_given.
  cbn [ProvisionResource.Source ProvisionResource.Content
       ProvisionResource.Destination types.IsNull types.ValueString negb andb].
  apply String.eqb_neq in Hcontent. rewrite Hcontent. cbn [negb].
  unfold bind at 1, tflog at 1, emit at 1. unfold bind at 1.
  unfold destination in *. rewrite Enames in *.
  match goal with |- context [client.WriteFile vm1 _ content ?s] =>
    destruct (WriteFile_sim vm1 init name content s) as (st2 & files' & -> & Hw2 & _ & _ & Hfetch)
  end; auto.
  { cbn [st_world]. rewrite Hw1. reflexivity. }
  { cbn [st_world]. rewrite Hw1. subst st0.
    cbn [st_world sim.sim_remote sim.set_local sim.fresh].
    apply clear_among_folders.
    - intros k c. intros [_ [=]]%lookup_singleton_Some.
    - destruct init; discriminate.
    - intros [E _]%lookup_singleton_Some. apply Hroot. symmetry. exact E. }
  cbn [ProvisionResource.uploadFiles_Create ProvisionResource.runCommands_Create
       length].
  unfold ret at 1. unfold bind at 1. unfold ret at 1.
  unfold bind, ask, tflog, emit, ret, client.Cleanup, call.
  do 2 eexists. split; [reflexivity|].
  cbn [st_world os_Remove sim.world sim.set_local sim.sim_remote sim.sim_local
       client.KeyPath vm1] in *.
  split; [exact Hfetch|].
  rewrite Hw2. cbn [st_world]. rewrite Hw1. subst st0.
  cbn [st_world sim.set_local sim.set_remote sim.sim_remote sim.sim_local sim.fresh].
  rewrite delete_insert_eq. apply delete_empty.
Qed.

Lemma X20_witness :
  exists id st',
    ProvisionResource.Create
      (ProvisionResource.mkModel types.Unknown (types.Known "vm-1")
         (types.Known [ProvisionResource.mkFileBlock types.Null
                         (types.Known "it's here")
                         (types.Known "/srv/my app/motd")])
         types.Null types.Null) (sim.fresh "vm-1" sim.Up)
    = Done (ProvisionResource.mkResponse []
              (Some (ProvisionResource.with_ID
                       (ProvisionResource.mkModel types.Unknown (types.Known "vm-1")
                          (types.Known [ProvisionResource.mkFileBlock types.Null
                                          (types.Known "it's here")
                                          (types.Known "/srv/my app/motd")])
                          types.Null types.Null) id))) st'
    /\ sim.fetch (sim.sim_remote (st_world st')) "/srv/my app/motd" = Some "it's here".
Proof.
  destruct (X20_inline_file_reaches_the_VM ["srv"; "my app"; "motd"] "it's here")
    as (id & st' & E & Hr & _).
  - discriminate.
  - discriminate.
  - discriminate.
  - repeat constructor; vm_compute; congruence.
  - vm_compute. reflexivity.
  - vm_compute. reflexivity.
  - exists id, st'. split; [exact E | exact Hr].
Defined.

(** ** The life cycle in the simulated world: a commit, restored, read, and
    deleted *)

Example life_cycle_example :
  let commit := VMCommitResource.mkModel types.Unknown (types.Known "vm-1")
                  types.Unknown (types.Known false) types.Null in
  let restore := VMRestoreResource.mkModel types.Unknown (types.Known "commit-0")
                   types.Unknown types.Unknown types.Unknown types.Unknown in
  let restored :=
    VMRestoreResource.mkModel (types.Known "vm-of-commit-0") (types.Known "commit-0")
      (types.Known "running") (types.Known "vm-of-commit-0.vm.vers.sh")
      (types.Known "PRIVATE KEY of vm-of-commit-0")
      (types.Known "2026-01-01T00:00:00Z") in
  exists r1 st1 st2 st3 st4 st5,
    VMCommitResource.Create commit (sim.fresh "vm-1" sim.Up) = Done r1 st1
    /\ VMRestoreResource.Create restore st1
       = Done (VMRestoreResource.mkResponse [] (Set_ restored)) st2
    /\ VMRestoreResource.Read restored st2
       = Done (VMRestoreResource.mkResponse [] (Set_ restored)) st3
    /\ VMRestoreResource.Delete restored st3
       = Done (VMRestoreResource.mkResponse [] Untouched) st4
    /\ VMRestoreResource.Read restored st4
       = Done (VMRestoreResource.mkResponse [] Removed) st5
    /\ st_now st5 - st_now st1 = 6 * 50000000.
Proof.
  do 6 eexists.
  split; [vm_compute; reflexivity|].
  split; [vm_compute; reflexivity|].
  split; [vm_compute; reflexivity|].
  split; [vm_compute; reflexivity|].
  split; [vm_compute; reflexivity|].
  vm_compute. reflexivity.
Qed.

Example restore_of_unknown_commit :
  exists st',
    VMRestoreResource.Create
      (VMRestoreResource.mkModel types.Unknown (types.Known "commit-7")
         types.Unknown types.Unknown types.Unknown types.Unknown)
      (sim.fresh "vm-1" sim.Up)
    = Done (VMRestoreResource.mkResponse
              [AddError "Failed to restore VM from commit"
                 "Vers API POST /vm/from_commit returned 404: "] Untouched) st'.
Proof. eexists. vm_compute. reflexivity. Qed.

(** ** Runs that cannot block *)

Section Bounded.
Context {W : Type} {world : World W}.
Import ProvisionResource.

Lemma within_ret {A : Type} (a : A) : within (W := W) 0 (ret a).
Proof. intros st. exists a, st. split; [reflexivity | lia]. Qed.

Lemma within_bind {A B : Type} (d1 d2 : Z) (m : M W A) (k : A -> M W B) :
  within d1 m -> (forall a, within d2 (k a)) -> within (d1 + d2) (bind m k).
Proof.
  intros Hm Hk st. unfold bind. destruct (Hm st) as (a & s1 & -> & H1).
  destruct (Hk a s1) as (b & s2 & -> & H2). exists b, s2.
  split; [reflexivity | lia].
Qed.

Lemma within_more {A : Type} (d d' : Z) (m : M W A) :
  d <= d' -> within d m -> within d' m.
Proof.
  intros Hd Hm st. destruct (Hm st) as (a & s1 & E & H). exists a, s1.
  split; [exact E | lia].
Qed.

Lemma within_tflog (l : Level) (msg : string) : within (W := W) 0 (tflog l msg).
Proof. intros st. do 2 eexists. split; [reflexivity|]. cbn [st_now]. lia. Qed.

Lemma within_call {A : Type} (e : Event) (f : W -> A * W) : within 0 (call e f).
Proof.
  intros st. unfold call. destruct (f (st_world st)) as [a w].
  do 2 eexists. split; [reflexivity|]. cbn [st_now]. lia.
Qed.

Lemma within_ask {A : Type} (f : W -> A) : within 0 (ask f).
Proof. intros st. do 2 eexists. split; [reflexivity | lia]. Qed.

Lemma within_ExecWithTimeout (s : client.SSHClient) (command : string) (timeout : Z) :
  within (W := W) (Z.max 0 timeout) (client.ExecWithTimeout s command timeout).
Proof.
  intros st. destruct (ExecWithTimeout_returns s command timeout st)
    as (out & err & st' & kill & E & _ & _ & Ht).
  exists (out, err), st'. split; [exact E | exact Ht].
Qed.

Lemma within_WaitReachable (s : client.SSHClient) (timeout : Z) :
  within (W := W) (Z.max 0 timeout + 18 * time.Second) (client.WaitReachable s timeout).
Proof.
  intros st. unfold client.WaitReachable. unfold bind at 1, time_Now at 1.
  destruct (loop_returns s (st_now st + timeout) (client.WaitReachable_turns timeout)
              None st) as (r & st1 & E & _).
  { pose proof (turns_cover timeout). lia. }
  destruct (loop_bounds s (st_now st + timeout) (client.WaitReachable_turns timeout)
              None st) as (evs & _ & _ & Hle & Hpast & Hbefore).
  unfold bind. rewrite E in *. cbn [state_of] in *.
  assert (st_now st1 <= st_now st + Z.max 0 timeout + 18 * time.Second) as Hup.
  { unfold time.Second in *.
    destruct (Z.lt_ge_cases (st_now st) (st_now st + timeout)) as [H|H].
    - destruct (Hbefore H). lia.
    - destruct (Hpast H). lia. }
  destruct r as [|[e|]]; do 2 eexists; (split; [reflexivity|]); lia.
Qed.

Lemma within_runCommands_Create ssh n i (commands : list string) :
  within (W := W) (10 * time.Minute * Z.of_nat (length commands))
    (runCommands_Create ssh n i commands).
Proof.
  revert i. induction commands as [|c rest IH]; intros i;
    cbn [runCommands_Create length]; [apply within_ret|].
  eapply within_more; [|apply (within_bind 0 (10 * time.Minute * Z.of_nat (S (length rest))));
                         [apply within_tflog|]].
  { lia. }
  intros _.
  eapply within_more;
    [|apply (within_bind (10 * time.Minute) (10 * time.Minute * Z.of_nat (length rest)));
      [apply (within_ExecWithTimeout ssh c (10 * time.Minute))|]].
  { unfold time.Minute, time.Second. lia. }
  intros [output [e|]].
  - eapply within_more; [|apply within_ret]. unfold time.Minute, time.Second. lia.
  - eapply within_more;
      [|apply (within_bind 0 (10 * time.Minute * Z.of_nat (length rest)));
        [apply within_tflog | intros _; apply IH]].
    lia.
Qed.

Lemma within_runCommands_Update ssh n i (commands : list string) :
  within (W := W) (10 * time.Minute * Z.of_nat (length commands))
    (runCommands_Update ssh n i commands).
Proof.
  revert i. induction commands as [|c rest IH]; intros i;
    cbn [runCommands_Update length]; [apply within_ret|].
  eapply within_more; [|apply (within_bind 0 (10 * time.Minute * Z.of_nat (S (length rest))));
                         [apply within_tflog|]].
  { lia. }
  intros _.
  eapply within_more;
    [|apply (within_bind (10 * time.Minute) (10 * time.Minute * Z.of_nat (length rest)));
      [apply (within_ExecWithTimeout ssh c (10 * time.Minute))|]].
  { unfold time.Minute, time.Second. lia. }
  intros [output [e|]].
  - eapply within_more; [|apply within_ret]. unfold time.Minute, time.Second. lia.
  - apply IH.
Qed.

Lemma within_with_client (d : Z) (line vmID : string)
  (body : client.SSHClient -> M W Response) :
  0 <= d ->
  (forall ssh, within d (body ssh)) ->
  within d (with_client line vmID body).
Proof.
  intros Hd Hbody. unfold with_client, GetSSHKey, client.NewSSHClient, client.Cleanup.
  eapply within_more; [|apply (within_bind 0 d); [apply within_tflog|]]; [lia|].
  intros _.
  eapply within_more; [|apply (within_bind 0 d); [apply within_call|]]; [lia|].
  intros [key|err]; [|eapply within_more; [|apply within_ret]; lia].
  eapply within_more; [|apply (within_bind 0 d)]; [lia| |].
  - eapply within_more; [|apply (within_bind 0 0); [apply within_ask|]]; [lia|].
    intros tmp.
    eapply within_more; [|apply (within_bind 0 0); [apply within_call|]]; [lia|].
    intros [e|]; [apply within_ret|].
    eapply within_more; [|apply (within_bind 0 0); [apply within_call|]]; [lia|].
    intros [e|]; apply within_ret.
  - intros [ssh|err]; [|eapply within_more; [|apply within_ret]; lia].
    eapply within_more; [|apply (within_bind d 0); [apply Hbody|]]; [lia|].
    intros resp.
    eapply within_more; [|apply (within_bind 0 0); [apply within_call|]]; [lia|].
    intros _. apply within_ret.
Qed.

(** X22: a declaration without file blocks cannot block: [Create] and
    [Update] of [vers_provision] then always return, at most 3 minutes and
    18 seconds for the wait plus 10 minutes for each declared command after
    they were called, since every process they start is run with a timeout
    (the clock of the model advances with the processes and the sleeps
    only).  With file blocks there is no such bound: uploads go through
    [Exec], which has no timeout. *)
Theorem X22_run_without_files_is_bounded (plan : ProvisionResourceModel) (st : St W) :
  types.elements (Files plan) = [] ->
  forall op, op = Create \/ op = Update ->
  exists resp st',
    op plan st = Done resp st'
    /\ st_now st <= st_now st'
       <= st_now st + 3 * time.Minute + 18 * time.Second
          + 10 * time.Minute * Z.of_nat (length (types.elements (Commands plan))).
Proof.
  intros Hfiles op Hop.
  set (d := 3 * time.Minute + 18 * time.Second
            + 10 * time.Minute * Z.of_nat (length (types.elements (Commands plan)))).
  assert (0 <= 10 * time.Minute * Z.of_nat (length (types.elements (Commands plan))))
    as Hcmds by (unfold time.Minute, time.Second; lia).
  assert (within d (op plan)) as H.
  { destruct Hop as [-> | ->].
    - rewrite Create_with_client. apply within_with_client.
      { unfold d, time.Minute, time.Second in *. lia. }
      intros ssh. unfold Create_provision. rewrite Hfiles.
      eapply within_more; [|apply (within_bind 0 d); [apply within_tflog|]]; [lia|].
      intros _.
      eapply within_more;
        [|apply (within_bind (3 * time.Minute + 18 * time.Second)
                   (10 * time.Minute * Z.of_nat (length (types.elements (Commands plan)))));
          [apply (within_WaitReachable ssh (3 * time.Minute))|]]; [unfold d; lia|].
      intros [e|]; [eapply within_more; [|apply within_ret]; lia|].
      cbn [uploadFiles_Create]. unfold bind at 1, ret at 1.
      eapply within_more;
        [|apply (within_bind
                   (10 * time.Minute * Z.of_nat (length (types.elements (Commands plan)))) 0);
          [apply within_runCommands_Create|]]; [lia|].
      intros [diag|]; [apply within_ret|].
      eapply within_more; [|apply (within_bind 0 0); [apply within_ask|]]; [lia|].
      intros id.
      eapply within_more; [|apply (within_bind 0 0); [apply within_tflog|]]; [lia|].
      intros _. apply within_ret.
    - rewrite Update_with_client. apply within_with_client.
      { unfold d, time.Minute, time.Second in *. lia. }
      intros ssh. unfold Update_provision. rewrite Hfiles.
      eapply within_more;
        [|apply (within_bind (3 * time.Minute + 18 * time.Second)
                   (10 * time.Minute * Z.of_nat (length (types.elements (Commands plan)))));
          [apply (within_WaitReachable ssh (3 * time.Minute))|]]; [unfold d; lia|].
      intros [e|]; [eapply within_more; [|apply within_ret]; lia|].
      cbn [uploadFiles_Update]. unfold bind at 1, ret at 1.
      eapply within_more;
        [|apply (within_bind
                   (10 * time.Minute * Z.of_nat (length (types.elements (Commands plan)))) 0);
          [apply within_runCommands_Update|]]; [lia|].
      intros [diag|]; [apply within_ret|].
      eapply within_more; [|apply (within_bind 0 0); [apply within_ask|]]; [lia|].
      intros id. apply within_ret. }
  destruct (H st) as (resp & st' & E & Ht). exists resp, st'.
  split; [exact E|]. unfold d in Ht. lia.
Qed.

End Bounded.

Lemma X22_witness :
  exists resp st',
    ProvisionResource.Create (plan_command "sleep infinity") (sim.fresh "vm-1" sim.Up)
    = Done resp st'
    /\ st_now st' = 1000000 + 10 * time.Minute
    /\ map diag_summary (ProvisionResource.Diagnostics resp)
       = ["Command 1 failed: sleep infinity"].
Proof.
  destruct (X22_run_without_files_is_bounded (plan_command "sleep infinity")
              (sim.fresh "vm-1" sim.Up) eq_refl ProvisionResource.Create
              (or_introl eq_refl)) as (resp & st' & E & _).
  exists resp, st'. split; [exact E|].
  vm_compute in E. injection E as <- <-. split; reflexivity.
Defined.
